(** * RedMesh Navigator: probe-result normalisation and port analysis

    A shallow embedding of
      - [src/lib/utils/probeResult.ts]  ([normalizeProbeResult]),
      - the port analysis, filter and sort of the [DiscoveredPorts]
        component ([topSeverityFromResult], [portAnalysis],
        [filteredPorts], [sortedPorts]),
      - the [WELL_KNOWN_PORTS] table of the shared knowledge base,
    followed by the properties the specification states about them.

    Conventions of the embedding.
      - A JavaScript string is a Rocq [string]; the embedding covers ASCII
        text: [toUpperCase] maps a-z to A-Z and leaves every other
        character alone, and the white space removed by [trim] is the ASCII
        white space (tab, line feed, vertical tab, form feed, carriage
        return, space).
      - A JavaScript number is an integer ([Z]); [String(n)] is its decimal
        text.  Probe payloads are JSON data, so a value is one of
        undefined, null, a boolean, a number, a string, an array or a plain
        object.
      - A plain object is the list of its own entries in the order
        [Object.entries] yields them; property names of a JSON object are
        pairwise distinct, a read takes the first entry of that name.
        The payload fields the program reads have fixed names, none of
        them a member of [Object.prototype].
      - The read of the probe-to-protocol table is by a computed name;
        for the name of a member of [Object.prototype] it yields that
        inherited member ([Protocol], [probeToProtocol]).
      - [Map] and [Set] are stdpp's [gmap] and [gset]. *)

From Stdlib Require Import String Ascii ZArith List Bool Lia.
From Stdlib Require Import DecimalString Permutation Sorted QArith.
From stdpp Require Import gmap strings.
Import ListNotations.

Set Warnings "-register-all".

Local Open Scope string_scope.
Local Open Scope list_scope.

(** ** JavaScript strings *)

Module JsString.

Definition LF : ascii := "010"%char.
Definition DQUOTE : ascii := "034"%char.
Definition BACKSLASH : ascii := "092"%char.

(** [s.startsWith(t)] *)
Fixpoint startsWith (s t : string) {struct t} : bool :=
  match t with
  | EmptyString => true
  | String b t' =>
      match s with
      | EmptyString => false
      | String a s' => Ascii.eqb a b && startsWith s' t'
      end
  end.

(** [s.includes(t)]: [t] starts at some position of [s]. *)
Fixpoint includes (s t : string) : bool :=
  startsWith s t ||
  match s with
  | EmptyString => false
  | String _ s' => includes s' t
  end.

(** [s.split('\n')]: the pieces between line feeds; never empty. *)
Fixpoint splitLines (s : string) : list string :=
  match s with
  | EmptyString => [EmptyString]
  | String c s' =>
      if Ascii.eqb c LF then EmptyString :: splitLines s'
      else match splitLines s' with
           | [] => [String c EmptyString]
           | l :: ls => String c l :: ls
           end
  end.

Definition isWhite (c : ascii) : bool :=
  let n := nat_of_ascii c in
  ((9 <=? n) && (n <=? 13))%nat || (n =? 32)%nat.

Fixpoint trimStart (s : string) : string :=
  match s with
  | EmptyString => EmptyString
  | String c s' => if isWhite c then trimStart s' else s
  end.

Fixpoint trimEnd (s : string) : string :=
  match s with
  | EmptyString => EmptyString
  | String c s' =>
      match trimEnd s' with
      | EmptyString => if isWhite c then EmptyString else String c EmptyString
      | r => String c r
      end
  end.

(** [s.trim()] *)
Definition trim (s : string) : string := trimEnd (trimStart s).

Definition upperChar (c : ascii) : ascii :=
  let n := nat_of_ascii c in
  if ((97 <=? n) && (n <=? 122))%nat then ascii_of_nat (n - 32) else c.

(** [s.toUpperCase()] *)
Fixpoint toUpperCase (s : string) : string :=
  match s with
  | EmptyString => EmptyString
  | String c s' => String (upperChar c) (toUpperCase s')
  end.

(** A string is truthy when it is not empty. *)
Definition nonEmpty (s : string) : bool :=
  match s with EmptyString => false | String _ _ => true end.

(** [String(n)] for an integer. *)
Definition numToString (n : Z) : string :=
  NilEmpty.string_of_int (Z.to_int n).

Definition hexDigit (n : nat) : ascii :=
  if (n <? 10)%nat then ascii_of_nat (48 + n) else ascii_of_nat (87 + n).

(** One character inside a JSON string literal. *)
Definition jsonEscapeChar (c : ascii) : string :=
  let n := nat_of_ascii c in
  if Ascii.eqb c DQUOTE then String BACKSLASH (String DQUOTE EmptyString)
  else if Ascii.eqb c BACKSLASH then String BACKSLASH (String BACKSLASH EmptyString)
  else if (n =? 8)%nat then String BACKSLASH "b"
  else if (n =? 9)%nat then String BACKSLASH "t"
  else if (n =? 10)%nat then String BACKSLASH "n"
  else if (n =? 12)%nat then String BACKSLASH "f"
  else if (n =? 13)%nat then String BACKSLASH "r"
  else if (n <? 32)%nat then
    String BACKSLASH ("u00" ++ String (hexDigit (n / 16)) (String (hexDigit (n mod 16)) EmptyString))
  else String c EmptyString.

Fixpoint jsonEscape (s : string) : string :=
  match s with
  | EmptyString => EmptyString
  | String c s' => jsonEscapeChar c ++ jsonEscape s'
  end.

(** [JSON.stringify(s)] for a string. *)
Definition jsonQuote (s : string) : string :=
  String DQUOTE (jsonEscape s ++ String DQUOTE EmptyString).

End JsString.

(** ** JavaScript values (JSON data) *)

Module Js.
Import JsString.

Inductive JsVal : Type :=
| JUndefined
| JNull
| JBool (b : bool)
| JNum (n : Z)
| JStr (s : string)
| JArr (items : list JsVal)
| JObj (fields : list (string * JsVal)).

(** The read [o[k]] on the entries of a plain object. *)
Fixpoint get (fields : list (string * JsVal)) (k : string) : JsVal :=
  match fields with
  | [] => JUndefined
  | (k', v) :: rest => if String.eqb k' k then v else get rest k
  end.

(** The read [v.k] for the property names the program uses; an array or
    a primitive has none of them. *)
Definition prop (v : JsVal) (k : string) : JsVal :=
  match v with
  | JObj fields => get fields k
  | _ => JUndefined
  end.

(** The test [if (v)]. *)
Definition truthy (v : JsVal) : bool :=
  match v with
  | JUndefined | JNull => false
  | JBool b => b
  | JNum n => negb (n =? 0)%Z
  | JStr s => nonEmpty s
  | JArr _ | JObj _ => true
  end.

(** [v === null || v === undefined] *)
Definition nullish (v : JsVal) : bool :=
  match v with JUndefined | JNull => true | _ => false end.

(** [v === null] *)
Definition isNull (v : JsVal) : bool :=
  match v with JNull => true | _ => false end.

(** [typeof v === 'object'] *)
Definition typeofObject (v : JsVal) : bool :=
  match v with JNull | JArr _ | JObj _ => true | _ => false end.

(** [String(v)] *)
Fixpoint toString (v : JsVal) : string :=
  match v with
  | JUndefined => "undefined"
  | JNull => "null"
  | JBool true => "true"
  | JBool false => "false"
  | JNum n => numToString n
  | JStr s => s
  | JArr items =>
      String.concat ","
        (map (fun x => match x with
                       | JUndefined | JNull => EmptyString
                       | _ => toString x
                       end) items)
  | JObj _ => "[object Object]"
  end.

(** [items.join(sep)]: null and undefined items give the empty text. *)
Definition join (sep : string) (items : list JsVal) : string :=
  String.concat sep
    (map (fun x => if nullish x then EmptyString else toString x) items).

(** [JSON.stringify(v)]; an undefined array item is written null, an
    undefined property is left out. *)
Fixpoint jsonStringify (v : JsVal) : string :=
  match v with
  | JUndefined => "null"
  | JNull => "null"
  | JBool true => "true"
  | JBool false => "false"
  | JNum n => numToString n
  | JStr s => jsonQuote s
  | JArr items => "[" ++ String.concat "," (map jsonStringify items) ++ "]"
  | JObj fields =>
      "{" ++ String.concat ","
        ((fix members (l : list (string * JsVal)) : list string :=
            match l with
            | [] => []
            | (k, JUndefined) :: rest => members rest
            | (k, x) :: rest =>
                (jsonQuote k ++ ":" ++ jsonStringify x)%string :: members rest
            end) fields) ++ "}"
  end.

(** What [Array.isArray(v) && v.length > 0] lets through. *)
Definition nonEmptyArray (v : JsVal) : option (list JsVal) :=
  match v with
  | JArr (x :: rest) => Some (x :: rest)
  | _ => None
  end.

End Js.


(** ** The probe-result normaliser ([src/lib/utils/probeResult.ts]) *)

Module ProbeResult.
Import JsString Js.

(** [ParsedFinding]: the interface declares [severity] as one of five
    literals, but the value stored is whatever string the normaliser
    computed (the cast on line 67 is not checked at run time). *)
Record ParsedFinding : Type := {
  severity : string;
  title : string;
  description : option string;
  evidence : option string;
  remediation : option string;
  owasp_id : option string;
  cwe_id : option string;
  confidence : option string }.

Record NormalizedProbeResult : Type := {
  lines : list string;
  findings : list ParsedFinding;
  hasVulnerability : bool;
  hasError : bool;
  vulnerabilities : list string;
  banner : option string }.

(** The three arrays the structured branch fills in place. *)
Record Acc : Type := {
  acc_lines : list string;
  acc_findings : list ParsedFinding;
  acc_vulns : list string }.

Definition pushLine (acc : Acc) (l : string) : Acc :=
  {| acc_lines := acc_lines acc ++ [l];
     acc_findings := acc_findings acc;
     acc_vulns := acc_vulns acc |}.

Definition pushLines (acc : Acc) (ls : list string) : Acc :=
  fold_left pushLine ls acc.

Definition pushVuln (acc : Acc) (v l : string) : Acc :=
  {| acc_lines := acc_lines acc ++ [l];
     acc_findings := acc_findings acc;
     acc_vulns := acc_vulns acc ++ [v] |}.

(** [x ?? d] *)
Definition orElse (x d : JsVal) : JsVal := if nullish x then d else x.

(** [if (finding.k) parsed.k = String(finding.k)] *)
Definition optField (finding : JsVal) (k : string) : option string :=
  if truthy (prop finding k) then Some (toString (prop finding k)) else None.

Definition isVulnSeverity (sev : string) : bool :=
  String.eqb sev "CRITICAL" || String.eqb sev "HIGH" || String.eqb sev "MEDIUM".

(** Lines 66-78: one entry of [obj.findings] that is an object. *)
Definition parseFinding (finding : JsVal) : ParsedFinding :=
  {| severity := toUpperCase (toString (orElse (prop finding "severity") (JStr "INFO")));
     title := toString (orElse (prop finding "title") (JStr EmptyString));
     description := optField finding "description";
     evidence := optField finding "evidence";
     remediation := optField finding "remediation";
     owasp_id := optField finding "owasp_id";
     cwe_id := optField finding "cwe_id";
     confidence := optField finding "confidence" |}.

Definition vulnLabel (p : ParsedFinding) : string :=
  "VULNERABILITY: [" ++ severity p ++ "] " ++ title p.

Definition plainLabel (p : ParsedFinding) : string :=
  "[" ++ severity p ++ "] " ++ title p.

(** Lines 64-87: the body of the loop over [obj.findings]. *)
Definition findingStep (acc : Acc) (f : JsVal) : Acc :=
  if negb (typeofObject f) || isNull f then acc
  else
    let parsed := parseFinding f in
    if isVulnSeverity (severity parsed) then
      {| acc_lines := acc_lines acc ++ [vulnLabel parsed];
         acc_findings := acc_findings acc ++ [parsed];
         acc_vulns := acc_vulns acc ++ [vulnLabel parsed] |}
    else
      {| acc_lines := acc_lines acc ++ [plainLabel parsed];
         acc_findings := acc_findings acc ++ [parsed];
         acc_vulns := acc_vulns acc |}.

(** Lines 63-88. *)
Definition findingsBlock (obj : list (string * JsVal)) (acc : Acc) : Acc :=
  match nonEmptyArray (get obj "findings") with
  | Some fs => fold_left findingStep fs acc
  | None => acc
  end.

(** Lines 99-106: the body of the loop over the legacy
    [obj.vulnerabilities] list. *)
Definition legacyStep (acc : Acc) (v : JsVal) : Acc :=
  let vs := toString v in
  if negb (existsb (String.eqb vs) (acc_vulns acc))
     && negb (existsb (fun existing => includes existing vs) (acc_vulns acc))
  then pushVuln acc vs ("VULNERABILITY: " ++ vs)
  else acc.

(** Lines 98-107. *)
Definition legacyBlock (obj : list (string * JsVal)) (acc : Acc) : Acc :=
  match get obj "vulnerabilities" with
  | JArr vs => fold_left legacyStep vs acc
  | _ => acc
  end.

(** [if (obj.k) lines.push(label + String(obj.k))] *)
Definition textField (k label : string) (obj : list (string * JsVal)) (acc : Acc) : Acc :=
  if truthy (get obj k) then pushLine acc (label ++ toString (get obj k)) else acc.

(** [if (Array.isArray(obj.k) && obj.k.length > 0)
       lines.push(label + obj.k.join(', '))] *)
Definition listField (k label : string) (obj : list (string * JsVal)) (acc : Acc) : Acc :=
  match nonEmptyArray (get obj k) with
  | Some xs => pushLine acc (label ++ join ", " xs)
  | None => acc
  end.

(** [if (obj.k === true) lines.push(line)] *)
Definition flagField (k line : string) (obj : list (string * JsVal)) (acc : Acc) : Acc :=
  match get obj k with
  | JBool true => pushLine acc line
  | _ => acc
  end.

(** [if (typeof obj.k === 'boolean') lines.push(label + (obj.k ? 'Yes' : 'No'))] *)
Definition yesNoField (k label : string) (obj : list (string * JsVal)) (acc : Acc) : Acc :=
  match get obj k with
  | JBool b => pushLine acc (label ++ (if b then "Yes" else "No"))
  | _ => acc
  end.

(** Lines 129-134. *)
Definition directoryListing (obj : list (string * JsVal)) (acc : Acc) : Acc :=
  match nonEmptyArray (get obj "directory_listing") with
  | Some xs =>
      pushLines
        (pushLine acc ("Directory listing ("
                       ++ numToString (Z.of_nat (length xs)) ++ " entries):"))
        (map (fun entry => "  " ++ toString entry)%string xs)
  | None => acc
  end.

(** Lines 157-161. *)
Definition weakAlgorithms (obj : list (string * JsVal)) (acc : Acc) : Acc :=
  match nonEmptyArray (get obj "weak_algorithms") with
  | Some xs => pushLines acc (map (fun algo => "Weak " ++ toString algo)%string xs)
  | None => acc
  end.

(** Lines 173-175. *)
Definition dbSize (obj : list (string * JsVal)) (acc : Acc) : Acc :=
  match get obj "db_size" with
  | JNum n => pushLine acc ("DB size: " ++ numToString n ++ " keys")
  | _ => acc
  end.

(** Lines 200-203: shown only when no structured finding was parsed. *)
Definition dangerousMethods (obj : list (string * JsVal)) (acc : Acc) : Acc :=
  match nonEmptyArray (get obj "dangerous_methods"), acc_findings acc with
  | Some xs, [] => pushLine acc ("Dangerous methods: " ++ join ", " xs)
  | _, _ => acc
  end.

(** Lines 214-226. *)
Definition handled : list string :=
  [ "banner"; "auth_methods"; "vulnerabilities"; "accepted_credentials"; "error";
    "server_type"; "features"; "anonymous_access"; "write_access"; "tls_supported";
    "directory_listing"; "negotiation_options"; "system_info";
    "server_hostname"; "max_message_size"; "starttls"; "open_relay";
    "vrfy_enabled"; "expn_enabled";
    "ssh_version"; "weak_algorithms";
    "version"; "os"; "config_writable"; "db_size"; "connected_clients";
    "auth_plugin"; "protocol_byte";
    "security_types"; "security_type_labels";
    "server"; "title"; "technologies"; "dangerous_methods";
    "powered_by"; "generator"; "vpn_endpoints";
    "findings" ].

(** Lines 228-234: the body of the loop over [Object.entries(obj)]. *)
Definition otherStep (acc : Acc) (entry : string * JsVal) : Acc :=
  let '(key, val) := entry in
  if negb (existsb (String.eqb key) handled) && negb (nullish val) then
    let valStr := if typeofObject val then jsonStringify val else toString val in
    let acc' := pushLine acc (key ++ ": " ++ valStr) in
    if includes valStr "VULNERABILITY" then
      {| acc_lines := acc_lines acc';
         acc_findings := acc_findings acc';
         acc_vulns := acc_vulns acc' ++ [valStr] |}
    else acc'
  else acc.

Definition bannerLine (banner : option string) (acc : Acc) : Acc :=
  match banner with
  | Some b => if nonEmpty b then pushLine acc ("Banner: " ++ b) else acc
  | None => acc
  end.

(** Line 49. *)
Definition bannerOf (obj : list (string * JsVal)) : option string :=
  if truthy (get obj "banner") then Some (toString (get obj "banner")) else None.

(** Lines 62-96: the findings loop, the banner and the auth methods, that
    is the structured branch up to the legacy vulnerability list. *)
Definition beforeLegacy (obj : list (string * JsVal)) : Acc :=
  let acc := {| acc_lines := []; acc_findings := []; acc_vulns := [] |} in
  let acc := findingsBlock obj acc in
  let acc := bannerLine (bannerOf obj) acc in
  listField "auth_methods" "Auth methods: " obj acc.

(** Lines 109-235: what follows the legacy vulnerability list. *)
Definition afterLegacy (obj : list (string * JsVal)) (acc : Acc) : Acc :=
  let acc := listField "accepted_credentials" "Accepted credentials: " obj acc in
  let acc := textField "server_type" "Server type: " obj acc in
  let acc := listField "features" "Features: " obj acc in
  let acc := flagField "anonymous_access" "Anonymous access: Yes" obj acc in
  let acc := flagField "write_access" "Write access: Yes" obj acc in
  let acc := yesNoField "tls_supported" "TLS support: " obj acc in
  let acc := directoryListing obj acc in
  let acc := listField "negotiation_options" "Negotiation: " obj acc in
  let acc := textField "system_info" "System: " obj acc in
  let acc := textField "server_hostname" "Server hostname: " obj acc in
  let acc := textField "max_message_size" "Max message size: " obj acc in
  let acc := textField "ssh_version" "SSH version: " obj acc in
  let acc := weakAlgorithms obj acc in
  let acc := textField "version" "Version: " obj acc in
  let acc := textField "os" "OS: " obj acc in
  let acc := yesNoField "config_writable" "CONFIG writable: " obj acc in
  let acc := dbSize obj acc in
  let acc := listField "connected_clients" "Connected clients: " obj acc in
  let acc := textField "auth_plugin" "Auth plugin: " obj acc in
  let acc := listField "security_type_labels" "Security types: " obj acc in
  let acc := textField "server" "Server: " obj acc in
  let acc := textField "title" "Title: " obj acc in
  let acc := listField "technologies" "Technologies: " obj acc in
  let acc := dangerousMethods obj acc in
  let acc := textField "powered_by" "X-Powered-By: " obj acc in
  let acc := textField "generator" "Generator: " obj acc in
  fold_left otherStep obj acc.

(** Lines 62-235: everything the structured branch does after the error
    check, in program order. *)
Definition structuredBody (obj : list (string * JsVal)) : Acc :=
  afterLegacy obj (legacyBlock obj (beforeLegacy obj)).

(** Lines 43-245: the branch for a non-array object. *)
Definition normalizeObject (obj : list (string * JsVal)) : NormalizedProbeResult :=
  let banner := bannerOf obj in
  if truthy (get obj "error") then
    {| lines := [toString (get obj "error")];
       findings := [];
       hasVulnerability := false;
       hasError := true;
       vulnerabilities := [];
       banner := None |}
  else
    let acc := structuredBody obj in
    {| lines := acc_lines acc;
       findings := acc_findings acc;
       hasVulnerability := (0 <? length (acc_vulns acc))%nat;
       hasError := false;
       vulnerabilities := acc_vulns acc;
       banner := banner |}.

(** Lines 247-259: the branch for everything else that is not null or
    undefined (a string, and also a number, a boolean or an array, which
    [String] turns into text). *)
Definition normalizeText (str : string) : NormalizedProbeResult :=
  let ls := List.filter (fun l => nonEmpty (trim l)) (splitLines str) in
  {| lines := ls;
     findings := [];
     hasVulnerability := includes str "VULNERABILITY";
     hasError := includes str "failed" || includes str "timed out"
                 || startsWith str "ERROR:";
     vulnerabilities := List.filter (fun l => includes l "VULNERABILITY") ls;
     banner := None |}.

Definition emptyResult : NormalizedProbeResult :=
  {| lines := []; findings := []; hasVulnerability := false;
     hasError := false; vulnerabilities := []; banner := None |}.

(** [normalizeProbeResult(result)] *)
Definition normalizeProbeResult (result : JsVal) : NormalizedProbeResult :=
  match result with
  | JUndefined | JNull => emptyResult
  | JObj obj => normalizeObject obj
  | other => normalizeText (toString other)
  end.

(** [probeResultToString(result)] *)
Definition probeResultToString (result : JsVal) : string :=
  String.concat (String LF EmptyString) (lines (normalizeProbeResult result)).

End ProbeResult.

(** ** The shared knowledge base *)

Module Knowledge.

(** [WELL_KNOWN_PORTS]: well-known port to canonical service name. *)
Definition WELL_KNOWN_PORTS : gmap Z string :=
  list_to_map
    [ (21, "FTP"); (22, "SSH"); (23, "TELNET"); (25, "SMTP"); (42, "WINS");
      (53, "DNS"); (80, "HTTP"); (81, "HTTP"); (110, "POP3"); (143, "IMAP");
      (161, "SNMP"); (443, "HTTPS"); (445, "SMB"); (465, "SMTP");
      (502, "MODBUS"); (587, "SMTP"); (993, "IMAP"); (995, "POP3");
      (1433, "MSSQL"); (3306, "MYSQL"); (3389, "RDP"); (5432, "POSTGRESQL");
      (5900, "VNC"); (6379, "REDIS"); (8000, "HTTP"); (8008, "HTTP");
      (8080, "HTTP"); (8081, "HTTP"); (8443, "HTTPS"); (8888, "HTTP");
      (9200, "HTTP"); (11211, "MEMCACHED"); (27017, "MONGODB") ]%Z.

End Knowledge.

(** ** The discovered-ports component: analysis, filter and sort *)

Module DiscoveredPorts.
Import JsString Js ProbeResult Knowledge.

(** Modelled from the spec: the [SEVERITY_RANK] table the component imports
    from [ProbeResultBlock] is not in the sources.  The specification gives
    its five keys and their order, CRITICAL < HIGH < MEDIUM < LOW < INFO
    (lower rank = more severe); the ranks are taken as 0 to 4, listed in
    the order [Object.entries] yields them. *)
Definition SEVERITY_RANK : list (string * Z) :=
  [ ("CRITICAL", 0); ("HIGH", 1); ("MEDIUM", 2); ("LOW", 3); ("INFO", 4) ]%Z.

(** [SEVERITY_RANK[name]], undefined ([None]) for any other name. *)
Fixpoint rankLookup (table : list (string * Z)) (name : string) : option Z :=
  match table with
  | [] => None
  | (k, r) :: rest => if String.eqb k name then Some r else rankLookup rest name
  end.

(** [SEVERITY_RANK.INFO] *)
Definition RANK_INFO : Z := default 4%Z (rankLookup SEVERITY_RANK "INFO").

(** [SEVERITY_RANK[sev] ?? SEVERITY_RANK.INFO] *)
Definition rankOf (sev : string) : Z :=
  default RANK_INFO (rankLookup SEVERITY_RANK sev).

(** [Math.min(...rs)] for a non-empty list. *)
Definition minOf (r : Z) (rs : list Z) : Z := fold_left Z.min rs r.

(** [topSeverityFromResult(result)], lines 31-35. *)
Definition topSeverityFromResult (result : JsVal) : Z :=
  match map (fun f => rankOf (severity f)) (findings (normalizeProbeResult result)) with
  | [] => RANK_INFO
  | r :: rs => minOf r rs
  end.

(** Line 37. *)
Definition SEVERITY_LEVELS : list string :=
  [ "CRITICAL"; "HIGH"; "MEDIUM"; "LOW"; "INFO" ].

(** [PROBE_TO_PROTOCOL], lines 71-84: the keys the object literal defines
    itself. *)
Definition PROBE_TO_PROTOCOL : gmap string string :=
  list_to_map
    [ ("_service_info_ftp", "FTP"); ("_service_info_ssh", "SSH");
      ("_service_info_telnet", "TELNET"); ("_service_info_smtp", "SMTP");
      ("_service_info_dns", "DNS"); ("_service_info_http", "HTTP");
      ("_service_info_https", "HTTPS"); ("_service_info_http_alt", "HTTP");
      ("_service_info_tls", "TLS"); ("_service_info_mssql", "MSSQL");
      ("_service_info_mysql", "MYSQL"); ("_service_info_rdp", "RDP");
      ("_service_info_postgresql", "POSTGRESQL"); ("_service_info_vnc", "VNC");
      ("_service_info_redis", "REDIS");
      ("_service_info_elasticsearch", "ELASTICSEARCH");
      ("_service_info_memcached", "MEMCACHED"); ("_service_info_mongodb", "MONGODB");
      ("_service_info_snmp", "SNMP"); ("_service_info_smb", "SMB");
      ("_service_info_modbus", "MODBUS"); ("_service_info_generic", "GENERIC");
      ("_service_info_mysql_creds", "MYSQL");
      ("_service_info_postgresql_creds", "POSTGRESQL") ].

(** The names of the members every object literal inherits from
    [Object.prototype]; a read [o[name]] with such a name yields the
    inherited member when [o] has no key of its own with that name. *)
Definition OBJECT_PROTOTYPE_MEMBERS : list string :=
  [ "constructor"; "hasOwnProperty"; "isPrototypeOf"; "propertyIsEnumerable";
    "toLocaleString"; "toString"; "valueOf";
    "__defineGetter__"; "__defineSetter__"; "__lookupGetter__";
    "__lookupSetter__"; "__proto__" ].

(** What the program holds as a protocol or as a service label: a string,
    or a member of [Object.prototype] that a read of [PROBE_TO_PROTOCOL]
    returned, named by its key.  Such a member is a function, or the
    prototype object itself for [__proto__]: it is truthy and is no
    string. *)
Inductive Protocol : Type :=
| Named (name : string)
| Inherited (key : string).

#[global] Instance Protocol_eq_dec : EqDecision Protocol.
Proof. solve_decision. Defined.

(** The read [PROBE_TO_PROTOCOL[probeName]], line 152; [None] is
    [undefined]. *)
Definition probeToProtocol (probeName : string) : option Protocol :=
  match PROBE_TO_PROTOCOL !! probeName with
  | Some proto => Some (Named proto)
  | None =>
      if existsb (String.eqb probeName) OBJECT_PROTOTYPE_MEMBERS
      then Some (Inherited probeName) else None
  end.

(** [expected !== detected] negated, for a string [expected]. *)
Definition sameProtocol (expected : string) (d : Protocol) : bool :=
  match d with
  | Named name => String.eqb expected name
  | Inherited _ => false
  end.

(** Modelled from the spec: the declaration of [AggregatedPortsData]
    ([../types]) is not in the sources; these are the three fields the
    component reads: the port list and, per port, the probe results of the
    service-detection and of the web-test category, keyed by probe name. *)
Record AggregatedPortsData : Type := {
  ports : list Z;
  services : gmap Z (list (string * JsVal));
  webTests : gmap Z (list (string * JsVal)) }.

(** [PortAnalysisResult], lines 91-99. *)
Record PortAnalysisResult : Type := {
  severityMap : gmap Z string;
  serviceLabel : gmap Z Protocol;
  detectedProtocol : gmap Z Protocol;
  findingCount : gmap Z Z;
  nonStandard : gset Z;
  owaspCounts : gmap string Z;
  owaspIdsPerPort : gmap Z (gset string) }.

(** The variables of one iteration of the loop over the ports (lines
    129-132) together with the one map both inner loops update. *)
Record PortState : Type := {
  bestSev : Z;
  totalFindings : Z;
  detected : option Protocol;
  portOwaspIds : gset string;
  counts : gmap string Z }.

(** Lines 141-146 (and 166-171): one finding of a probe result. *)
Definition findingUpdate (st : PortState) (f : ParsedFinding) : PortState :=
  let rank := rankOf (severity f) in
  let best := if (rank <? bestSev st)%Z then rank else bestSev st in
  match owasp_id f with
  | Some id =>
      if nonEmpty id then
        {| bestSev := best;
           totalFindings := totalFindings st;
           detected := detected st;
           portOwaspIds := {[ id ]} ∪ portOwaspIds st;
           counts := <[ id := (default 0 (counts st !! id) + 1)%Z ]> (counts st) |}
      else
        {| bestSev := best; totalFindings := totalFindings st;
           detected := detected st; portOwaspIds := portOwaspIds st;
           counts := counts st |}
  | None =>
      {| bestSev := best; totalFindings := totalFindings st;
         detected := detected st; portOwaspIds := portOwaspIds st;
         counts := counts st |}
  end.

Definition withBest (st : PortState) (b : Z) : PortState :=
  {| bestSev := b; totalFindings := totalFindings st;
     detected := detected st; portOwaspIds := portOwaspIds st;
     counts := counts st |}.

(** Lines 138-150 (and 163-175): one probe result. *)
Definition resultStep (st : PortState) (result : JsVal) : PortState :=
  let fs := findings (normalizeProbeResult result) in
  let st1 :=
    {| bestSev := bestSev st;
       totalFindings := (totalFindings st + Z.of_nat (length fs))%Z;
       detected := detected st; portOwaspIds := portOwaspIds st;
       counts := counts st |} in
  let st2 := fold_left findingUpdate fs st1 in
  match fs with
  | [] => withBest st2 (Z.min (bestSev st2) (topSeverityFromResult result))
  | _ :: _ => st2
  end.

(** Lines 152-153: what the read of the table gives for a probe name when
    it passes the test [proto && proto !== 'GENERIC' && proto !== 'TLS']. *)
Definition protocolOfProbe (probeName : string) : option Protocol :=
  match probeToProtocol probeName with
  | Some (Named proto) =>
      if nonEmpty proto && negb (String.eqb proto "GENERIC")
         && negb (String.eqb proto "TLS")
      then Some (Named proto) else None
  | Some (Inherited key) => Some (Inherited key)
  | None => None
  end.

(** Lines 137-156: one entry of the service probes of a port. *)
Definition serviceStep (st : PortState) (entry : string * JsVal) : PortState :=
  let st1 := resultStep st (snd entry) in
  match protocolOfProbe (fst entry), detected st1 with
  | Some proto, None =>
      {| bestSev := bestSev st1; totalFindings := totalFindings st1;
         detected := Some proto; portOwaspIds := portOwaspIds st1;
         counts := counts st1 |}
  | _, _ => st1
  end.

(** Lines 162-176: one entry of the web tests of a port. *)
Definition webStep (st : PortState) (entry : string * JsVal) : PortState :=
  resultStep st (snd entry).

(** [Object.entries(o)] of the record stored for a port, nothing when the
    map has no such port. *)
Definition entriesAt (m : gmap Z (list (string * JsVal))) (port : Z)
  : list (string * JsVal) :=
  default [] (m !! port).

(** Lines 129-177: both inner loops for one port. *)
Definition scanPort (ap : AggregatedPortsData) (cnt : gmap string Z) (port : Z)
  : PortState :=
  let st := {| bestSev := RANK_INFO; totalFindings := 0%Z; detected := None;
               portOwaspIds := ∅; counts := cnt |} in
  let st := fold_left serviceStep (entriesAt (services ap) port) st in
  fold_left webStep (entriesAt (webTests ap) port) st.

(** Line 180: the name of a rank, INFO when no key has it. *)
Definition sevLabelOf (best : Z) : string :=
  match List.find (fun e => (snd e =? best)%Z) SEVERITY_RANK with
  | Some e => fst e
  | None => "INFO"
  end.

(** Lines 205-210. *)
Definition isNonStandardPort (port : Z) (det : option Protocol) : bool :=
  match det with
  | Some d =>
      match WELL_KNOWN_PORTS !! port with
      | Some expected => negb (nonEmpty expected) || negb (sameProtocol expected d)
      | None => true
      end
  | None => false
  end.

(** Lines 128-211: the body of the loop over [aggregatedPorts.ports]. *)
Definition portStep (ap : AggregatedPortsData) (res : PortAnalysisResult) (port : Z)
  : PortAnalysisResult :=
  let st := scanPort ap (owaspCounts res) port in
  {| severityMap := <[ port := sevLabelOf (bestSev st) ]> (severityMap res);
     serviceLabel :=
       match WELL_KNOWN_PORTS !! port, detected st with
       | Some wk, det =>
           if nonEmpty wk then <[ port := Named wk ]> (serviceLabel res)
           else match det with
                | Some d => <[ port := d ]> (serviceLabel res)
                | None => serviceLabel res
                end
       | None, Some d => <[ port := d ]> (serviceLabel res)
       | None, None => serviceLabel res
       end;
     detectedProtocol :=
       match detected st with
       | Some d => <[ port := d ]> (detectedProtocol res)
       | None => detectedProtocol res
       end;
     findingCount := <[ port := totalFindings st ]> (findingCount res);
     nonStandard :=
       if isNonStandardPort port (detected st)
       then {[ port ]} ∪ nonStandard res else nonStandard res;
     owaspCounts := counts st;
     owaspIdsPerPort :=
       if decide (portOwaspIds st = ∅) then owaspIdsPerPort res
       else <[ port := portOwaspIds st ]> (owaspIdsPerPort res) |}.

Definition emptyAnalysis : PortAnalysisResult :=
  {| severityMap := ∅; serviceLabel := ∅; detectedProtocol := ∅;
     findingCount := ∅; nonStandard := ∅; owaspCounts := ∅;
     owaspIdsPerPort := ∅ |}.

(** [portAnalysis], lines 119-214. *)
Definition portAnalysis (ap : AggregatedPortsData) : PortAnalysisResult :=
  fold_left (portStep ap) (ports ap) emptyAnalysis.

(** The filter and sort state of the component, lines 110-114. *)
Inductive SortMode : Type := Numeric | Risk.

Record Query : Type := {
  searchQuery : string;
  severityFilter : gset string;
  categoryFilter : gset string;
  sortMode : SortMode;
  owaspFilter : gset string }.

(** [set.size > 0] *)
Definition nonEmptySet (s : gset string) : bool := negb (bool_decide (s = ∅)).

(** Lines 246-270: the callback of [aggregatedPorts.ports.filter]. *)
Definition keepPort (ap : AggregatedPortsData) (pa : PortAnalysisResult)
    (q : Query) (port : Z) : bool :=
  if nonEmpty (searchQuery q) && negb (includes (numToString port) (searchQuery q))
  then false
  else if nonEmptySet (severityFilter q)
          && negb (bool_decide (default "INFO" (severityMap pa !! port) ∈ severityFilter q))
  then false
  else if nonEmptySet (categoryFilter q)
          && negb (let hasService := bool_decide (is_Some (services ap !! port)) in
                   let hasWeb := bool_decide (is_Some (webTests ap !! port)) in
                   let hasData := hasService || hasWeb in
                   (bool_decide ("services" ∈ categoryFilter q) && hasService)
                   || (bool_decide ("web" ∈ categoryFilter q) && hasWeb)
                   || (bool_decide ("nodata" ∈ categoryFilter q) && negb hasData))
  then false
  else if nonEmptySet (owaspFilter q)
          && negb (match owaspIdsPerPort pa !! port with
                   | None => false
                   | Some portOwasp =>
                       existsb (fun id => bool_decide (id ∈ portOwasp))
                               (elements (owaspFilter q))
                   end)
  then false
  else true.

(** [filteredPorts], lines 244-272. *)
Definition filteredPorts (ap : AggregatedPortsData) (q : Query) : list Z :=
  List.filter (keepPort ap (portAnalysis ap) q) (ports ap).

(** Lines 277-282: the comparator of the risk sort.  A rank that is
    undefined makes the difference NaN, which [sort] reads as 0. *)
Definition riskCompare (pa : PortAnalysisResult) (a b : Z) : Z :=
  let sevA := rankLookup SEVERITY_RANK (default "INFO" (severityMap pa !! a)) in
  let sevB := rankLookup SEVERITY_RANK (default "INFO" (severityMap pa !! b)) in
  match sevA, sevB with
  | Some ra, Some rb => if negb (ra =? rb)%Z then (ra - rb)%Z else (a - b)%Z
  | None, None => (a - b)%Z
  | _, _ => 0%Z
  end.

(** [Array.prototype.sort(cmp)]: a stable sort; an element goes behind
    everything that does not compare greater than it. *)
Fixpoint sortInsert {A : Type} (cmp : A -> A -> Z) (x : A) (l : list A) : list A :=
  match l with
  | [] => [x]
  | y :: l' => if (0 <? cmp y x)%Z then x :: y :: l' else y :: sortInsert cmp x l'
  end.

Definition jsSort {A : Type} (cmp : A -> A -> Z) (l : list A) : list A :=
  fold_left (fun sorted x => sortInsert cmp x sorted) l [].

(** [sortedPorts], lines 275-283. *)
Definition sortedPorts (ap : AggregatedPortsData) (q : Query) : list Z :=
  match sortMode q with
  | Numeric => filteredPorts ap q
  | Risk => jsSort (riskCompare (portAnalysis ap)) (filteredPorts ap q)
  end.

End DiscoveredPorts.

(** ** Styling of a display line ([src/lib/utils/probeResult.ts], end) *)

Module SeverityLine.
Import JsString.

(** [severityLineClass(line)], lines 274-282. *)
Definition severityLineClass (line : string) : string :=
  if includes line "[CRITICAL]" then "text-red-500 font-bold"
  else if includes line "[HIGH]" then "text-orange-400 font-bold"
  else if includes line "[MEDIUM]" then "text-yellow-400"
  else if includes line "[LOW]" then "text-blue-300"
  else if includes line "[INFO]" then "text-slate-400"
  else if includes line "VULNERABILITY" then "text-amber-300 font-medium"
  else EmptyString.

End SeverityLine.

(** ** The probe result block ([ProbeResultBlock.tsx]) *)

Module ProbeResultBlock.
Import JsString Js ProbeResult SeverityLine.

Inductive Accent : Type := Amber | Rose.

(** Line 101. *)
Definition maxCollapsedLines : nat := 4.

(** Lines 104-106: the findings shown as cards. *)
Definition cardFindings (n : NormalizedProbeResult) : list ParsedFinding :=
  List.filter (fun f => String.eqb (severity f) "CRITICAL"
                        || String.eqb (severity f) "HIGH"
                        || String.eqb (severity f) "MEDIUM") (findings n).

(** Lines 107-109: the findings shown as plain lines. *)
Definition inlineFindings (n : NormalizedProbeResult) : list ParsedFinding :=
  List.filter (fun f => String.eqb (severity f) "LOW"
                        || String.eqb (severity f) "INFO") (findings n).

(** Line 112: the titles of the findings.  The program keeps them in a
    [Set]; only membership tests are made, so the list of titles, repeats
    included, stands for it. *)
Definition findingTitles (n : NormalizedProbeResult) : list string :=
  map title (findings n).

(** Lines 115-123: the lines that mention no finding title. *)
Definition infoLines (n : NormalizedProbeResult) : list string :=
  List.filter
    (fun line => negb (existsb (fun t => includes line t) (findingTitles n)))
    (lines n).

(** Lines 126-129. *)
Definition plainLines (n : NormalizedProbeResult) : list string :=
  map plainLabel (inlineFindings n) ++ infoLines n.

(** Line 131. *)
Definition shouldTruncate (n : NormalizedProbeResult) : bool :=
  (maxCollapsedLines <? length (plainLines n))%nat.

(** Lines 132-134. *)
Definition visibleLines (n : NormalizedProbeResult) (isExpanded : bool) : list string :=
  if shouldTruncate n && negb isExpanded
  then firstn maxCollapsedLines (plainLines n)
  else plainLines n.

(** Lines 192-199: the text of the button under the lines, when there is
    one. *)
Definition toggleLabel (n : NormalizedProbeResult) (isExpanded : bool) : option string :=
  if shouldTruncate n then
    Some (if isExpanded then "Show less"
          else ("+" ++ numToString (Z.of_nat (length (plainLines n))
                                    - Z.of_nat maxCollapsedLines)
                ++ " more lines")%string)
  else None.

(** Lines 136-144. *)
Definition containerClass (n : NormalizedProbeResult) (accent : Accent) : string :=
  if hasVulnerability n then
    match accent with
    | Amber => "bg-amber-900/30 border border-amber-500/30"
    | Rose => "bg-rose-900/30 border border-rose-500/30"
    end
  else if hasError n then "bg-slate-800/50 border border-white/5"
  else "bg-slate-900/50 border border-white/5".

(** Lines 146-150. *)
Definition nameClass (n : NormalizedProbeResult) (accent : Accent) : string :=
  if hasVulnerability n then
    match accent with
    | Amber => "text-amber-300"
    | Rose => "text-rose-300"
    end
  else if hasError n then "text-slate-500"
  else "text-slate-300".

(** Lines 172-183: the class of a visible line, that of its severity
    marker when it carries one. *)
Definition lineClass (n : NormalizedProbeResult) (line : string) : string :=
  let sevClass := severityLineClass line in
  if nonEmpty sevClass then sevClass
  else if hasError n then "text-slate-500"
  else "text-slate-400".

(** What the block shows: the cards, the visible plain lines, each with
    its class, and the button. *)
Record BlockView : Type := {
  view_cards : list ParsedFinding;
  view_lines : list (string * string);
  view_toggle : option string;
  view_container : string;
  view_name : string }.

(** [ProbeResultBlock], lines 88-202: nothing ([None]) when the normalised
    result has neither lines nor findings, the view otherwise. *)
Definition probeResultBlock (result : JsVal) (isExpanded : bool) (accent : Accent)
  : option BlockView :=
  let normalized := normalizeProbeResult result in
  match lines normalized, findings normalized with
  | [], [] => None
  | _, _ =>
      Some {| view_cards := cardFindings normalized;
              view_lines :=
                map (fun line => (line, lineClass normalized line))
                    (visibleLines normalized isExpanded);
              view_toggle := toggleLabel normalized isExpanded;
              view_container := containerClass normalized accent;
              view_name := nameClass normalized accent |}
  end.

End ProbeResultBlock.

(** ** The discovered-ports component: counts, toggles and display *)

Module PortsPanel.
Import JsString Js ProbeResult Knowledge DiscoveredPorts.

(** [sortByTopSeverity(entries)], lines 22-28. *)
Definition sortByTopSeverity (entries : list (string * JsVal)) : list (string * JsVal) :=
  jsSort (fun a b => (topSeverityFromResult (snd a) - topSeverityFromResult (snd b))%Z)
         entries.

(** A counter of a record of numbers: a number, or NaN once a key that is
    not there was incremented. *)
Inductive JsCount : Type := Count (n : Z) | NaN.

(** [counts[sev]++] *)
Definition bump (sev : string) (counts : gmap string JsCount) : gmap string JsCount :=
  <[ sev := match counts !! sev with
            | Some (Count n) => Count (n + 1)
            | _ => NaN
            end ]> counts.

(** [severityCounts], lines 217-221.  The loop runs over the values of the
    severity map; the increments commute, so the order of the map does not
    matter. *)
Definition severityCounts (pa : PortAnalysisResult) : gmap string JsCount :=
  map_fold (fun _ sev counts => bump sev counts)
           (list_to_map [ ("CRITICAL", Count 0); ("HIGH", Count 0);
                          ("MEDIUM", Count 0); ("LOW", Count 0);
                          ("INFO", Count 0) ])
           (severityMap pa).

Record CategoryCounts : Type := {
  cc_services : Z;
  cc_web : Z;
  cc_nodata : Z }.

(** Lines 229-233: the body of the loop of [categoryCounts]. *)
Definition categoryStep (ap : AggregatedPortsData) (c : CategoryCounts) (port : Z)
  : CategoryCounts :=
  let hasService := bool_decide (is_Some (services ap !! port)) in
  let hasWeb := bool_decide (is_Some (webTests ap !! port)) in
  {| cc_services := if hasService then (cc_services c + 1)%Z else cc_services c;
     cc_web := if hasWeb then (cc_web c + 1)%Z else cc_web c;
     cc_nodata := if negb hasService && negb hasWeb
                  then (cc_nodata c + 1)%Z else cc_nodata c |}.

(** [categoryCounts], lines 224-236. *)
Definition categoryCounts (ap : AggregatedPortsData) : CategoryCounts :=
  fold_left (categoryStep ap) (ports ap)
            {| cc_services := 0; cc_web := 0; cc_nodata := 0 |}.

(** [isFiltered], line 285. *)
Definition isFiltered (q : Query) : bool :=
  nonEmpty (searchQuery q) || nonEmptySet (severityFilter q)
  || nonEmptySet (categoryFilter q) || nonEmptySet (owaspFilter q).

(** The update of [toggleSeverity], [toggleCategory] and [toggleOwasp],
    lines 288-296: a copy of the set without the element when it is there,
    with it otherwise. *)
Definition toggle (x : string) (prev : gset string) : gset string :=
  if bool_decide (x ∈ prev) then prev ∖ {[ x ]} else {[ x ]} ∪ prev.

Definition toggleSeverity (sev : string) (q : Query) : Query :=
  {| searchQuery := searchQuery q; severityFilter := toggle sev (severityFilter q);
     categoryFilter := categoryFilter q; sortMode := sortMode q;
     owaspFilter := owaspFilter q |}.

Definition toggleCategory (cat : string) (q : Query) : Query :=
  {| searchQuery := searchQuery q; severityFilter := severityFilter q;
     categoryFilter := toggle cat (categoryFilter q); sortMode := sortMode q;
     owaspFilter := owaspFilter q |}.

Definition toggleOwasp (id : string) (q : Query) : Query :=
  {| searchQuery := searchQuery q; severityFilter := severityFilter q;
     categoryFilter := categoryFilter q; sortMode := sortMode q;
     owaspFilter := toggle id (owaspFilter q) |}.

(** [clearAllFilters], lines 323-328. *)
Definition clearAllFilters (q : Query) : Query :=
  {| searchQuery := EmptyString; severityFilter := ∅; categoryFilter := ∅;
     sortMode := sortMode q; owaspFilter := ∅ |}.

End PortsPanel.

(** ** The risk score badge ([RiskScoreBadge.tsx]) *)

Module RiskScoreBadge.

Record RiskLevel : Type := {
  label : string;
  color : string;
  bg : string;
  border : string;
  ring : string }.

(** [getRiskLevel(score)], lines 11-25.  A score is a finite number, here
    a rational. *)
Definition getRiskLevel (score : Q) : RiskLevel :=
  if Qle_bool score (inject_Z 20) then
    {| label := "Low Risk"; color := "text-emerald-400"; bg := "bg-emerald-500/10";
       border := "border-emerald-500/30"; ring := "stroke-emerald-400" |}
  else if Qle_bool score (inject_Z 40) then
    {| label := "Moderate Risk"; color := "text-yellow-400"; bg := "bg-yellow-500/10";
       border := "border-yellow-500/30"; ring := "stroke-yellow-400" |}
  else if Qle_bool score (inject_Z 60) then
    {| label := "Elevated Risk"; color := "text-amber-400"; bg := "bg-amber-500/10";
       border := "border-amber-500/30"; ring := "stroke-amber-400" |}
  else if Qle_bool score (inject_Z 80) then
    {| label := "High Risk"; color := "text-red-400"; bg := "bg-red-500/10";
       border := "border-red-500/30"; ring := "stroke-red-400" |}
  else
    {| label := "Critical Risk"; color := "text-red-300"; bg := "bg-red-900/20";
       border := "border-red-700/40"; ring := "stroke-red-400" |}.

(** The keys of [RISK_BAND_DESCRIPTIONS] of the knowledge base, in the
    order of the table. *)
Definition RISK_BANDS : list string :=
  [ "Low Risk"; "Moderate Risk"; "Elevated Risk"; "High Risk"; "Critical Risk" ].

(** [RiskTooltipContent], lines 50-54: for each band of the table, whether
    it is shown as the current one ([band === currentLabel]). *)
Definition highlighted (currentLabel : string) : list bool :=
  map (fun band => String.eqb band currentLabel) RISK_BANDS.

End RiskScoreBadge.

(** ** Short texts: feature names and node addresses *)

Module ShortTexts.
Import JsString.

(** [s.slice(0, n)] *)
Fixpoint takeStr (n : nat) (s : string) : string :=
  match n, s with
  | S n', String c s' => String c (takeStr n' s')
  | _, _ => EmptyString
  end.

(** [s.slice(n)] for [n >= 0] *)
Fixpoint dropStr (n : nat) (s : string) : string :=
  match n, s with
  | S n', String _ s' => dropStr n' s'
  | _, _ => s
  end.

(** [s.slice(-n)]: the last [n] characters, all of [s] when it is shorter. *)
Definition lastStr (n : nat) (s : string) : string :=
  dropStr (String.length s - n) s.

(** [truncateAddress(addr)], [DetailedWorkerReports.tsx] lines 42-43. *)
Definition truncateAddress (addr : string) : string :=
  if (20 <? String.length addr)%nat
  then takeStr 8 addr ++ "..." ++ lastStr 8 addr
  else addr.

(** [shortenActor(actor)] of the job timeline. *)
Definition shortenActor (actor : string) : string :=
  if (String.length actor <=? 24)%nat then actor
  else takeStr 12 actor ++ "..." ++ lastStr 8 actor.

Definition UNDERSCORE : ascii := "095"%char.
Definition SPACE : ascii := "032"%char.

(** [s.replace(/_/g, ' ')] *)
Fixpoint underscoresToSpaces (s : string) : string :=
  match s with
  | EmptyString => EmptyString
  | String c s' =>
      String (if Ascii.eqb c UNDERSCORE then SPACE else c) (underscoresToSpaces s')
  end.

(** [s.replace(/^_/, '')] *)
Definition dropLeadingUnderscore (s : string) : string :=
  match s with
  | String c s' => if Ascii.eqb c UNDERSCORE then s' else s
  | EmptyString => EmptyString
  end.

(** The text of a feature pill, [EnabledFeatures.tsx] line 28. *)
Definition featureText (feature : string) : string :=
  underscoresToSpaces (dropLeadingUnderscore feature).

End ShortTexts.

(** ** Notions used to state the properties *)

Module Notions.
Import JsString Js ProbeResult Knowledge DiscoveredPorts.

(** No line feed occurs in [t]. *)
Fixpoint noLF (t : string) : bool :=
  match t with
  | EmptyString => true
  | String b t' => negb (Ascii.eqb b LF) && noLF t'
  end.

(** Every character of [s] is white space. *)
Fixpoint allWhite (s : string) : bool :=
  match s with
  | EmptyString => true
  | String c s' => isWhite c && allWhite s'
  end.

(** [t] occurs in [s] as a substring. *)
Definition contains (s t : string) : Prop :=
  exists pre post, s = (pre ++ t ++ post)%string.

(** [s] begins with [t]. *)
Definition beginsWith (s t : string) : Prop :=
  exists post, s = (t ++ post)%string.

(** The input is read as free text: it is not absent and not a structured
    record, so the program works on [String(result)]. *)
Definition freeText (result : JsVal) : Prop :=
  match result with
  | JUndefined | JNull | JObj _ => False
  | _ => True
  end.



(** [keeps step]: the step only appends display lines. *)
Definition keeps (step : Acc -> Acc) : Prop :=
  forall acc, acc_findings (step acc) = acc_findings acc
              /\ acc_vulns (step acc) = acc_vulns acc.



(** A finding whose severity is none of the five levels. *)
Definition oddSeverityInput : JsVal :=
  JObj [ ("findings",
          JArr [JObj [("severity", JStr "severe");
                      ("title", JStr "Odd reply")]]) ].

(** The probe results attached to a port: those of the service-detection
    category, then those of the web-test category. *)
Definition probeResults (ap : AggregatedPortsData) (port : Z) : list JsVal :=
  map snd (entriesAt (services ap) port) ++ map snd (entriesAt (webTests ap) port).

Definition findingsOf (results : list JsVal) : list ParsedFinding :=
  concat (map (fun r => findings (normalizeProbeResult r)) results).

(** All structured findings of all probe results attached to a port. *)
Definition allFindings (ap : AggregatedPortsData) (port : Z) : list ParsedFinding :=
  findingsOf (probeResults ap port).

Definition ranksOf (fs : list ParsedFinding) : list Z :=
  map (fun f => rankOf (severity f)) fs.

(** The minimum severity rank over a list of findings, INFO when there
    is none. *)
Definition minRank (fs : list ParsedFinding) : Z :=
  fold_left Z.min (ranksOf fs) RANK_INFO.

(** The dominant severity the analysis records for a port. *)
Definition dominantSeverity (ap : AggregatedPortsData) (port : Z) : string :=
  default "INFO" (severityMap (portAnalysis ap) !! port).

(** The canonical protocol of a probe name: what the name maps to in the
    probe-to-protocol table, the catch-all GENERIC and TLS left out. *)
Definition canonicalProtocol (probeName : string) : option Protocol :=
  match probeToProtocol probeName with
  | Some proto =>
      if decide (proto = Named "GENERIC" \/ proto = Named "TLS")
      then None else Some proto
  | None => None
  end.

(** The first probe name, in iteration order, with a canonical protocol. *)
Fixpoint firstProtocol (names : list string) : option Protocol :=
  match names with
  | [] => None
  | name :: rest =>
      match canonicalProtocol name with
      | Some proto => Some proto
      | None => firstProtocol rest
      end
  end.

(** The protocol inferred for a port from the names of its service probes. *)
Definition inferredProtocol (ap : AggregatedPortsData) (port : Z) : option Protocol :=
  firstProtocol (map fst (entriesAt (services ap) port)).

(** A probe result with one structured finding of the given severity. *)
Definition oneFinding (sev title : string) : JsVal :=
  JObj [ ("findings",
          JArr [JObj [("severity", JStr sev); ("title", JStr title)]]) ].

(** A port with one service result of severity MEDIUM and one web result
    of severity CRITICAL. *)
Definition mixedPort : AggregatedPortsData :=
  {| ports := [8443%Z];
     services :=
       {[ 8443%Z := [("_service_info_https", oneFinding "MEDIUM" "Weak cipher")] ]};
     webTests :=
       {[ 8443%Z := [("_web_test_sql_injection", oneFinding "CRITICAL" "SQL injection")] ]} |}.

(** SSH answering on port 2222 and on port 22. *)
Definition sshPorts : AggregatedPortsData :=
  {| ports := [22%Z; 2222%Z];
     services :=
       {[ 22%Z := [("_service_info_generic", JStr "SSH-2.0-OpenSSH_9.0");
                   ("_service_info_ssh", JObj [("banner", JStr "OpenSSH 9.0p1")])];
          2222%Z := [("_service_info_generic", JStr "SSH-2.0-OpenSSH_9.0");
                     ("_service_info_ssh", JObj [("banner", JStr "OpenSSH 9.0p1")])] ]};
     webTests := ∅ |}.

(** A legacy probe text that reports a vulnerability, on an FTP port. *)
Definition legacyVulnText : JsVal :=
  JStr "VULNERABILITY: anonymous login allowed".

Definition legacyPort : AggregatedPortsData :=
  {| ports := [21%Z];
     services := {[ 21%Z := [("_service_info_ftp", legacyVulnText)] ]};
     webTests := ∅ |}.

(** The scenario of the specification: OpenSSH on port 22 with one finding
    of severity "high". *)
Definition opensshPort : AggregatedPortsData :=
  {| ports := [22%Z];
     services :=
       {[ 22%Z := [("_service_info_ssh",
                    JObj [ ("banner", JStr "OpenSSH 9.0p1");
                           ("findings",
                            JArr [JObj [("severity", JStr "high");
                                        ("title", JStr "Weak MAC algorithm")]]) ])] ]};
     webTests := ∅ |}.

(** Three ports of dominant severity CRITICAL, HIGH and INFO. *)
Definition threePorts : AggregatedPortsData :=
  {| ports := [21%Z; 80%Z; 8080%Z];
     services :=
       {[ 21%Z := [("_service_info_ftp", oneFinding "HIGH" "Anonymous login")];
          80%Z := [("_service_info_http", JStr "nginx 1.24.0")];
          8080%Z := [("_service_info_http_alt", oneFinding "critical" "Default credentials")] ]};
     webTests := ∅ |}.

Definition criticalOnly (mode : SortMode) : Query :=
  {| searchQuery := EmptyString; severityFilter := {[ "CRITICAL" ]};
     categoryFilter := ∅; sortMode := mode; owaspFilter := ∅ |}.

Definition freshPortState : PortState :=
  {| bestSev := RANK_INFO; totalFindings := 0%Z; detected := None;
     portOwaspIds := ∅; counts := ∅ |}.

(** The four predicates of the filter, in the words of the specification. *)

(** Text: the query is empty or a substring of the decimal text of the
    port number. *)
Definition textPredicate (q : Query) (port : Z) : Prop :=
  searchQuery q = EmptyString \/ contains (numToString port) (searchQuery q).

(** Severity: no severity is requested or the dominant severity of the
    port is one of those requested. *)
Definition severityPredicate (ap : AggregatedPortsData) (q : Query) (port : Z) : Prop :=
  severityFilter q = ∅ \/ dominantSeverity ap port ∈ severityFilter q.

Definition hasServiceData (ap : AggregatedPortsData) (port : Z) : Prop :=
  is_Some (services ap !! port).

Definition hasWebTestData (ap : AggregatedPortsData) (port : Z) : Prop :=
  is_Some (webTests ap !! port).

(** Category: no category is requested or one of the requested categories
    holds for the port. *)
Definition categoryPredicate (ap : AggregatedPortsData) (q : Query) (port : Z) : Prop :=
  categoryFilter q = ∅
  \/ ("services" ∈ categoryFilter q /\ hasServiceData ap port)
  \/ ("web" ∈ categoryFilter q /\ hasWebTestData ap port)
  \/ ("nodata" ∈ categoryFilter q
      /\ ~ hasServiceData ap port /\ ~ hasWebTestData ap port).

(** The compliance identifier a finding carries, if any. *)
Definition carriedId (f : ParsedFinding) : option string :=
  match owasp_id f with
  | Some id => if nonEmpty id then Some id else None
  | None => None
  end.

(** The distinct compliance identifiers carried by the findings of a port. *)
Definition idsOf (ap : AggregatedPortsData) (port : Z) : gset string :=
  list_to_set (omap carriedId (allFindings ap port)).

(** The compliance identifiers the analysis records for a port. *)
Definition complianceIds (ap : AggregatedPortsData) (port : Z) : gset string :=
  default ∅ (owaspIdsPerPort (portAnalysis ap) !! port).

(** Compliance: no identifier is requested or the identifiers of the port
    meet those requested. *)
Definition compliancePredicate (ap : AggregatedPortsData) (q : Query) (port : Z) : Prop :=
  owaspFilter q = ∅
  \/ exists id, id ∈ owaspFilter q /\ id ∈ complianceIds ap port.

Definition emptyQuery (mode : SortMode) : Query :=
  {| searchQuery := EmptyString; severityFilter := ∅; categoryFilter := ∅;
     sortMode := mode; owaspFilter := ∅ |}.



(** The order a comparator stands for: [a] may come before [b]. *)
Definition cmpLe {A : Type} (cmp : A -> A -> Z) (a b : A) : Prop :=
  (cmp a b <= 0)%Z.

(** A pass whose port list is not in ascending order. *)
Definition unsortedPorts : AggregatedPortsData :=
  {| ports := [443%Z; 22%Z]; services := ∅; webTests := ∅ |}.

(** A port whose only service probe bears the name of a member of
    [Object.prototype]. *)
Definition inheritedNamePort : AggregatedPortsData :=
  {| ports := [2222%Z];
     services := {[ 2222%Z := [("constructor", JStr "SSH-2.0-OpenSSH_9.0")] ]};
     webTests := ∅ |}.

End Notions.

(** ** Notions used to state further properties *)

Module MoreNotions.
Import JsString Js ProbeResult Knowledge DiscoveredPorts Notions.
Import SeverityLine ProbeResultBlock PortsPanel ShortTexts.

(** The fields the structured branch knows but never shows. *)
Definition silentKeys : list string :=
  [ "starttls"; "open_relay"; "vrfy_enabled"; "expn_enabled";
    "protocol_byte"; "security_types"; "vpn_endpoints" ].

(** An entry of [obj.findings] the findings loop parses: an object (or an
    array) that is not null. *)
Definition parsedEntry (f : JsVal) : bool :=
  typeofObject f && negb (isNull f).

(** The entries of [obj.findings] when it is a non-empty array. *)
Definition findingEntries (obj : list (string * JsVal)) : list JsVal :=
  match nonEmptyArray (get obj "findings") with
  | Some fs => fs
  | None => []
  end.

(** The line the findings loop renders for a parsed finding. *)
Definition renderedLine (p : ParsedFinding) : string :=
  if isVulnSeverity (severity p) then vulnLabel p else plainLabel p.

(** The text shown for a field that has no renderer of its own. *)
Definition valueText (val : JsVal) : string :=
  if typeofObject val then jsonStringify val else toString val.

(** The later state only has more lines and vulnerabilities, and the same
    findings. *)
Definition grows (acc acc' : Acc) : Prop :=
  (forall l, In l (acc_lines acc) -> In l (acc_lines acc'))
  /\ (forall v, In v (acc_vulns acc) -> In v (acc_vulns acc'))
  /\ acc_findings acc' = acc_findings acc.

(** Every recorded vulnerability is mentioned by a line that carries the
    vulnerability marker. *)
Definition vulnsShown (ls vs : list string) : Prop :=
  forall v, In v vs ->
            exists line, In line ls /\ includes line v = true
                         /\ includes line "VULNERABILITY" = true.

Definition accShown (acc : Acc) : Prop :=
  vulnsShown (acc_lines acc) (acc_vulns acc).

(** Every parsed finding has its line, and its label among the
    vulnerabilities when it is of vulnerability grade. *)
Definition findingsRendered (acc : Acc) : Prop :=
  forall p, In p (acc_findings acc) ->
            In (renderedLine p) (acc_lines acc)
            /\ (isVulnSeverity (severity p) = true ->
                In (vulnLabel p) (acc_vulns acc)).

(** The class of each of the five levels. *)
Definition levelClass (sev : string) : string :=
  severityLineClass ("[" ++ sev ++ "]").

(** The compliance identifier [id] is carried by the finding. *)
Definition carries (id : string) (f : ParsedFinding) : bool :=
  match carriedId f with
  | Some i => String.eqb i id
  | None => false
  end.

(** The number of findings that carry the compliance identifier [id]. *)
Definition carriers (id : string) (fs : list ParsedFinding) : Z :=
  Z.of_nat (length (List.filter (carries id) fs)).

(** Every count kept in the map is at least one. *)
Definition countsPositive (counts : gmap string Z) : Prop :=
  forall id n, counts !! id = Some n -> (1 <= n)%Z.

(** All findings of the pass, port after port in the order of the port
    list (a port listed twice counts twice). *)
Definition passFindings (ap : AggregatedPortsData) : list ParsedFinding :=
  concat (map (allFindings ap) (ports ap)).

(** The number of ports of the severity map with the given severity. *)
Definition portsOfSeverity (pa : PortAnalysisResult) (sev : string) : nat :=
  size (filter (fun kv : Z * string => kv.2 = sev) (severityMap pa)).

(** A query that asks for one severity only. *)
Definition onlySeverity (sev : string) (mode : SortMode) : Query :=
  {| searchQuery := EmptyString; severityFilter := {[ sev ]};
     categoryFilter := ∅; sortMode := mode; owaspFilter := ∅ |}.

(** A query that asks for one category only. *)
Definition onlyCategory (cat : string) (mode : SortMode) : Query :=
  {| searchQuery := EmptyString; severityFilter := ∅;
     categoryFilter := {[ cat ]}; sortMode := mode; owaspFilter := ∅ |}.

(** The comparator of a sort by a numeric key. *)
Definition byKey {A : Type} (key : A -> Z) (a b : A) : Z := (key a - key b)%Z.

(** The elements of a list with a given key, in the order of the list. *)
Definition withKey {A : Type} (key : A -> Z) (z : Z) (l : list A) : list A :=
  List.filter (fun a => (key a =? z)%Z) l.

(** The top severity of the result of a probe entry. *)
Definition entryRank (e : string * JsVal) : Z := topSeverityFromResult (snd e).

(** The position of a band in the table of bands. *)
Definition bandIndex (band : string) : nat :=
  if String.eqb band "Low Risk" then 0
  else if String.eqb band "Moderate Risk" then 1
  else if String.eqb band "Elevated Risk" then 2
  else if String.eqb band "High Risk" then 3
  else 4.

(** A structured result that only holds fields without renderer. *)
Definition smtpFlags : list (string * JsVal) :=
  [ ("starttls", JBool true); ("open_relay", JBool false);
    ("vrfy_enabled", JBool true) ].

(** A structured result with a field the normaliser does not know. *)
Definition customField : list (string * JsVal) :=
  [ ("banner", JStr "220 mail"); ("queue_depth", JNum 17) ].

(** Elasticsearch answering on its usual port. *)
Definition elasticPort : AggregatedPortsData :=
  {| ports := [9200%Z];
     services :=
       {[ 9200%Z := [("_service_info_elasticsearch",
                      JObj [("version", JStr "8.11.0")])] ]};
     webTests := ∅ |}.

(** A pass with three distinct ports, two with service data, one with web
    data as well, one with no data. *)
Definition smallPass : AggregatedPortsData :=
  {| ports := [22%Z; 80%Z; 9000%Z];
     services :=
       {[ 22%Z := [("_service_info_ssh", oneFinding "HIGH" "Weak MAC")];
          80%Z := [("_service_info_http", JStr "nginx")] ]};
     webTests :=
       {[ 80%Z := [("_web_test_xss", oneFinding "medium" "Reflected XSS")] ]} |}.

(** The markers [severityLineClass] looks for in a line. *)
Definition LINE_MARKERS : list string :=
  [ "[CRITICAL]"; "[HIGH]"; "[MEDIUM]"; "[LOW]"; "[INFO]"; "VULNERABILITY" ].

End MoreNotions.

(** * Properties *)

Import JsString Js ProbeResult Knowledge DiscoveredPorts Notions.

(** ** Substrings *)

Section Substrings.

Lemma append_nil (s : string) : (EmptyString ++ s)%string = s.
Proof. reflexivity. Qed.

Lemma append_cons (a : ascii) (s t : string) :
  (String a s ++ t)%string = String a (s ++ t).
Proof. reflexivity. Qed.

Lemma append_nil_r (s : string) : (s ++ EmptyString)%string = s.
Proof.
  induction s as [|a s IH]; [reflexivity|].
  rewrite append_cons, IH. reflexivity.
Qed.

Lemma append_assoc (a b c : string) :
  ((a ++ b) ++ c = a ++ (b ++ c))%string.
Proof.
  induction a as [|x a IH]; [reflexivity|].
  rewrite !append_cons, IH. reflexivity.
Qed.

Lemma startsWith_app (t post : string) : startsWith (t ++ post) t = true.
Proof.
  induction t as [|b t IH]; [destruct post; reflexivity|].
  rewrite append_cons. simpl. rewrite Ascii.eqb_refl. exact IH.
Qed.

Lemma startsWith_split (s t : string) :
  startsWith s t = true -> exists post, s = (t ++ post)%string.
Proof.
  revert s. induction t as [|b t IH]; intros s H.
  - exists s. reflexivity.
  - destruct s as [|a s]; [discriminate|]. simpl in H.
    apply andb_prop in H. destruct H as [Hab Hst].
    apply Ascii.eqb_eq in Hab. subst b.
    destruct (IH _ Hst) as [post ->]. exists post. reflexivity.
Qed.

(** [startsWith] is "begins with". *)
Lemma startsWith_iff (s t : string) :
  startsWith s t = true <-> exists post, s = (t ++ post)%string.
Proof.
  split; [apply startsWith_split|].
  intros [post ->]. apply startsWith_app.
Qed.

Lemma includes_unfold (s t : string) :
  includes s t =
  startsWith s t || match s with
                    | EmptyString => false
                    | String _ s' => includes s' t
                    end.
Proof. destruct s; reflexivity. Qed.

(** [includes] is "occurs as a substring". *)
Lemma includes_iff (s t : string) :
  includes s t = true <-> exists pre post, s = (pre ++ t ++ post)%string.
Proof.
  split.
  - induction s as [|a s IH]; rewrite includes_unfold; intros H.
    + rewrite orb_false_r in H. apply startsWith_split in H.
      destruct H as [post ->]. exists EmptyString, post. reflexivity.
    + apply orb_prop in H. destruct H as [H|H].
      * apply startsWith_split in H. destruct H as [post ->].
        exists EmptyString, post. reflexivity.
      * destruct (IH H) as (pre & post & ->).
        exists (String a pre), post. reflexivity.
  - intros (pre & post & ->). induction pre as [|a pre IH].
    + rewrite append_nil, includes_unfold, startsWith_app. reflexivity.
    + rewrite append_cons, includes_unfold, IH. apply orb_true_r.
Qed.

Lemma includes_refl (s : string) : includes s s = true.
Proof.
  apply includes_iff. exists EmptyString, EmptyString.
  rewrite append_nil, append_nil_r. reflexivity.
Qed.

Lemma includes_trans (s t u : string) :
  includes s t = true -> includes t u = true -> includes s u = true.
Proof.
  rewrite !includes_iff.
  intros (p1 & q1 & ->) (p2 & q2 & ->).
  exists (p1 ++ p2)%string, (q2 ++ q1)%string.
  rewrite !append_assoc. reflexivity.
Qed.

Lemma includes_prefixed (p s : string) : includes (p ++ s) s = true.
Proof.
  apply includes_iff. exists p, EmptyString.
  rewrite append_nil_r. reflexivity.
Qed.

End Substrings.

(** ** Lines of a text *)

Section Lines.

Lemma startsWith_cons (a b : ascii) (s t : string) :
  startsWith (String a s) (String b t) = Ascii.eqb a b && startsWith s t.
Proof. reflexivity. Qed.

Lemma startsWith_nil_cons (b : ascii) (t : string) :
  startsWith EmptyString (String b t) = false.
Proof. reflexivity. Qed.

Lemma splitLines_step (c : ascii) (s : string) :
  splitLines (String c s) =
  if Ascii.eqb c LF then EmptyString :: splitLines s
  else match splitLines s with
       | [] => [String c EmptyString]
       | l :: ls => String c l :: ls
       end.
Proof. reflexivity. Qed.

Lemma splitLines_cons (s : string) :
  exists l ls, splitLines s = l :: ls.
Proof.
  induction s as [|c s (l & ls & IH)]; [exists EmptyString, []; reflexivity|].
  rewrite splitLines_step, IH.
  destruct (Ascii.eqb c LF); eauto.
Qed.

(** A text without line feed begins [s] exactly when it begins the first
    line of [s]. *)
Lemma startsWith_first_line (t s : string) :
  noLF t = true ->
  startsWith s t = startsWith (hd EmptyString (splitLines s)) t.
Proof.
  revert s. induction t as [|b t IH]; intros s Ht; [reflexivity|].
  cbn [noLF] in Ht. apply andb_prop in Ht. destruct Ht as [Hb Ht].
  apply negb_true_iff in Hb.
  destruct s as [|a s]; [reflexivity|].
  rewrite splitLines_step, startsWith_cons.
  destruct (Ascii.eqb a LF) eqn:Ha.
  - apply Ascii.eqb_eq in Ha. subst a. cbn [hd].
    rewrite startsWith_nil_cons, Ascii.eqb_sym, Hb. reflexivity.
  - destruct (splitLines_cons s) as (l & ls & Hs).
    rewrite (IH s Ht), Hs. cbn [hd]. rewrite startsWith_cons. reflexivity.
Qed.

(** A non-empty text without line feed occurs in [s] exactly when it
    occurs in one of the lines of [s]. *)
Lemma includes_splitLines (b : ascii) (t s : string) :
  noLF (String b t) = true ->
  includes s (String b t) =
  existsb (fun l => includes l (String b t)) (splitLines s).
Proof.
  intros Ht. induction s as [|a s IH].
  - cbn [splitLines existsb]. rewrite orb_false_r. reflexivity.
  - rewrite includes_unfold, IH.
    rewrite (startsWith_first_line _ (String a s) Ht).
    rewrite splitLines_step.
    destruct (Ascii.eqb a LF) eqn:Ha.
    + reflexivity.
    + destruct (splitLines_cons s) as (l & ls & Hs). rewrite Hs.
      cbn [hd existsb].
      rewrite (includes_unfold (String a l)). rewrite orb_assoc. reflexivity.
Qed.

Lemma trimEnd_empty (s : string) :
  trimEnd s = EmptyString -> allWhite s = true.
Proof.
  induction s as [|c s IH]; [reflexivity|]. simpl.
  destruct (trimEnd s); [|discriminate].
  destruct (isWhite c); [|discriminate]. intros _. apply IH. reflexivity.
Qed.

Lemma trimStart_allWhite (s : string) :
  allWhite (trimStart s) = true -> allWhite s = true.
Proof.
  induction s as [|c s IH]; [reflexivity|]. simpl.
  destruct (isWhite c) eqn:Hc; [exact IH|].
  simpl. rewrite Hc. discriminate.
Qed.

Lemma allWhite_includes (b : ascii) (t s : string) :
  isWhite b = false -> allWhite s = true -> includes s (String b t) = false.
Proof.
  intros Hb. induction s as [|a s IH]; [reflexivity|].
  simpl allWhite. intros H. apply andb_prop in H. destruct H as [Ha Hs].
  rewrite includes_unfold, (IH Hs). simpl.
  destruct (Ascii.eqb a b) eqn:Hab; [|reflexivity].
  apply Ascii.eqb_eq in Hab. congruence.
Qed.

(** A line that holds a visible character survives the blank-line filter
    [l => l.trim()]. *)
Lemma includes_not_blank (b : ascii) (t l : string) :
  isWhite b = false ->
  includes l (String b t) = true -> nonEmpty (trim l) = true.
Proof.
  intros Hb Hl. unfold trim.
  destruct (trimEnd (trimStart l)) eqn:E; [|reflexivity].
  apply trimEnd_empty, trimStart_allWhite in E.
  rewrite (allWhite_includes b t l Hb E) in Hl. discriminate.
Qed.

Lemma existsb_filter_implied {A : Type} (f g : A -> bool) (l : list A) :
  (forall x, f x = true -> g x = true) ->
  existsb f (List.filter g l) = existsb f l.
Proof.
  intros Hfg. induction l as [|x l IH]; [reflexivity|]. simpl.
  destruct (g x) eqn:Hg; simpl; rewrite IH; [reflexivity|].
  destruct (f x) eqn:Hf; [|reflexivity].
  rewrite (Hfg x Hf) in Hg. discriminate.
Qed.

Lemma filter_nonempty_existsb {A : Type} (f : A -> bool) (l : list A) :
  (0 <? length (List.filter f l))%nat = existsb f l.
Proof.
  induction l as [|x l IH]; [reflexivity|]. simpl.
  destruct (f x); [reflexivity|exact IH].
Qed.

End Lines.

(** ** The normaliser *)



(** An [error] field that is present but falsy (null, the empty string, 0,
    false) is not an error: the program goes on as if it were absent. *)
Example falsy_error_is_no_error :
  hasError (normalizeProbeResult (JObj [("error", JNull); ("banner", JStr "b")])) = false
  /\ lines (normalizeProbeResult (JObj [("error", JStr ""); ("banner", JStr "b")]))
     = ["Banner: b"].
Proof. split; reflexivity. Qed.

Lemma normalizeText_vulnerability (str : string) :
  hasVulnerability (normalizeText str) =
  (0 <? length (vulnerabilities (normalizeText str)))%nat.
Proof.
  unfold normalizeText. simpl.
  rewrite filter_nonempty_existsb.
  rewrite existsb_filter_implied.
  - apply includes_splitLines. reflexivity.
  - intros l. apply includes_not_blank. reflexivity.
Qed.

(** C2.  For every input the flag [hasVulnerability] says whether the
    [vulnerabilities] sequence is non-empty. *)
Theorem hasVulnerability_iff_vulnerabilities (result : JsVal) :
  hasVulnerability (normalizeProbeResult result) =
  (0 <? length (vulnerabilities (normalizeProbeResult result)))%nat.
Proof.
  destruct result; try reflexivity;
    try (unfold normalizeProbeResult; apply normalizeText_vulnerability).
  unfold normalizeProbeResult, normalizeObject.
  destruct (truthy (get fields "error")); reflexivity.
Qed.

(** C9.  [hasError] is raised exactly for a structured record whose
    [error] field is set (truthy), and for a free-text input that contains
    "failed" or "timed out" or begins with "ERROR:"; so it is not raised
    for an absent input, nor for a structured record without a set [error]
    field, whatever text its fields hold. *)
Theorem hasError_iff (result : JsVal) :
  hasError (normalizeProbeResult result) = true <->
  (exists obj, result = JObj obj /\ truthy (get obj "error") = true)
  \/ (freeText result
      /\ (contains (toString result) "failed"
          \/ contains (toString result) "timed out"
          \/ beginsWith (toString result) "ERROR:")).
Proof.
  assert (Htext : forall str,
             hasError (normalizeText str) = true <->
             contains str "failed" \/ contains str "timed out"
             \/ beginsWith str "ERROR:").
  { intros str. unfold normalizeText, contains, beginsWith. cbn [hasError].
    rewrite !orb_true_iff, !includes_iff, startsWith_iff. tauto. }
  destruct result as [| |b|n|s|items|obj]; cbn [normalizeProbeResult freeText].
  - split; [discriminate|]. intros [(obj & H & _)|[[] _]]. discriminate.
  - split; [discriminate|]. intros [(obj & H & _)|[[] _]]. discriminate.
  - rewrite Htext. split; [tauto|]. intros [(obj & H & _)|[_ H]]; [discriminate|exact H].
  - rewrite Htext. split; [tauto|]. intros [(obj & H & _)|[_ H]]; [discriminate|exact H].
  - rewrite Htext. split; [tauto|]. intros [(obj & H & _)|[_ H]]; [discriminate|exact H].
  - rewrite Htext. split; [tauto|]. intros [(obj & H & _)|[_ H]]; [discriminate|exact H].
  - unfold normalizeObject.
    destruct (truthy (get obj "error")) eqn:E; cbn [hasError].
    + split; [|reflexivity]. intros _. left. exists obj. split; [reflexivity|exact E].
    + split; [discriminate|].
      intros [(obj' & H & H')|[[] _]]. injection H as <-. congruence.
Qed.

(** Marker text inside the fields of a structured record does not raise
    [hasError]. *)
Example nested_marker_text_is_no_error :
  hasError (normalizeProbeResult
              (JObj [("banner", JStr "ERROR: login failed");
                     ("note", JObj [("msg", JStr "connection timed out")])])) = false.
Proof. reflexivity. Qed.

(** ** What the steps of the structured branch leave alone *)

Section Preservation.

Lemma keeps_pushLine (l : string) : keeps (fun acc => pushLine acc l).
Proof. intros acc. split; reflexivity. Qed.

Lemma keeps_pushLines (ls : list string) : keeps (fun acc => pushLines acc ls).
Proof.
  unfold pushLines. induction ls as [|l ls IH]; intros acc; [split; reflexivity|].
  cbn [fold_left]. destruct (IH (pushLine acc l)) as [-> ->]. split; reflexivity.
Qed.

Lemma keeps_compose (f g : Acc -> Acc) :
  keeps f -> keeps g -> keeps (fun acc => g (f acc)).
Proof.
  intros Hf Hg acc. destruct (Hg (f acc)) as [-> ->]. apply Hf.
Qed.

Ltac keeps_cases :=
  intros acc;
  repeat match goal with
         | |- context [match ?x with _ => _ end] => destruct x
         end;
  first [ split; reflexivity
        | apply (keeps_pushLine _ acc)
        | apply (keeps_pushLines _ acc)
        | apply (keeps_compose _ _ (keeps_pushLine _) (keeps_pushLines _) acc) ].

Lemma keeps_textField k label obj : keeps (textField k label obj).
Proof. unfold textField. keeps_cases. Qed.

Lemma keeps_listField k label obj : keeps (listField k label obj).
Proof. unfold listField. keeps_cases. Qed.

Lemma keeps_flagField k line obj : keeps (flagField k line obj).
Proof. unfold flagField. keeps_cases. Qed.

Lemma keeps_yesNoField k label obj : keeps (yesNoField k label obj).
Proof.
  unfold yesNoField. intros acc.
  destruct (get obj k); try (split; reflexivity).
Qed.

Lemma keeps_directoryListing obj : keeps (directoryListing obj).
Proof.
  unfold directoryListing. intros acc.
  destruct (nonEmptyArray (get obj "directory_listing")); [|split; reflexivity].
  apply (keeps_compose _ _ (keeps_pushLine _) (keeps_pushLines _) acc).
Qed.

Lemma keeps_weakAlgorithms obj : keeps (weakAlgorithms obj).
Proof.
  unfold weakAlgorithms. intros acc.
  destruct (nonEmptyArray (get obj "weak_algorithms")); [|split; reflexivity].
  apply (keeps_pushLines _ acc).
Qed.

Lemma keeps_dbSize obj : keeps (dbSize obj).
Proof. unfold dbSize. intros acc. destruct (get obj "db_size"); split; reflexivity. Qed.

Lemma keeps_dangerousMethods obj : keeps (dangerousMethods obj).
Proof.
  unfold dangerousMethods. intros acc.
  destruct (nonEmptyArray (get obj "dangerous_methods")); [|split; reflexivity].
  destruct (acc_findings acc) eqn:E; (split; [exact E|reflexivity]).
Qed.

Lemma keeps_bannerLine b : keeps (bannerLine b).
Proof.
  unfold bannerLine. intros acc. destruct b as [b|]; [|split; reflexivity].
  destruct (nonEmpty b); split; reflexivity.
Qed.

Lemma otherStep_findings acc entry :
  acc_findings (otherStep acc entry) = acc_findings acc.
Proof.
  unfold otherStep. destruct entry as [key val].
  destruct (negb (existsb (String.eqb key) handled) && negb (nullish val));
    [|reflexivity].
  destruct (includes _ "VULNERABILITY"); reflexivity.
Qed.

Lemma otherSteps_findings entries acc :
  acc_findings (fold_left otherStep entries acc) = acc_findings acc.
Proof.
  revert acc. induction entries as [|e entries IH]; intros acc; [reflexivity|].
  cbn [fold_left]. rewrite IH. apply otherStep_findings.
Qed.

Lemma legacyStep_findings acc v :
  acc_findings (legacyStep acc v) = acc_findings acc.
Proof. unfold legacyStep. destruct (_ && _); reflexivity. Qed.

Lemma legacySteps_findings vs acc :
  acc_findings (fold_left legacyStep vs acc) = acc_findings acc.
Proof.
  revert acc. induction vs as [|v vs IH]; intros acc; [reflexivity|].
  cbn [fold_left]. rewrite IH. apply legacyStep_findings.
Qed.

Lemma legacyBlock_findings obj acc :
  acc_findings (legacyBlock obj acc) = acc_findings acc.
Proof.
  unfold legacyBlock. destruct (get obj "vulnerabilities"); try reflexivity.
  apply legacySteps_findings.
Qed.

Lemma afterLegacy_findings obj acc :
  acc_findings (afterLegacy obj acc) = acc_findings acc.
Proof.
  unfold afterLegacy. rewrite otherSteps_findings.
  repeat first
    [ rewrite (proj1 (keeps_textField _ _ obj _))
    | rewrite (proj1 (keeps_listField _ _ obj _))
    | rewrite (proj1 (keeps_flagField _ _ obj _))
    | rewrite (proj1 (keeps_yesNoField _ _ obj _))
    | rewrite (proj1 (keeps_directoryListing obj _))
    | rewrite (proj1 (keeps_weakAlgorithms obj _))
    | rewrite (proj1 (keeps_dbSize obj _))
    | rewrite (proj1 (keeps_dangerousMethods obj _)) ].
  reflexivity.
Qed.


End Preservation.

(** ** Severity of a parsed finding *)

(** The severity stored for a finding: INFO when the input has none,
    otherwise the upper-cased text of what the input gives. *)
Lemma severity_of_parsed (f : JsVal) :
  severity (parseFinding f) =
  if nullish (prop f "severity") then "INFO"
  else toUpperCase (toString (prop f "severity")).
Proof.
  unfold parseFinding, orElse. cbn [severity].
  destruct (nullish (prop f "severity")); reflexivity.
Qed.

(** C3.  The program at a finding whose severity is none of the five
    levels: the upper-cased text is stored as it is, not INFO. *)
Theorem unrecognized_severity_kept :
  map severity (findings (normalizeProbeResult oddSeverityInput)) = ["SEVERE"]
  /\ ~ In "SEVERE" SEVERITY_LEVELS
  /\ lines (normalizeProbeResult oddSeverityInput) = ["[SEVERE] Odd reply"].
Proof.
  split; [reflexivity|]. split; [|reflexivity].
  unfold SEVERITY_LEVELS. cbn [In].
  intros [H|[H|[H|[H|[H|[]]]]]]; discriminate H.
Qed.

(** ** Deduplication of the legacy vulnerability list *)

Section Dedup.










Lemma vulnLabel_includes_title p : includes (vulnLabel p) (title p) = true.
Proof.
  unfold vulnLabel. rewrite <- !append_assoc. apply includes_prefixed.
Qed.

End Dedup.




(** ** Severity ranks *)

Section Ranks.

Lemma rankOf_cases (sev : string) :
  (rankOf sev = 0 \/ rankOf sev = 1 \/ rankOf sev = 2
   \/ rankOf sev = 3 \/ rankOf sev = 4)%Z.
Proof.
  unfold rankOf, SEVERITY_RANK, rankLookup.
  repeat match goal with
         | |- context [String.eqb ?a sev] => destruct (String.eqb a sev)
         end; cbn; tauto.
Qed.

Lemma rankOf_le_info (sev : string) : (rankOf sev <= RANK_INFO)%Z.
Proof.
  change RANK_INFO with 4%Z. destruct (rankOf_cases sev) as [H|[H|[H|[H|H]]]]; lia.
Qed.

Lemma update_is_min (rank best : Z) :
  (if (rank <? best)%Z then rank else best) = Z.min best rank.
Proof. destruct (Z.ltb_spec rank best); lia. Qed.

Lemma fold_min_le_start (rs : list Z) (b : Z) : (fold_left Z.min rs b <= b)%Z.
Proof.
  revert b. induction rs as [|r rs IH]; intros b; cbn [fold_left]; [lia|].
  specialize (IH (Z.min b r)). lia.
Qed.

Lemma fold_min_le_elem (rs : list Z) (b r : Z) :
  In r rs -> (fold_left Z.min rs b <= r)%Z.
Proof.
  revert b. induction rs as [|x rs IH]; intros b H; [destruct H|].
  cbn [fold_left]. destruct H as [->|H].
  - pose proof (fold_min_le_start rs (Z.min b r)). lia.
  - apply IH, H.
Qed.

Lemma fold_min_attained (rs : list Z) (b : Z) :
  fold_left Z.min rs b = b \/ In (fold_left Z.min rs b) rs.
Proof.
  revert b. induction rs as [|x rs IH]; intros b; [left; reflexivity|].
  cbn [fold_left]. destruct (IH (Z.min b x)) as [H|H].
  - rewrite H. destruct (Z.min_spec b x) as [[_ ->]|[_ ->]]; [left|right; left]; reflexivity.
  - right. right. exact H.
Qed.

Lemma minRank_le (fs : list ParsedFinding) (f : ParsedFinding) :
  In f fs -> (minRank fs <= rankOf (severity f))%Z.
Proof.
  intros H. apply fold_min_le_elem. unfold ranksOf.
  apply in_map_iff. exists f. split; [reflexivity|exact H].
Qed.

Lemma minRank_le_info (fs : list ParsedFinding) : (minRank fs <= RANK_INFO)%Z.
Proof. apply fold_min_le_start. Qed.

Lemma minRank_attained (fs : list ParsedFinding) :
  fs <> [] -> exists f, In f fs /\ minRank fs = rankOf (severity f).
Proof.
  intros Hne. unfold minRank.
  destruct (fold_min_attained (ranksOf fs) RANK_INFO) as [H|H].
  - destruct fs as [|f fs]; [congruence|].
    pose proof (fold_min_le_elem (ranksOf (f :: fs)) RANK_INFO (rankOf (severity f))
                  (or_introl eq_refl)) as Hle.
    pose proof (rankOf_le_info (severity f)).
    exists f. split; [left; reflexivity|]. lia.
  - unfold ranksOf in H at 2. apply in_map_iff in H.
    destruct H as (f & Hf & Hin). exists f. split; [exact Hin|]. symmetry. exact Hf.
Qed.

Lemma minRank_cases (fs : list ParsedFinding) :
  (minRank fs = 0 \/ minRank fs = 1 \/ minRank fs = 2
   \/ minRank fs = 3 \/ minRank fs = 4)%Z.
Proof.
  destruct fs as [|f fs].
  - right. right. right. right. reflexivity.
  - destruct (minRank_attained (f :: fs)) as (g & _ & ->); [discriminate|].
    apply rankOf_cases.
Qed.

(** The name of a rank has that rank. *)
Lemma rank_of_label (fs : list ParsedFinding) :
  rankLookup SEVERITY_RANK (sevLabelOf (minRank fs)) = Some (minRank fs).
Proof.
  destruct (minRank_cases fs) as [H|[H|[H|[H|H]]]]; rewrite H; reflexivity.
Qed.

Lemma minRank_info_label (fs : list ParsedFinding) :
  sevLabelOf (minRank fs) = "INFO" <-> minRank fs = RANK_INFO.
Proof.
  change RANK_INFO with 4%Z.
  destruct (minRank_cases fs) as [H|[H|[H|[H|H]]]]; rewrite H;
    (split; [try discriminate|try lia]); reflexivity.
Qed.

End Ranks.

(** ** One port: the two inner loops *)

Section ScanPort.

Lemma findingUpdate_bestSev st f :
  bestSev (findingUpdate st f) = Z.min (bestSev st) (rankOf (severity f)).
Proof.
  unfold findingUpdate. rewrite update_is_min.
  destruct (owasp_id f) as [id|]; [destruct (nonEmpty id)|]; reflexivity.
Qed.

Lemma findingUpdate_detected st f :
  detected (findingUpdate st f) = detected st.
Proof.
  unfold findingUpdate.
  destruct (owasp_id f) as [id|]; [destruct (nonEmpty id)|]; reflexivity.
Qed.

Lemma findingUpdates_bestSev fs st :
  bestSev (fold_left findingUpdate fs st) = fold_left Z.min (ranksOf fs) (bestSev st).
Proof.
  revert st. induction fs as [|f fs IH]; intros st; [reflexivity|].
  cbn [fold_left ranksOf map]. rewrite IH, findingUpdate_bestSev. reflexivity.
Qed.

Lemma findingUpdates_detected fs st :
  detected (fold_left findingUpdate fs st) = detected st.
Proof.
  revert st. induction fs as [|f fs IH]; intros st; [reflexivity|].
  cbn [fold_left]. rewrite IH. apply findingUpdate_detected.
Qed.

(** A probe result without structured findings has top severity INFO. *)
Lemma topSeverity_no_findings result :
  findings (normalizeProbeResult result) = [] ->
  topSeverityFromResult result = RANK_INFO.
Proof. intros H. unfold topSeverityFromResult. rewrite H. reflexivity. Qed.

Lemma resultStep_bestSev st result :
  (bestSev st <= RANK_INFO)%Z ->
  bestSev (resultStep st result) =
  fold_left Z.min (ranksOf (findings (normalizeProbeResult result))) (bestSev st).
Proof.
  intros Hle. unfold resultStep.
  destruct (findings (normalizeProbeResult result)) as [|f fs] eqn:E.
  - cbn [fold_left withBest bestSev ranksOf map].
    rewrite (topSeverity_no_findings result E). lia.
  - rewrite findingUpdates_bestSev. reflexivity.
Qed.

Lemma resultStep_detected st result :
  detected (resultStep st result) = detected st.
Proof.
  unfold resultStep.
  destruct (findings (normalizeProbeResult result));
    [cbn [withBest detected]|]; rewrite findingUpdates_detected; reflexivity.
Qed.

Lemma serviceStep_bestSev st entry :
  bestSev (serviceStep st entry) = bestSev (resultStep st (snd entry)).
Proof.
  unfold serviceStep. destruct (protocolOfProbe (fst entry)); [|reflexivity].
  destruct (detected (resultStep st (snd entry))); reflexivity.
Qed.

Lemma fold_min_app (xs ys : list Z) (b : Z) :
  fold_left Z.min (xs ++ ys) b = fold_left Z.min ys (fold_left Z.min xs b).
Proof. apply fold_left_app. Qed.

Lemma ranksOf_app (fs gs : list ParsedFinding) :
  ranksOf (fs ++ gs) = ranksOf fs ++ ranksOf gs.
Proof. apply map_app. Qed.

Lemma steps_bestSev (step : PortState -> string * JsVal -> PortState) :
  (forall st e, bestSev (step st e) = bestSev (resultStep st (snd e))) ->
  forall entries st,
    (bestSev st <= RANK_INFO)%Z ->
    bestSev (fold_left step entries st) =
    fold_left Z.min (ranksOf (findingsOf (map snd entries))) (bestSev st).
Proof.
  intros Hstep entries. induction entries as [|e entries IH]; intros st Hle;
    [reflexivity|].
  cbn [fold_left map]. unfold findingsOf. cbn [map concat].
  rewrite ranksOf_app, fold_min_app.
  rewrite <- (resultStep_bestSev st (snd e) Hle), <- Hstep.
  apply IH. rewrite Hstep, (resultStep_bestSev st (snd e) Hle).
  pose proof (fold_min_le_start
                (ranksOf (findings (normalizeProbeResult (snd e)))) (bestSev st)).
  lia.
Qed.

Lemma findingsOf_app (xs ys : list JsVal) :
  findingsOf (xs ++ ys) = findingsOf xs ++ findingsOf ys.
Proof. unfold findingsOf. rewrite map_app. apply concat_app. Qed.

(** The best severity of a port is the minimum rank over all its
    structured findings. *)
Lemma scanPort_bestSev ap cnt port :
  bestSev (scanPort ap cnt port) = minRank (allFindings ap port).
Proof.
  unfold scanPort, minRank, allFindings, probeResults.
  rewrite findingsOf_app, ranksOf_app, fold_min_app.
  rewrite (steps_bestSev webStep); [|reflexivity|].
  - rewrite (steps_bestSev serviceStep serviceStep_bestSev); [reflexivity|].
    cbn [bestSev]. lia.
  - rewrite (steps_bestSev serviceStep serviceStep_bestSev) by (cbn [bestSev]; lia).
    apply fold_min_le_start.
Qed.

Lemma table_lookup_in {K : Type} `{Countable K} {V : Type}
    (l : list (K * V)) (k : K) (v : V) :
  (list_to_map l : gmap K V) !! k = Some v -> In (k, v) l.
Proof.
  intros Hl. apply list_elem_of_In. apply (elem_of_list_to_map_2 l k v Hl).
Qed.

Lemma protocol_nonEmpty name proto :
  PROBE_TO_PROTOCOL !! name = Some proto -> nonEmpty proto = true.
Proof.
  intros H. apply table_lookup_in in H. cbn [In] in H.
  repeat (destruct H as [H|H]; [injection H as _ <-; reflexivity|]).
  destruct H.
Qed.

Lemma wellKnown_nonEmpty port name :
  WELL_KNOWN_PORTS !! port = Some name -> nonEmpty name = true.
Proof.
  intros H. apply table_lookup_in in H. cbn [In] in H.
  repeat (destruct H as [H|H]; [injection H as _ <-; reflexivity|]).
  destruct H.
Qed.

(** The program's test on a probe name finds the canonical protocol. *)
Lemma protocolOfProbe_canonical name :
  protocolOfProbe name = canonicalProtocol name.
Proof.
  unfold protocolOfProbe, canonicalProtocol, probeToProtocol.
  destruct (PROBE_TO_PROTOCOL !! name) as [proto|] eqn:E.
  - rewrite (protocol_nonEmpty name proto E). cbn [andb].
    destruct (String.eqb_spec proto "GENERIC") as [->|Hg];
      [destruct (decide _) as [_|H]; [reflexivity|exfalso; apply H; left; reflexivity]|].
    destruct (String.eqb_spec proto "TLS") as [->|Ht];
      [destruct (decide _) as [_|H]; [reflexivity|exfalso; apply H; right; reflexivity]|].
    cbn [negb andb]. destruct (decide _) as [[?|?]|_]; congruence.
  - destruct (existsb (String.eqb name) OBJECT_PROTOTYPE_MEMBERS); [|reflexivity].
    destruct (decide _) as [[?|?]|_]; congruence.
Qed.

Lemma serviceSteps_detected entries st :
  detected (fold_left serviceStep entries st) =
  match detected st with
  | Some d => Some d
  | None => firstProtocol (map fst entries)
  end.
Proof.
  revert st. induction entries as [|e entries IH]; intros st.
  - cbn [fold_left map firstProtocol]. destruct (detected st); reflexivity.
  - cbn [fold_left map firstProtocol]. rewrite IH. unfold serviceStep.
    rewrite protocolOfProbe_canonical.
    pose proof (resultStep_detected st (snd e)) as Hd.
    destruct (canonicalProtocol (fst e)) as [proto|].
    + destruct (detected (resultStep st (snd e))) eqn:E;
        rewrite <- Hd; [rewrite E|]; reflexivity.
    + rewrite Hd. reflexivity.
Qed.

Lemma webSteps_detected entries st :
  detected (fold_left webStep entries st) = detected st.
Proof.
  revert st. induction entries as [|e entries IH]; intros st; [reflexivity|].
  cbn [fold_left]. rewrite IH. apply resultStep_detected.
Qed.

(** The protocol detected for a port is the one inferred from the names of
    its service probes. *)
Lemma scanPort_detected ap cnt port :
  detected (scanPort ap cnt port) = inferredProtocol ap port.
Proof.
  unfold scanPort, inferredProtocol.
  rewrite webSteps_detected, serviceSteps_detected. reflexivity.
Qed.

End ScanPort.

(** ** The loop over the ports *)

Section PortLoop.

Variable ap : AggregatedPortsData.

Lemma portStep_severityMap res port p :
  severityMap (portStep ap res port) !! p =
  if decide (port = p) then Some (sevLabelOf (minRank (allFindings ap p)))
  else severityMap res !! p.
Proof.
  unfold portStep. cbn [severityMap]. rewrite scanPort_bestSev.
  destruct (decide (port = p)) as [->|Hne].
  - apply lookup_insert_eq.
  - apply lookup_insert_ne, Hne.
Qed.

Lemma portSteps_severityMap_out l res p :
  ~ In p l ->
  severityMap (fold_left (portStep ap) l res) !! p = severityMap res !! p.
Proof.
  revert res. induction l as [|x l IH]; intros res Hn; [reflexivity|].
  cbn [fold_left]. rewrite IH by (intros H; apply Hn; right; exact H).
  rewrite portStep_severityMap.
  destruct (decide (x = p)) as [->|_]; [|reflexivity].
  exfalso. apply Hn. left. reflexivity.
Qed.

Lemma portSteps_severityMap_in l res p :
  In p l ->
  severityMap (fold_left (portStep ap) l res) !! p =
  Some (sevLabelOf (minRank (allFindings ap p))).
Proof.
  revert res. induction l as [|x l IH]; intros res H; [destruct H|].
  cbn [fold_left]. destruct (in_dec Z.eq_dec p l) as [Hin|Hnin].
  - apply IH, Hin.
  - destruct H as [->|H]; [|contradiction].
    rewrite (portSteps_severityMap_out l _ p Hnin), portStep_severityMap.
    destruct (decide (p = p)); [reflexivity|congruence].
Qed.

(** What the analysis records as the severity of a port of the list. *)
Lemma severityMap_portAnalysis p :
  In p (ports ap) ->
  severityMap (portAnalysis ap) !! p =
  Some (sevLabelOf (minRank (allFindings ap p))).
Proof. apply portSteps_severityMap_in. Qed.

Lemma severityMap_portAnalysis_out p :
  ~ In p (ports ap) -> severityMap (portAnalysis ap) !! p = None.
Proof.
  intros H. unfold portAnalysis.
  rewrite (portSteps_severityMap_out _ _ p H). apply lookup_empty.
Qed.

Lemma portStep_nonStandard res port p :
  p ∈ nonStandard (portStep ap res port) <->
  (port = p /\ isNonStandardPort p (inferredProtocol ap p) = true)
  \/ p ∈ nonStandard res.
Proof.
  unfold portStep. cbn [nonStandard]. rewrite scanPort_detected.
  destruct (isNonStandardPort port (inferredProtocol ap port)) eqn:E.
  - rewrite elem_of_union, elem_of_singleton. split.
    + intros [->|H]; [left; split; [reflexivity|exact E]|right; exact H].
    + intros [[-> _]|H]; [left; reflexivity|right; exact H].
  - split; [intros H; right; exact H|].
    intros [[-> H]|H]; [congruence|exact H].
Qed.

Lemma portSteps_nonStandard l res p :
  p ∈ nonStandard (fold_left (portStep ap) l res) <->
  (In p l /\ isNonStandardPort p (inferredProtocol ap p) = true)
  \/ p ∈ nonStandard res.
Proof.
  revert res. induction l as [|x l IH]; intros res; cbn [fold_left].
  - split; [intros H; right; exact H|]. intros [[[] _]|H]. exact H.
  - rewrite IH, portStep_nonStandard. cbn [In]. split.
    + intros [[H1 H2]|[[-> H]|H]]; [left|left|right]; tauto.
    + intros [[[->|H1] H2]|H]; tauto.
Qed.

(** The ports the analysis flags as non-standard. *)
Lemma nonStandard_portAnalysis p :
  p ∈ nonStandard (portAnalysis ap) <->
  In p (ports ap) /\ isNonStandardPort p (inferredProtocol ap p) = true.
Proof.
  unfold portAnalysis. rewrite portSteps_nonStandard. cbn [emptyAnalysis nonStandard].
  split; [intros [H|H]; [exact H|]|intros H; left; exact H].
  exfalso. revert H. apply not_elem_of_empty.
Qed.

(** The program's test for a non-standard port, in words. *)
Lemma isNonStandardPort_iff p :
  isNonStandardPort p (inferredProtocol ap p) = true <->
  exists proto,
    inferredProtocol ap p = Some proto
    /\ (WELL_KNOWN_PORTS !! p = None
        \/ exists expected, WELL_KNOWN_PORTS !! p = Some expected
                            /\ Named expected <> proto).
Proof.
  unfold isNonStandardPort.
  destruct (inferredProtocol ap p) as [d|].
  - destruct (WELL_KNOWN_PORTS !! p) as [expected|] eqn:E.
    + rewrite (wellKnown_nonEmpty p expected E). cbn [negb orb].
      destruct (sameProtocol expected d) eqn:Hsame; cbn [negb].
      * assert (Hd : d = Named expected).
        { destruct d as [name|key]; cbn [sameProtocol] in Hsame; [|discriminate].
          apply String.eqb_eq in Hsame. congruence. }
        split; [discriminate|].
        intros (proto & [= <-] & [H|(e & [= <-] & H)]); congruence.
      * split; [|reflexivity]. intros _. exists d. split; [reflexivity|].
        right. exists expected. split; [reflexivity|].
        intros <-. cbn [sameProtocol] in Hsame. rewrite String.eqb_refl in Hsame.
        discriminate.
    + split; [|reflexivity]. intros _. exists d. split; [reflexivity|].
      left. reflexivity.
  - split; [discriminate|]. intros (proto & H & _). discriminate.
Qed.

End PortLoop.

(** ** Dominant severity and the non-standard flag *)

(** C5.  For every port of the pass, the dominant severity is the level
    whose rank is the minimum rank over all structured findings of all
    probe results of the port, service detection and web tests alike, and
    INFO when there is no finding. *)
Theorem dominant_severity_is_min (ap : AggregatedPortsData) (port : Z) :
  In port (ports ap) ->
  severityMap (portAnalysis ap) !! port
  = Some (sevLabelOf (minRank (allFindings ap port)))
  /\ rankLookup SEVERITY_RANK (dominantSeverity ap port)
     = Some (minRank (allFindings ap port))
  /\ (forall f, In f (allFindings ap port) ->
                (minRank (allFindings ap port) <= rankOf (severity f))%Z)
  /\ (allFindings ap port <> [] ->
      exists f, In f (allFindings ap port)
                /\ minRank (allFindings ap port) = rankOf (severity f))
  /\ (allFindings ap port = [] -> dominantSeverity ap port = "INFO").
Proof.
  intros Hin. pose proof (severityMap_portAnalysis ap port Hin) as Hmap.
  unfold dominantSeverity. rewrite Hmap. cbn [default].
  split; [reflexivity|]. split; [apply rank_of_label|].
  split; [apply minRank_le|]. split; [apply minRank_attained|].
  intros ->. reflexivity.
Qed.

Lemma dominant_severity_is_min_witness :
  In 8443%Z (ports mixedPort)
  /\ severityMap (portAnalysis mixedPort) !! 8443%Z = Some "CRITICAL".
Proof.
  assert (H : In 8443%Z (ports mixedPort)) by (left; reflexivity).
  split; [exact H|].
  rewrite (proj1 (dominant_severity_is_min mixedPort 8443%Z H)).
  vm_compute. reflexivity.
Defined.



(** C10.  A probe result without structured findings contributes the rank
    INFO and nothing else: the step of the analysis only takes the minimum
    of the best severity so far and INFO, whatever the flags and lines of
    the normalised result; and a port whose dominant severity is not INFO
    has a structured finding that is more severe than INFO. *)
Theorem no_findings_contributes_info
    (ap : AggregatedPortsData) (port : Z) (st : PortState) (result : JsVal) :
  findings (normalizeProbeResult result) = [] ->
  In port (ports ap) ->
  topSeverityFromResult result = RANK_INFO
  /\ resultStep st result = withBest st (Z.min (bestSev st) RANK_INFO)
  /\ (dominantSeverity ap port <> "INFO" ->
      exists f, In f (allFindings ap port)
                /\ (rankOf (severity f) < RANK_INFO)%Z).
Proof.
  intros Hnone Hin. split; [apply topSeverity_no_findings, Hnone|]. split.
  - unfold resultStep. rewrite Hnone, (topSeverity_no_findings result Hnone).
    cbn [fold_left length withBest bestSev totalFindings detected portOwaspIds counts].
    rewrite Z.add_0_r. reflexivity.
  - unfold dominantSeverity. rewrite (severityMap_portAnalysis ap port Hin).
    cbn [default]. intros Hne.
    assert (Hrank : minRank (allFindings ap port) <> RANK_INFO)
      by (intros H; apply Hne, minRank_info_label, H).
    destruct (allFindings ap port) as [|f fs] eqn:E;
      [exfalso; apply Hrank; reflexivity|].
    destruct (minRank_attained (f :: fs)) as (g & Hg & Heq); [discriminate|].
    exists g. split; [exact Hg|].
    pose proof (rankOf_le_info (severity g)). lia.
Qed.

Lemma no_findings_contributes_info_witness :
  hasVulnerability (normalizeProbeResult legacyVulnText) = true
  /\ topSeverityFromResult legacyVulnText = RANK_INFO
  /\ bestSev (resultStep freshPortState legacyVulnText) = RANK_INFO
  /\ dominantSeverity legacyPort 21%Z = "INFO".
Proof.
  assert (H : In 21%Z (ports legacyPort)) by (left; reflexivity).
  pose proof (no_findings_contributes_info legacyPort 21%Z freshPortState
                legacyVulnText eq_refl H) as (Htop & Hstep & _).
  split; [reflexivity|]. split; [exact Htop|]. split.
  - rewrite Hstep. reflexivity.
  - vm_compute. reflexivity.
Defined.

(** ** Compliance identifiers of a port *)

Section Compliance.

Lemma findingUpdate_ids st f id :
  id ∈ portOwaspIds (findingUpdate st f) <->
  carriedId f = Some id \/ id ∈ portOwaspIds st.
Proof.
  unfold findingUpdate, carriedId.
  destruct (owasp_id f) as [x|]; [destruct (nonEmpty x)|]; cbn [portOwaspIds].
  - rewrite elem_of_union, elem_of_singleton. split.
    + intros [->|H]; [left; reflexivity|right; exact H].
    + intros [[= ->]|H]; [left; reflexivity|right; exact H].
  - split; [intros H; right; exact H|]. intros [H|H]; [discriminate|exact H].
  - split; [intros H; right; exact H|]. intros [H|H]; [discriminate|exact H].
Qed.

Lemma findingUpdates_ids fs st id :
  id ∈ portOwaspIds (fold_left findingUpdate fs st) <->
  (exists f, In f fs /\ carriedId f = Some id) \/ id ∈ portOwaspIds st.
Proof.
  revert st. induction fs as [|f fs IH]; intros st; cbn [fold_left].
  - split; [intros H; right; exact H|]. intros [(f & [] & _)|H]. exact H.
  - rewrite IH, findingUpdate_ids. split.
    + intros [(g & Hg & Hc)|[Hc|H]].
      * left. exists g. split; [right; exact Hg|exact Hc].
      * left. exists f. split; [left; reflexivity|exact Hc].
      * right. exact H.
    + intros [(g & [<-|Hg] & Hc)|H].
      * right. left. exact Hc.
      * left. exists g. split; assumption.
      * right. right. exact H.
Qed.

Lemma resultStep_ids st result id :
  id ∈ portOwaspIds (resultStep st result) <->
  (exists f, In f (findings (normalizeProbeResult result)) /\ carriedId f = Some id)
  \/ id ∈ portOwaspIds st.
Proof.
  unfold resultStep.
  destruct (findings (normalizeProbeResult result)) as [|f fs].
  - cbn [fold_left withBest portOwaspIds]. split; [intros H; right; exact H|].
    intros [(f & [] & _)|H]. exact H.
  - rewrite findingUpdates_ids. reflexivity.
Qed.

Lemma serviceStep_ids st entry :
  portOwaspIds (serviceStep st entry) = portOwaspIds (resultStep st (snd entry)).
Proof.
  unfold serviceStep. destruct (protocolOfProbe (fst entry)); [|reflexivity].
  destruct (detected (resultStep st (snd entry))); reflexivity.
Qed.

Lemma steps_ids (step : PortState -> string * JsVal -> PortState) :
  (forall st e, portOwaspIds (step st e) = portOwaspIds (resultStep st (snd e))) ->
  forall entries st id,
    id ∈ portOwaspIds (fold_left step entries st) <->
    (exists f, In f (findingsOf (map snd entries)) /\ carriedId f = Some id)
    \/ id ∈ portOwaspIds st.
Proof.
  intros Hstep entries. induction entries as [|e entries IH]; intros st id;
    cbn [fold_left map].
  - split; [intros H; right; exact H|]. intros [(f & [] & _)|H]. exact H.
  - rewrite IH, Hstep, resultStep_ids. unfold findingsOf. cbn [map concat].
    split.
    + intros [(f & Hf & Hc)|[(f & Hf & Hc)|H]].
      * left. exists f. split; [apply in_or_app; right; exact Hf|exact Hc].
      * left. exists f. split; [apply in_or_app; left; exact Hf|exact Hc].
      * right. exact H.
    + intros [(f & Hf & Hc)|H]; [|right; right; exact H].
      apply in_app_or in Hf. destruct Hf as [Hf|Hf].
      * right. left. exists f. split; assumption.
      * left. exists f. split; assumption.
Qed.

(** The identifiers collected for a port are those its findings carry. *)
Lemma scanPort_ids ap cnt port id :
  id ∈ portOwaspIds (scanPort ap cnt port) <->
  exists f, In f (allFindings ap port) /\ carriedId f = Some id.
Proof.
  unfold scanPort, allFindings, probeResults.
  rewrite (steps_ids webStep) by reflexivity.
  rewrite (steps_ids serviceStep serviceStep_ids).
  cbn [portOwaspIds]. rewrite findingsOf_app. split.
  - intros [(f & Hf & Hc)|[(f & Hf & Hc)|H]].
    + exists f. split; [apply in_or_app; right; exact Hf|exact Hc].
    + exists f. split; [apply in_or_app; left; exact Hf|exact Hc].
    + exfalso. revert H. apply not_elem_of_empty.
  - intros (f & Hf & Hc). apply in_app_or in Hf. destruct Hf as [Hf|Hf].
    + right. left. exists f. split; assumption.
    + left. exists f. split; assumption.
Qed.

Lemma elem_of_idsOf ap port id :
  id ∈ idsOf ap port <->
  exists f, In f (allFindings ap port) /\ carriedId f = Some id.
Proof.
  unfold idsOf. rewrite elem_of_list_to_set, list_elem_of_omap. split.
  - intros (f & Hf & Hc). exists f. split; [apply list_elem_of_In, Hf|exact Hc].
  - intros (f & Hf & Hc). exists f. split; [apply list_elem_of_In, Hf|exact Hc].
Qed.

Lemma scanPort_idsOf ap cnt port :
  portOwaspIds (scanPort ap cnt port) = idsOf ap port.
Proof.
  apply set_eq. intros id. rewrite scanPort_ids, elem_of_idsOf. reflexivity.
Qed.

Lemma portStep_ids ap res x p :
  default ∅ (owaspIdsPerPort (portStep ap res x) !! p) =
  if decide (x = p /\ idsOf ap p <> ∅) then idsOf ap p
  else default ∅ (owaspIdsPerPort res !! p).
Proof.
  unfold portStep. cbn [owaspIdsPerPort]. rewrite scanPort_idsOf.
  destruct (decide (idsOf ap x = ∅)) as [He|Hne].
  - destruct (decide _) as [[-> H]|_]; [contradiction|reflexivity].
  - destruct (decide (x = p)) as [->|Hxp].
    + rewrite lookup_insert_eq. destruct (decide _) as [_|H]; [reflexivity|].
      exfalso. apply H. split; [reflexivity|exact Hne].
    + rewrite lookup_insert_ne by exact Hxp.
      destruct (decide _) as [[H _]|_]; [contradiction|reflexivity].
Qed.

Lemma portSteps_ids ap l p :
  forall res,
    (default ∅ (owaspIdsPerPort res !! p) = ∅
     \/ default ∅ (owaspIdsPerPort res !! p) = idsOf ap p) ->
    (In p l \/ default ∅ (owaspIdsPerPort res !! p) = idsOf ap p) ->
    default ∅ (owaspIdsPerPort (fold_left (portStep ap) l res) !! p) = idsOf ap p.
Proof.
  induction l as [|x l IH]; intros res Hpre Hin; cbn [fold_left].
  - destruct Hin as [[]|H]. exact H.
  - pose proof (portStep_ids ap res x p) as Hstep.
    apply IH; rewrite Hstep; destruct (decide _) as [[-> Hne]|Hno]; auto.
    destruct Hin as [[->|Hin]|H]; auto.
    right. destruct Hpre as [H|H]; [|exact H]. rewrite H.
    destruct (decide (idsOf ap p = ∅)) as [->|Hne]; [reflexivity|].
    exfalso. apply Hno. split; [reflexivity|exact Hne].
Qed.

(** The compliance identifiers recorded for a port of the pass are those
    carried by the structured findings of the port. *)
Lemma complianceIds_portAnalysis ap port id :
  In port (ports ap) ->
  (id ∈ complianceIds ap port <->
   exists f, In f (allFindings ap port) /\ carriedId f = Some id).
Proof.
  intros Hin. unfold complianceIds, portAnalysis.
  rewrite (portSteps_ids ap (ports ap) port emptyAnalysis).
  - apply elem_of_idsOf.
  - left. reflexivity.
  - left. exact Hin.
Qed.

End Compliance.

(** ** The filter *)

Section Filter.

Lemma gate_true (a b r : bool) :
  (if a && negb b then false else r) = true <->
  (a = false \/ b = true) /\ r = true.
Proof. destruct a, b, r; cbn; intuition discriminate. Qed.

Lemma nonEmpty_false (s : string) : nonEmpty s = false <-> s = EmptyString.
Proof. destruct s; cbn; split; congruence. Qed.

Lemma nonEmptySet_false (s : gset string) : nonEmptySet s = false <-> s = ∅.
Proof.
  unfold nonEmptySet. rewrite negb_false_iff, bool_decide_eq_true. reflexivity.
Qed.

Lemma some_id_shared (requested portIds : gset string) :
  existsb (fun id => bool_decide (id ∈ portIds)) (elements requested) = true <->
  exists id, id ∈ requested /\ id ∈ portIds.
Proof.
  rewrite existsb_exists. split.
  - intros (id & Hin & Hb). exists id. split.
    + apply elem_of_elements, list_elem_of_In, Hin.
    + apply bool_decide_eq_true in Hb. exact Hb.
  - intros (id & Hr & Hp). exists id. split.
    + apply list_elem_of_In, elem_of_elements, Hr.
    + apply bool_decide_eq_true, Hp.
Qed.

(** The callback of the filter is the conjunction of the four predicates. *)
Lemma keepPort_iff (ap : AggregatedPortsData) (q : Query) (port : Z) :
  keepPort ap (portAnalysis ap) q port = true <->
  textPredicate q port /\ severityPredicate ap q port
  /\ categoryPredicate ap q port /\ compliancePredicate ap q port.
Proof.
  unfold keepPort. rewrite !gate_true.
  rewrite nonEmpty_false, !nonEmptySet_false, includes_iff, bool_decide_eq_true.
  unfold textPredicate, severityPredicate, categoryPredicate,
    compliancePredicate, contains, dominantSeverity, complianceIds,
    hasServiceData, hasWebTestData.
  assert (Hcat :
    (bool_decide ("services" ∈ categoryFilter q)
       && bool_decide (is_Some (services ap !! port))
     || bool_decide ("web" ∈ categoryFilter q)
          && bool_decide (is_Some (webTests ap !! port))
     || bool_decide ("nodata" ∈ categoryFilter q)
          && negb (bool_decide (is_Some (services ap !! port))
                   || bool_decide (is_Some (webTests ap !! port)))) = true
    <-> ("services" ∈ categoryFilter q /\ is_Some (services ap !! port))
        \/ ("web" ∈ categoryFilter q /\ is_Some (webTests ap !! port))
        \/ ("nodata" ∈ categoryFilter q
            /\ ~ is_Some (services ap !! port)
            /\ ~ is_Some (webTests ap !! port))).
  { rewrite !orb_true_iff, !andb_true_iff, negb_true_iff, orb_false_iff.
    rewrite !bool_decide_eq_true, !bool_decide_eq_false. tauto. }
  assert (Hcomp :
    match owaspIdsPerPort (portAnalysis ap) !! port with
    | Some portOwasp =>
        existsb (fun id => bool_decide (id ∈ portOwasp)) (elements (owaspFilter q))
    | None => false
    end = true
    <-> exists id, id ∈ owaspFilter q
                   /\ id ∈ default ∅ (owaspIdsPerPort (portAnalysis ap) !! port)).
  { destruct (owaspIdsPerPort (portAnalysis ap) !! port) as [ids|]; cbn [default].
    - apply some_id_shared.
    - split; [discriminate|]. intros (id & _ & H).
      exfalso. revert H. apply not_elem_of_empty. }
  cbv zeta. rewrite Hcat, Hcomp. tauto.
Qed.

End Filter.

(** C7.  A port is in the filtered list exactly when it is a port of the
    pass and satisfies the text predicate, the severity predicate, the
    category predicate and the compliance predicate, all four together. *)
Theorem filteredPorts_iff (ap : AggregatedPortsData) (q : Query) (port : Z) :
  In port (filteredPorts ap q) <->
  In port (ports ap)
  /\ textPredicate q port
  /\ severityPredicate ap q port
  /\ categoryPredicate ap q port
  /\ compliancePredicate ap q port.
Proof.
  unfold filteredPorts. rewrite filter_In, keepPort_iff. reflexivity.
Qed.

(** With nothing requested the filter keeps every port, in place. *)
Lemma filteredPorts_empty_query (ap : AggregatedPortsData) (mode : SortMode) :
  filteredPorts ap (emptyQuery mode) = ports ap.
Proof.
  unfold filteredPorts. apply forallb_filter_id, forallb_forall.
  intros port _. apply keepPort_iff.
  repeat split; left; reflexivity.
Qed.

(** ** The sort *)

Section Sorting.

Context {A : Type} (cmp : A -> A -> Z).
Hypothesis cmp_total : forall a b, cmpLe cmp a b \/ cmpLe cmp b a.
Hypothesis cmp_trans : forall a b c, cmpLe cmp a b -> cmpLe cmp b c -> cmpLe cmp a c.

Lemma sortInsert_perm (x : A) (l : list A) :
  Permutation (x :: l) (sortInsert cmp x l).
Proof.
  induction l as [|y l IH]; cbn [sortInsert]; [apply Permutation_refl|].
  destruct (0 <? cmp y x)%Z; [apply Permutation_refl|].
  apply (perm_trans (perm_swap y x l)). apply perm_skip, IH.
Qed.

Lemma sortInsert_sorted (x : A) (l : list A) :
  StronglySorted (cmpLe cmp) l -> StronglySorted (cmpLe cmp) (sortInsert cmp x l).
Proof using cmp_total cmp_trans.
  induction l as [|y l IH]; intros Hs; cbn [sortInsert].
  - constructor; constructor.
  - apply StronglySorted_inv in Hs. destruct Hs as [Hl Hy].
    destruct (Z.ltb_spec 0 (cmp y x)) as [Hgt|Hle].
    + assert (Hxy : cmpLe cmp x y).
      { destruct (cmp_total x y) as [H|H]; [exact H|]. unfold cmpLe in H. lia. }
      constructor; [constructor; assumption|].
      constructor; [exact Hxy|].
      eapply List.Forall_impl; [|exact Hy]. intros z Hz. exact (cmp_trans x y z Hxy Hz).
    + constructor; [apply IH, Hl|].
      apply (Permutation_Forall (sortInsert_perm x l)).
      constructor; [exact Hle|exact Hy].
Qed.

Lemma jsSort_from (l acc : list A) :
  StronglySorted (cmpLe cmp) acc ->
  StronglySorted (cmpLe cmp) (fold_left (fun sorted x => sortInsert cmp x sorted) l acc)
  /\ Permutation (l ++ acc) (fold_left (fun sorted x => sortInsert cmp x sorted) l acc).
Proof using cmp_total cmp_trans.
  revert acc. induction l as [|x l IH]; intros acc Hs; cbn [fold_left app].
  - split; [exact Hs|apply Permutation_refl].
  - destruct (IH (sortInsert cmp x acc) (sortInsert_sorted x acc Hs)) as [H1 H2].
    split; [exact H1|].
    apply (perm_trans (Permutation_middle l acc x)).
    apply (perm_trans (Permutation_app_head l (sortInsert_perm x acc))).
    exact H2.
Qed.

(** The sort gives a sorted rearrangement of its input. *)
Lemma jsSort_sorted_perm (l : list A) :
  StronglySorted (cmpLe cmp) (jsSort cmp l) /\ Permutation l (jsSort cmp l).
Proof using cmp_total cmp_trans.
  unfold jsSort. destruct (jsSort_from l [] (SSorted_nil _)) as [H1 H2].
  split; [exact H1|]. rewrite app_nil_r in H2. exact H2.
Qed.

End Sorting.

Lemma sorted_weaken {A : Type} (R R' : A -> A -> Prop) (l : list A) :
  (forall a b, R a b -> R' a b) -> StronglySorted R l -> StronglySorted R' l.
Proof.
  intros HR. induction 1 as [|x l _ IH Hx]; constructor; [exact IH|].
  eapply List.Forall_impl; [|exact Hx]. intros y. apply HR.
Qed.

Section RiskOrder.

Variable ap : AggregatedPortsData.









End RiskOrder.

(** C8.  The program in numeric mode at a pass whose port list is not
    ascending: the ports come back in the order of the list, 443 before
    22, while the risk mode does order them. *)
Theorem numeric_mode_not_sorted :
  sortedPorts unsortedPorts (emptyQuery Numeric) = [443%Z; 22%Z]
  /\ ~ StronglySorted Z.le (sortedPorts unsortedPorts (emptyQuery Numeric))
  /\ sortedPorts unsortedPorts (emptyQuery Risk) = [22%Z; 443%Z].
Proof.
  split; [vm_compute; reflexivity|]. split; [|vm_compute; reflexivity].
  replace (sortedPorts unsortedPorts (emptyQuery Numeric)) with [443%Z; 22%Z]
    by (vm_compute; reflexivity).
  intros H. apply StronglySorted_inv in H. destruct H as [_ H].
  apply Forall_inv in H. lia.
Qed.

(** ** Scenarios of the specification *)

(** OpenSSH on port 22 with a finding of severity "high". *)
Example openssh_scenario :
  lines (normalizeProbeResult
           (JObj [ ("banner", JStr "OpenSSH 9.0p1");
                   ("findings",
                    JArr [JObj [("severity", JStr "high");
                                ("title", JStr "Weak MAC algorithm")]]) ]))
  = ["VULNERABILITY: [HIGH] Weak MAC algorithm"; "Banner: OpenSSH 9.0p1"]
  /\ severityMap (portAnalysis opensshPort) !! 22%Z = Some "HIGH"
  /\ findingCount (portAnalysis opensshPort) !! 22%Z = Some 1%Z
  /\ serviceLabel (portAnalysis opensshPort) !! 22%Z = Some (Named "SSH")
  /\ 22%Z ∉ nonStandard (portAnalysis opensshPort).
Proof.
  split; [reflexivity|]. split; [vm_compute; reflexivity|].
  split; [vm_compute; reflexivity|]. split; [vm_compute; reflexivity|].
  rewrite nonStandard_portAnalysis. intros [_ H]. vm_compute in H. discriminate H.
Qed.

(** Severity set CRITICAL on ports of severities HIGH, INFO and CRITICAL. *)
Example critical_only_scenario :
  map (dominantSeverity threePorts) (ports threePorts) = ["HIGH"; "INFO"; "CRITICAL"]
  /\ sortedPorts threePorts (criticalOnly Numeric) = [8080%Z]
  /\ sortedPorts threePorts (criticalOnly Risk) = [8080%Z]
  /\ sortedPorts threePorts (emptyQuery Risk) = [8080%Z; 21%Z; 80%Z].
Proof. repeat split; vm_compute; reflexivity. Qed.

(** * Further properties *)

Import SeverityLine ProbeResultBlock PortsPanel ShortTexts MoreNotions.

(** ** Text results: lines and their round trip *)

Section TextLines.

Lemma splitLines_noLF (s : string) :
  Forall (fun l => noLF l = true) (splitLines s).
Proof.
  induction s as [|c s IH]; [repeat constructor|].
  rewrite splitLines_step. destruct (Ascii.eqb c LF) eqn:Hc.
  - constructor; [reflexivity|exact IH].
  - destruct (splitLines s) as [|l ls]; [repeat constructor; cbn; rewrite Hc; reflexivity|].
    apply Forall_cons_1 in IH. destruct IH as [Hl Hls].
    constructor; [|exact Hls]. cbn [noLF]. rewrite Hc, Hl. reflexivity.
Qed.

Lemma splitLines_single (l : string) :
  noLF l = true -> splitLines l = [l].
Proof.
  induction l as [|c l IH]; [reflexivity|]. cbn [noLF]. intros H.
  apply andb_prop in H. destruct H as [Hc Hl]. apply negb_true_iff in Hc.
  rewrite splitLines_step, Hc, (IH Hl). reflexivity.
Qed.

Lemma splitLines_line_then (l rest : string) :
  noLF l = true ->
  splitLines (l ++ String LF rest) = l :: splitLines rest.
Proof.
  induction l as [|c l IH]; intros H.
  - rewrite append_nil, splitLines_step, Ascii.eqb_refl. reflexivity.
  - cbn [noLF] in H. apply andb_prop in H. destruct H as [Hc Hl].
    apply negb_true_iff in Hc.
    rewrite append_cons, splitLines_step, Hc, (IH Hl). reflexivity.
Qed.

Lemma concat_cons_cons (sep x y : string) (ls : list string) :
  String.concat sep (x :: y :: ls) = (x ++ sep ++ String.concat sep (y :: ls))%string.
Proof. reflexivity. Qed.

(** Joining lines with line feeds and splitting again gives the lines. *)
Lemma splitLines_join (l : string) (ls : list string) :
  Forall (fun x => noLF x = true) (l :: ls) ->
  splitLines (String.concat (String LF EmptyString) (l :: ls)) = l :: ls.
Proof.
  revert l. induction ls as [|y ls IH]; intros l H.
  - apply splitLines_single. apply Forall_cons_1 in H. tauto.
  - apply Forall_cons_1 in H. destruct H as [Hl Hrest].
    rewrite concat_cons_cons, append_cons, append_nil.
    rewrite (splitLines_line_then _ _ Hl), (IH y Hrest). reflexivity.
Qed.

Lemma filter_all_true {A : Type} (f : A -> bool) (l : list A) :
  (forall x, In x l -> f x = true) -> List.filter f l = l.
Proof.
  intros H. apply forallb_filter_id, forallb_forall, H.
Qed.

Lemma text_lines_kept (ls : list string) :
  (forall l, In l ls -> noLF l = true /\ nonEmpty (trim l) = true) ->
  List.filter (fun l => nonEmpty (trim l))
    (splitLines (String.concat (String LF EmptyString) ls)) = ls.
Proof.
  intros H. destruct ls as [|l ls]; [reflexivity|].
  rewrite splitLines_join.
  - apply filter_all_true. intros x Hx. apply H, Hx.
  - apply List.Forall_forall. intros x Hx. apply H, Hx.
Qed.

Lemma normalizeText_lines_ok (str : string) (l : string) :
  In l (lines (normalizeText str)) ->
  noLF l = true /\ nonEmpty (trim l) = true.
Proof.
  unfold normalizeText. cbn [lines]. intros H. apply filter_In in H.
  destruct H as [Hin Hne]. split; [|exact Hne].
  pose proof (splitLines_noLF str) as Hall.
  rewrite List.Forall_forall in Hall. apply Hall, Hin.
Qed.

End TextLines.

(** X1.  For a free-text input every display line is free of line feeds
    and is not blank. *)
Theorem text_lines_clean (result : JsVal) (l : string) :
  freeText result ->
  In l (lines (normalizeProbeResult result)) ->
  noLF l = true /\ allWhite l = false /\ l <> EmptyString.
Proof.
  intros Hfree Hin.
  assert (H : noLF l = true /\ nonEmpty (trim l) = true).
  { destruct result; try destruct Hfree;
      cbn [normalizeProbeResult] in Hin; exact (normalizeText_lines_ok _ _ Hin). }
  destruct H as [Hlf Hne]. split; [exact Hlf|].
  assert (Hw : allWhite l = false).
  { destruct (allWhite l) eqn:E; [|reflexivity].
    assert (Ht : trim l = EmptyString).
    { unfold trim. clear Hne Hlf Hin.
      assert (Hs : trimStart l = EmptyString).
      { induction l as [|c l IH]; [reflexivity|]. cbn [allWhite] in E.
        apply andb_prop in E. destruct E as [Hc Hl]. cbn [trimStart].
        rewrite Hc. apply IH, Hl. }
      rewrite Hs. reflexivity. }
    rewrite Ht in Hne. discriminate Hne. }
  split; [exact Hw|]. intros ->. discriminate Hw.
Qed.

Lemma text_lines_clean_witness :
  noLF "220 ready" = true /\ allWhite "220 ready" = false
  /\ "220 ready" <> EmptyString.
Proof.
  apply (text_lines_clean (JStr "
220 ready
   
250 ok") "220 ready").
  - exact I.
  - vm_compute. left. reflexivity.
Defined.

(** X2.  Flattening a free-text result with [probeResultToString] and
    normalising the text again gives the same lines, the same
    vulnerabilities and the same vulnerability flag. *)
Theorem text_round_trip (result : JsVal) :
  freeText result ->
  let again := normalizeProbeResult (JStr (probeResultToString result)) in
  lines again = lines (normalizeProbeResult result)
  /\ vulnerabilities again = vulnerabilities (normalizeProbeResult result)
  /\ hasVulnerability again = hasVulnerability (normalizeProbeResult result)
  /\ findings again = [].
Proof.
  intros Hfree.
  assert (Htext : exists str, normalizeProbeResult result = normalizeText str).
  { destruct result; try destruct Hfree; eexists; reflexivity. }
  destruct Htext as [str Hstr].
  cbv zeta. unfold probeResultToString. rewrite Hstr.
  cbn [normalizeProbeResult toString].
  assert (Hlines : lines (normalizeText
                            (String.concat (String LF EmptyString)
                               (lines (normalizeText str))))
                   = lines (normalizeText str)).
  { unfold normalizeText at 1. cbn [lines].
    apply text_lines_kept. intros l. apply normalizeText_lines_ok. }
  assert (Hv : forall s, vulnerabilities (normalizeText s)
                         = List.filter (fun l => includes l "VULNERABILITY")
                                       (lines (normalizeText s)))
    by reflexivity.
  split; [exact Hlines|]. split; [rewrite !Hv, Hlines; reflexivity|].
  split; [|reflexivity].
  rewrite !normalizeText_vulnerability, !Hv, Hlines. reflexivity.
Qed.

Lemma text_round_trip_witness :
  lines (normalizeProbeResult
           (JStr (probeResultToString (JStr "
SSH-2.0-OpenSSH_9.0

VULNERABILITY: weak kex
"))))
  = ["SSH-2.0-OpenSSH_9.0"; "VULNERABILITY: weak kex"].
Proof.
  rewrite (proj1 (text_round_trip (JStr "
SSH-2.0-OpenSSH_9.0

VULNERABILITY: weak kex
") I)).
  vm_compute. reflexivity.
Defined.

(** ** The structured branch only appends *)

Section Growth.

Lemma grows_refl acc : grows acc acc.
Proof. repeat split; auto. Qed.

Lemma grows_trans a b c : grows a b -> grows b c -> grows a c.
Proof.
  intros (L1 & V1 & F1) (L2 & V2 & F2). repeat split; auto. congruence.
Qed.

Lemma grows_pushLine acc l : grows acc (pushLine acc l).
Proof.
  repeat split; auto. intros x Hx. cbn [pushLine acc_lines].
  apply in_or_app. left. exact Hx.
Qed.

Lemma grows_pushLines acc ls : grows acc (pushLines acc ls).
Proof.
  unfold pushLines. revert acc. induction ls as [|l ls IH]; intros acc;
    [apply grows_refl|].
  cbn [fold_left]. eapply grows_trans; [apply grows_pushLine|apply IH].
Qed.

Lemma grows_pushVuln acc v l : grows acc (pushVuln acc v l).
Proof.
  repeat split; cbn [pushVuln acc_lines acc_vulns]; intros x Hx;
    apply in_or_app; left; exact Hx.
Qed.

Lemma grows_textField k lab obj acc : grows acc (textField k lab obj acc).
Proof.
  unfold textField. destruct (truthy (get obj k));
    [apply grows_pushLine|apply grows_refl].
Qed.

Lemma grows_listField k lab obj acc : grows acc (listField k lab obj acc).
Proof.
  unfold listField. destruct (nonEmptyArray (get obj k));
    [apply grows_pushLine|apply grows_refl].
Qed.

Lemma grows_flagField k line obj acc : grows acc (flagField k line obj acc).
Proof.
  unfold flagField. destruct (get obj k) as [| |[|]| | | |];
    first [apply grows_pushLine|apply grows_refl].
Qed.

Lemma grows_yesNoField k lab obj acc : grows acc (yesNoField k lab obj acc).
Proof.
  unfold yesNoField. destruct (get obj k);
    first [apply grows_pushLine|apply grows_refl].
Qed.

Lemma grows_directoryListing obj acc : grows acc (directoryListing obj acc).
Proof.
  unfold directoryListing. destruct (nonEmptyArray (get obj "directory_listing"));
    [|apply grows_refl].
  eapply grows_trans; [apply grows_pushLine|apply grows_pushLines].
Qed.

Lemma grows_weakAlgorithms obj acc : grows acc (weakAlgorithms obj acc).
Proof.
  unfold weakAlgorithms. destruct (nonEmptyArray (get obj "weak_algorithms"));
    [apply grows_pushLines|apply grows_refl].
Qed.

Lemma grows_dbSize obj acc : grows acc (dbSize obj acc).
Proof.
  unfold dbSize. destruct (get obj "db_size");
    first [apply grows_pushLine|apply grows_refl].
Qed.

Lemma grows_dangerousMethods obj acc : grows acc (dangerousMethods obj acc).
Proof.
  unfold dangerousMethods. destruct (nonEmptyArray (get obj "dangerous_methods"));
    [|apply grows_refl].
  destruct (acc_findings acc); [apply grows_pushLine|apply grows_refl].
Qed.

Lemma grows_bannerLine b acc : grows acc (bannerLine b acc).
Proof.
  unfold bannerLine. destruct b as [b|]; [|apply grows_refl].
  destruct (nonEmpty b); [apply grows_pushLine|apply grows_refl].
Qed.

Lemma grows_legacyStep acc v : grows acc (legacyStep acc v).
Proof.
  unfold legacyStep. destruct (_ && _); [apply grows_pushVuln|apply grows_refl].
Qed.

Lemma grows_otherStep acc e : grows acc (otherStep acc e).
Proof.
  unfold otherStep. destruct e as [key val].
  destruct (_ && _); [|apply grows_refl].
  destruct (includes _ "VULNERABILITY"); [|apply grows_pushLine].
  repeat split; cbn [pushLine acc_lines acc_vulns acc_findings];
    intros x Hx; apply in_or_app; left; exact Hx.
Qed.

Lemma grows_fold {A : Type} (step : Acc -> A -> Acc) (xs : list A) :
  (forall acc x, grows acc (step acc x)) ->
  forall acc, grows acc (fold_left step xs acc).
Proof.
  intros Hstep. induction xs as [|x xs IH]; intros acc; [apply grows_refl|].
  cbn [fold_left]. eapply grows_trans; [apply Hstep|apply IH].
Qed.

Lemma grows_legacyBlock obj acc : grows acc (legacyBlock obj acc).
Proof.
  unfold legacyBlock. destruct (get obj "vulnerabilities");
    try apply grows_refl.
  apply grows_fold, grows_legacyStep.
Qed.

Ltac grows_chain :=
  repeat first
    [ apply grows_refl
    | eapply grows_trans;
      [|first [ apply grows_textField | apply grows_listField
              | apply grows_flagField | apply grows_yesNoField
              | apply grows_directoryListing | apply grows_weakAlgorithms
              | apply grows_dbSize | apply grows_dangerousMethods
              | apply grows_bannerLine ]] ].

Lemma grows_beforeOther obj acc :
  exists mid, afterLegacy obj acc = fold_left otherStep obj mid /\ grows acc mid.
Proof.
  unfold afterLegacy. eexists. split; [reflexivity|]. grows_chain.
Qed.

Lemma grows_afterLegacy obj acc : grows acc (afterLegacy obj acc).
Proof.
  destruct (grows_beforeOther obj acc) as (mid & -> & Hmid).
  eapply grows_trans; [exact Hmid|]. apply grows_fold, grows_otherStep.
Qed.

Lemma grows_after_findings obj acc :
  grows acc (afterLegacy obj
               (legacyBlock obj
                  (listField "auth_methods" "Auth methods: " obj
                     (bannerLine (bannerOf obj) acc)))).
Proof.
  eapply grows_trans; [apply grows_bannerLine|].
  eapply grows_trans; [apply grows_listField|].
  eapply grows_trans; [apply grows_legacyBlock|apply grows_afterLegacy].
Qed.

End Growth.

(** ** Findings and other fields in the lines *)

Section Rendering.

Lemma findingStep_skip_iff f :
  negb (typeofObject f) || isNull f = negb (parsedEntry f).
Proof. unfold parsedEntry. destruct (typeofObject f), (isNull f); reflexivity. Qed.

Lemma findingSteps_findings fs acc :
  acc_findings (fold_left findingStep fs acc) =
  acc_findings acc ++ map parseFinding (List.filter parsedEntry fs).
Proof.
  revert acc. induction fs as [|f fs IH]; intros acc.
  - cbn. rewrite app_nil_r. reflexivity.
  - cbn [fold_left List.filter]. rewrite IH. unfold findingStep.
    rewrite findingStep_skip_iff.
    destruct (parsedEntry f); cbn [negb]; [|reflexivity].
    destruct (isVulnSeverity (severity (parseFinding f)));
      cbn [acc_findings map]; rewrite <- app_assoc; reflexivity.
Qed.

Lemma findingStep_rendered acc f :
  findingsRendered acc -> findingsRendered (findingStep acc f).
Proof.
  intros I. unfold findingStep.
  destruct (negb (typeofObject f) || isNull f); [exact I|].
  destruct (isVulnSeverity (severity (parseFinding f))) eqn:V;
    intros p Hp; cbn [acc_findings acc_lines acc_vulns] in *;
    apply in_app_or in Hp; destruct Hp as [Hp|[<-|[]]].
  - destruct (I p Hp) as [Hl Hv]. split.
    + apply in_or_app. left. exact Hl.
    + intros H. apply in_or_app. left. apply Hv, H.
  - unfold renderedLine. rewrite V. split.
    + apply in_or_app. right. left. reflexivity.
    + intros _. apply in_or_app. right. left. reflexivity.
  - destruct (I p Hp) as [Hl Hv]. split; [|exact Hv].
    apply in_or_app. left. exact Hl.
  - unfold renderedLine. rewrite V. split; [|congruence].
    apply in_or_app. right. left. reflexivity.
Qed.

Lemma findingSteps_rendered fs acc :
  findingsRendered acc -> findingsRendered (fold_left findingStep fs acc).
Proof.
  revert acc. induction fs as [|f fs IH]; intros acc I; [exact I|].
  cbn [fold_left]. apply IH, findingStep_rendered, I.
Qed.

Lemma grows_rendered acc acc' :
  grows acc acc' -> findingsRendered acc -> findingsRendered acc'.
Proof.
  intros (L & V & F) I p Hp. rewrite F in Hp. destruct (I p Hp) as [Hl Hv].
  split; [apply L, Hl|]. intros H. apply V, Hv, H.
Qed.

Lemma structuredBody_rendered obj : findingsRendered (structuredBody obj).
Proof.
  unfold structuredBody, beforeLegacy.
  eapply grows_rendered; [apply grows_after_findings|].
  unfold findingsBlock. destruct (nonEmptyArray (get obj "findings")) as [fs|];
    [apply findingSteps_rendered|]; intros p [].
Qed.

Lemma structuredBody_findings obj :
  acc_findings (structuredBody obj) =
  map parseFinding (List.filter parsedEntry (findingEntries obj)).
Proof.
  unfold structuredBody.
  rewrite afterLegacy_findings, legacyBlock_findings.
  unfold beforeLegacy.
  rewrite (proj1 (keeps_listField _ _ obj _)), (proj1 (keeps_bannerLine _ _)).
  unfold findingsBlock, findingEntries.
  destruct (nonEmptyArray (get obj "findings")) as [fs|]; [|reflexivity].
  rewrite findingSteps_findings. reflexivity.
Qed.

Lemma otherSteps_show entries acc key val :
  In (key, val) entries ->
  existsb (String.eqb key) handled = false ->
  nullish val = false ->
  In (key ++ ": " ++ valueText val)%string
     (acc_lines (fold_left otherStep entries acc)).
Proof.
  intros Hin Hk Hv. revert acc.
  induction entries as [|e entries IH]; intros acc; [destruct Hin|].
  cbn [fold_left]. destruct Hin as [->|Hin]; [|apply IH, Hin].
  apply (proj1 (grows_fold otherStep entries grows_otherStep _)).
  unfold otherStep. rewrite Hk, Hv. cbn [negb andb]. fold (valueText val).
  destruct (includes (valueText val) "VULNERABILITY");
    cbn [pushLine acc_lines]; apply in_or_app; right; left; reflexivity.
Qed.

Lemma get_not_silent obj k :
  (forall e, In e obj -> In (fst e) silentKeys) ->
  existsb (String.eqb k) silentKeys = false ->
  get obj k = JUndefined.
Proof.
  intros Hall Hk. induction obj as [|[k' v] obj IH]; [reflexivity|].
  cbn [get]. destruct (String.eqb_spec k' k) as [->|Hne].
  - assert (Hin : In k silentKeys) by (apply (Hall (k, v)); left; reflexivity).
    assert (Ht : existsb (String.eqb k) silentKeys = true).
    { apply existsb_exists. exists k. split; [exact Hin|apply String.eqb_refl]. }
    congruence.
  - apply IH. intros e He. apply Hall. right. exact He.
Qed.

Lemma silent_is_handled k :
  In k silentKeys -> existsb (String.eqb k) handled = true.
Proof.
  unfold silentKeys. cbn [In].
  intros H. repeat (destruct H as [<-|H]; [reflexivity|]). destruct H.
Qed.

Lemma otherSteps_silent obj acc :
  (forall e, In e obj -> In (fst e) silentKeys) ->
  fold_left otherStep obj acc = acc.
Proof.
  revert acc. induction obj as [|[k v] obj IH]; intros acc Hall; [reflexivity|].
  cbn [fold_left]. unfold otherStep at 2.
  rewrite (silent_is_handled k) by (apply (Hall (k, v)); left; reflexivity).
  cbn [negb andb]. apply IH. intros e He. apply Hall. right. exact He.
Qed.

End Rendering.

(** X3.  In a structured result without error the findings are the
    entries of [obj.findings] that are objects, parsed in order; every
    such entry has the line of its finding among the lines, and the label
    of its finding among the vulnerabilities when it is of vulnerability
    grade. *)
Theorem findings_parsed_and_rendered (obj : list (string * JsVal)) :
  truthy (get obj "error") = false ->
  findings (normalizeProbeResult (JObj obj))
  = map parseFinding (List.filter parsedEntry (findingEntries obj))
  /\ (forall f, In f (findingEntries obj) -> parsedEntry f = true ->
                In (parseFinding f) (findings (normalizeProbeResult (JObj obj)))
                /\ In (renderedLine (parseFinding f))
                      (lines (normalizeProbeResult (JObj obj)))
                /\ (isVulnSeverity (severity (parseFinding f)) = true ->
                    In (vulnLabel (parseFinding f))
                       (vulnerabilities (normalizeProbeResult (JObj obj))))).
Proof.
  intros E. unfold normalizeProbeResult, normalizeObject. rewrite E.
  cbn [findings lines vulnerabilities].
  split; [apply structuredBody_findings|].
  intros f Hf Hp.
  assert (Hin : In (parseFinding f) (acc_findings (structuredBody obj))).
  { rewrite structuredBody_findings. apply in_map, filter_In. split; assumption. }
  split; [exact Hin|].
  apply (structuredBody_rendered obj (parseFinding f) Hin).
Qed.

Lemma findings_parsed_and_rendered_witness :
  findings (normalizeProbeResult
              (JObj [ ("banner", JStr "vsFTPd 3.0.3");
                      ("findings",
                       JArr [ JStr "noise";
                              JObj [("severity", JStr "low");
                                    ("title", JStr "Banner disclosed")] ]) ]))
  = [ {| severity := "LOW"; title := "Banner disclosed";
         description := None; evidence := None; remediation := None;
         owasp_id := None; cwe_id := None; confidence := None |} ]
  /\ In "[LOW] Banner disclosed"
        (lines (normalizeProbeResult
                  (JObj [ ("banner", JStr "vsFTPd 3.0.3");
                          ("findings",
                           JArr [ JStr "noise";
                                  JObj [("severity", JStr "low");
                                        ("title", JStr "Banner disclosed")] ]) ]))).
Proof.
  pose proof (findings_parsed_and_rendered
                [ ("banner", JStr "vsFTPd 3.0.3");
                  ("findings",
                   JArr [ JStr "noise";
                          JObj [("severity", JStr "low");
                                ("title", JStr "Banner disclosed")] ]) ]
                eq_refl) as [Hf Hr].
  split.
  - rewrite Hf. reflexivity.
  - apply (Hr (JObj [("severity", JStr "low"); ("title", JStr "Banner disclosed")])).
    + right. left. reflexivity.
    + reflexivity.
Defined.

(** X4.  In a structured result without error, a field whose name has no
    renderer of its own and whose value is not null or undefined is shown
    as the line "name: value". *)
Theorem unknown_field_shown (obj : list (string * JsVal)) (key : string) (val : JsVal) :
  truthy (get obj "error") = false ->
  In (key, val) obj ->
  existsb (String.eqb key) handled = false ->
  nullish val = false ->
  In (key ++ ": " ++ valueText val)%string
     (lines (normalizeProbeResult (JObj obj))).
Proof.
  intros E Hin Hk Hv. unfold normalizeProbeResult, normalizeObject. rewrite E.
  cbn [lines]. unfold structuredBody.
  destruct (grows_beforeOther obj (legacyBlock obj (beforeLegacy obj)))
    as (mid & -> & _).
  apply otherSteps_show; assumption.
Qed.

Lemma unknown_field_shown_witness :
  In "queue_depth: 17" (lines (normalizeProbeResult (JObj customField))).
Proof.
  apply (unknown_field_shown customField "queue_depth" (JNum 17)).
  - reflexivity.
  - right. left. reflexivity.
  - reflexivity.
  - reflexivity.
Defined.

(** X5.  A structured result that only holds fields of the silent kind
    (starttls, open_relay, vrfy_enabled, expn_enabled, protocol_byte,
    security_types, vpn_endpoints) normalises to the empty result: these
    fields are never shown. *)
Theorem silent_fields_give_nothing (obj : list (string * JsVal)) :
  (forall e, In e obj -> In (fst e) silentKeys) ->
  normalizeProbeResult (JObj obj) = emptyResult.
Proof.
  intros Hall.
  assert (Hget : forall k, existsb (String.eqb k) silentKeys = false ->
                           get obj k = JUndefined)
    by (intros k; apply get_not_silent, Hall).
  assert (Htext : forall k lab acc,
             existsb (String.eqb k) silentKeys = false ->
             textField k lab obj acc = acc)
    by (intros k lab acc Hk; unfold textField; rewrite (Hget k Hk); reflexivity).
  assert (Hlist : forall k lab acc,
             existsb (String.eqb k) silentKeys = false ->
             listField k lab obj acc = acc)
    by (intros k lab acc Hk; unfold listField; rewrite (Hget k Hk); reflexivity).
  assert (Hflag : forall k line acc,
             existsb (String.eqb k) silentKeys = false ->
             flagField k line obj acc = acc)
    by (intros k line acc Hk; unfold flagField; rewrite (Hget k Hk); reflexivity).
  assert (Hyn : forall k lab acc,
             existsb (String.eqb k) silentKeys = false ->
             yesNoField k lab obj acc = acc)
    by (intros k lab acc Hk; unfold yesNoField; rewrite (Hget k Hk); reflexivity).
  assert (Hdir : forall acc, directoryListing obj acc = acc)
    by (intros acc; unfold directoryListing; rewrite Hget by reflexivity; reflexivity).
  assert (Hweak : forall acc, weakAlgorithms obj acc = acc)
    by (intros acc; unfold weakAlgorithms; rewrite Hget by reflexivity; reflexivity).
  assert (Hdb : forall acc, dbSize obj acc = acc)
    by (intros acc; unfold dbSize; rewrite Hget by reflexivity; reflexivity).
  assert (Hdm : forall acc, dangerousMethods obj acc = acc)
    by (intros acc; unfold dangerousMethods; rewrite Hget by reflexivity; reflexivity).
  assert (Hafter : forall acc, afterLegacy obj acc = acc).
  { intros acc. unfold afterLegacy.
    repeat first
      [ rewrite Hlist by reflexivity | rewrite Htext by reflexivity
      | rewrite Hflag by reflexivity | rewrite Hyn by reflexivity
      | rewrite Hdir | rewrite Hweak | rewrite Hdb | rewrite Hdm ].
    apply otherSteps_silent, Hall. }
  assert (Hlegacy : forall acc, legacyBlock obj acc = acc)
    by (intros acc; unfold legacyBlock; rewrite Hget by reflexivity; reflexivity).
  assert (Hbanner : bannerOf obj = None)
    by (unfold bannerOf; rewrite Hget by reflexivity; reflexivity).
  assert (Hbefore : beforeLegacy obj
                    = {| acc_lines := []; acc_findings := []; acc_vulns := [] |}).
  { unfold beforeLegacy, findingsBlock. rewrite Hbanner, Hlist by reflexivity.
    rewrite Hget by reflexivity. reflexivity. }
  unfold normalizeProbeResult, normalizeObject, structuredBody.
  rewrite Hget by reflexivity. cbn [truthy].
  rewrite Hafter, Hlegacy, Hbefore, Hbanner. reflexivity.
Qed.

Lemma silent_fields_give_nothing_witness :
  normalizeProbeResult (JObj smtpFlags) = emptyResult.
Proof.
  apply silent_fields_give_nothing. unfold smtpFlags, silentKeys. cbn [In].
  intros e [<-|[<-|[<-|[]]]]; cbn [fst]; tauto.
Defined.

(** ** Vulnerabilities and the styling of lines *)

Section Styling.

Lemma marker_styled (line : string) :
  includes line "VULNERABILITY" = true -> severityLineClass line <> EmptyString.
Proof.
  intros H. unfold severityLineClass. rewrite H.
  repeat match goal with
         | |- context [if includes line ?m then _ else _] =>
             destruct (includes line m)
         end; discriminate.
Qed.

Lemma vulnLabel_marked p : includes (vulnLabel p) "VULNERABILITY" = true.
Proof.
  apply includes_iff. exists EmptyString, (": [" ++ severity p ++ "] " ++ title p)%string.
  reflexivity.
Qed.

Lemma legacyLine_marked vs : includes ("VULNERABILITY: " ++ vs) "VULNERABILITY" = true.
Proof.
  apply includes_iff. exists EmptyString, (": " ++ vs)%string. reflexivity.
Qed.

Lemma shown_weaken ls ls' vs :
  (forall l, In l ls -> In l ls') -> vulnsShown ls vs -> vulnsShown ls' vs.
Proof.
  intros Hsub H v Hv. destruct (H v Hv) as (line & Hl & Hi).
  exists line. split; [apply Hsub, Hl|exact Hi].
Qed.

Lemma shown_push ls vs v line :
  includes line v = true -> includes line "VULNERABILITY" = true ->
  vulnsShown ls vs -> vulnsShown (ls ++ [line]) (vs ++ [v]).
Proof.
  intros Hv Hm H x Hx. apply in_app_or in Hx. destruct Hx as [Hx|[<-|[]]].
  - destruct (H x Hx) as (l & Hl & Hi). exists l.
    split; [apply in_or_app; left; exact Hl|exact Hi].
  - exists line. split; [apply in_or_app; right; left; reflexivity|tauto].
Qed.

Lemma accShown_quiet acc acc' :
  grows acc acc' -> acc_vulns acc' = acc_vulns acc -> accShown acc -> accShown acc'.
Proof.
  intros (L & _ & _) V H. unfold accShown. rewrite V.
  exact (shown_weaken _ _ _ L H).
Qed.

Lemma accShown_findingStep acc f : accShown acc -> accShown (findingStep acc f).
Proof.
  intros H. unfold findingStep.
  destruct (negb (typeofObject f) || isNull f); [exact H|].
  destruct (isVulnSeverity (severity (parseFinding f))).
  - apply shown_push; [apply includes_refl|apply vulnLabel_marked|exact H].
  - unfold accShown. cbn [acc_lines acc_vulns].
    eapply shown_weaken; [|exact H]. intros l Hl. apply in_or_app. left. exact Hl.
Qed.

Lemma accShown_legacyStep acc v : accShown acc -> accShown (legacyStep acc v).
Proof.
  intros H. unfold legacyStep. destruct (_ && _); [|exact H].
  apply shown_push; [apply includes_prefixed|apply legacyLine_marked|exact H].
Qed.

Lemma accShown_otherStep acc e : accShown acc -> accShown (otherStep acc e).
Proof.
  intros H. unfold otherStep. destruct e as [key val].
  destruct (_ && _); [|exact H]. fold (valueText val).
  destruct (includes (valueText val) "VULNERABILITY") eqn:E.
  - unfold accShown. cbn [pushLine acc_lines acc_vulns].
    assert (Hi : includes (key ++ ": " ++ valueText val) (valueText val) = true).
    { rewrite <- append_assoc. apply includes_prefixed. }
    apply shown_push; [exact Hi| |exact H].
    exact (includes_trans _ _ _ Hi E).
  - unfold accShown. cbn [pushLine acc_lines acc_vulns].
    eapply shown_weaken; [|exact H]. intros l Hl. apply in_or_app. left. exact Hl.
Qed.

Lemma accShown_fold {A : Type} (step : Acc -> A -> Acc) (xs : list A) :
  (forall acc x, accShown acc -> accShown (step acc x)) ->
  forall acc, accShown acc -> accShown (fold_left step xs acc).
Proof.
  intros Hstep. induction xs as [|x xs IH]; intros acc H; [exact H|].
  cbn [fold_left]. apply IH, Hstep, H.
Qed.

Lemma accShown_textField k lab obj acc :
  accShown acc -> accShown (textField k lab obj acc).
Proof.
  apply accShown_quiet; [apply grows_textField|apply (proj2 (keeps_textField k lab obj acc))].
Qed.

Lemma accShown_listField k lab obj acc :
  accShown acc -> accShown (listField k lab obj acc).
Proof.
  apply accShown_quiet; [apply grows_listField|apply (proj2 (keeps_listField k lab obj acc))].
Qed.

Lemma accShown_flagField k line obj acc :
  accShown acc -> accShown (flagField k line obj acc).
Proof.
  apply accShown_quiet; [apply grows_flagField|apply (proj2 (keeps_flagField k line obj acc))].
Qed.

Lemma accShown_yesNoField k lab obj acc :
  accShown acc -> accShown (yesNoField k lab obj acc).
Proof.
  apply accShown_quiet; [apply grows_yesNoField|apply (proj2 (keeps_yesNoField k lab obj acc))].
Qed.

Lemma accShown_structuredBody obj : accShown (structuredBody obj).
Proof.
  unfold structuredBody, afterLegacy.
  apply accShown_fold; [apply accShown_otherStep|].
  repeat first
    [ apply accShown_textField | apply accShown_listField
    | apply accShown_flagField | apply accShown_yesNoField
    | apply (accShown_quiet _ _ (grows_directoryListing obj _)
               (proj2 (keeps_directoryListing obj _)))
    | apply (accShown_quiet _ _ (grows_weakAlgorithms obj _)
               (proj2 (keeps_weakAlgorithms obj _)))
    | apply (accShown_quiet _ _ (grows_dbSize obj _)
               (proj2 (keeps_dbSize obj _)))
    | apply (accShown_quiet _ _ (grows_dangerousMethods obj _)
               (proj2 (keeps_dangerousMethods obj _))) ].
  unfold legacyBlock.
  assert (Hbefore : accShown (beforeLegacy obj)).
  { unfold beforeLegacy. apply accShown_listField.
    apply (accShown_quiet _ _ (grows_bannerLine _ _) (proj2 (keeps_bannerLine _ _))).
    unfold findingsBlock.
    destruct (nonEmptyArray (get obj "findings")) as [fs|];
      [apply accShown_fold; [apply accShown_findingStep|]|]; intros v []. }
  destruct (get obj "vulnerabilities"); try exact Hbefore.
  apply accShown_fold; [apply accShown_legacyStep|exact Hbefore].
Qed.

Lemma bracket_in_rendered p :
  includes (renderedLine p) ("[" ++ severity p ++ "]") = true.
Proof.
  apply includes_iff. unfold renderedLine, vulnLabel, plainLabel.
  destruct (isVulnSeverity (severity p)).
  - exists "VULNERABILITY: ", (" " ++ title p)%string.
    rewrite !append_assoc. reflexivity.
  - exists EmptyString, (" " ++ title p)%string.
    rewrite !append_assoc. reflexivity.
Qed.

End Styling.

(** For any input, every entry of [vulnerabilities] is mentioned by a line
    that carries a marker. *)
Lemma vulnsShown_normalize (result : JsVal) :
  vulnsShown (lines (normalizeProbeResult result))
             (vulnerabilities (normalizeProbeResult result)).
Proof.
  assert (Htext : forall str,
             vulnsShown (lines (normalizeText str)) (vulnerabilities (normalizeText str))).
  { intros str x Hx. unfold normalizeText in *. cbn [lines vulnerabilities] in *.
    apply filter_In in Hx. destruct Hx as [Hin Hm].
    exists x. split; [exact Hin|]. split; [apply includes_refl|exact Hm]. }
  destruct result as [| |b|n|s|items|obj]; cbn [normalizeProbeResult];
    try apply Htext; try (intros x []).
  unfold normalizeObject. destruct (truthy (get obj "error"));
    cbn [lines vulnerabilities]; [intros x []|].
  apply accShown_structuredBody.
Qed.

(** A result flagged as vulnerable has a display line. *)
Lemma vulnerable_has_line (result : JsVal) :
  hasVulnerability (normalizeProbeResult result) = true ->
  lines (normalizeProbeResult result) <> [].
Proof.
  intros Hv.
  assert (Hlen : (0 <? length (vulnerabilities (normalizeProbeResult result)))%nat = true).
  { rewrite <- Hv. symmetry.
    destruct result; try reflexivity;
      try (unfold normalizeProbeResult; apply normalizeText_vulnerability).
    unfold normalizeProbeResult, normalizeObject.
    destruct (truthy (get fields "error")); reflexivity. }
  destruct (vulnerabilities (normalizeProbeResult result)) as [|v vs] eqn:E;
    [discriminate Hlen|].
  destruct (vulnsShown_normalize result v) as (line & Hl & _).
  { rewrite E. left. reflexivity. }
  intros Hnil. rewrite Hnil in Hl. destruct Hl.
Qed.

(** X6.  Every entry of [vulnerabilities], for any input, is mentioned by
    a display line that [severityLineClass] styles (its class is not
    empty). *)
Theorem vulnerabilities_shown_styled (result : JsVal) (v : string) :
  In v (vulnerabilities (normalizeProbeResult result)) ->
  exists line,
    In line (lines (normalizeProbeResult result))
    /\ includes line v = true
    /\ severityLineClass line <> EmptyString.
Proof.
  intros Hv. destruct (vulnsShown_normalize result v Hv) as (line & Hl & Hi & Hm).
  exists line. split; [exact Hl|]. split; [exact Hi|apply marker_styled, Hm].
Qed.

Lemma vulnerabilities_shown_styled_witness :
  exists line,
    In line (lines (normalizeProbeResult
                      (JObj [("notes", JStr "VULNERABILITY in TLS stack")])))
    /\ includes line "VULNERABILITY in TLS stack" = true
    /\ severityLineClass line <> EmptyString.
Proof.
  apply (vulnerabilities_shown_styled
           (JObj [("notes", JStr "VULNERABILITY in TLS stack")])).
  vm_compute. left. reflexivity.
Defined.

(** X7.  The line rendered for a finding whose severity is one of the five
    levels is styled with the class of that level or of a more severe one
    (a marker of a more severe level in the title takes over). *)
Theorem finding_line_class (p : ParsedFinding) :
  In (severity p) SEVERITY_LEVELS ->
  exists sev,
    In sev SEVERITY_LEVELS
    /\ (rankOf sev <= rankOf (severity p))%Z
    /\ severityLineClass (renderedLine p) = levelClass sev
    /\ levelClass sev <> EmptyString.
Proof.
  intros Hsev. pose proof (bracket_in_rendered p) as Hb.
  unfold SEVERITY_LEVELS in Hsev. cbn [In] in Hsev.
  set (line := renderedLine p) in *.
  assert (Hc : includes line "[CRITICAL]" = true ->
               exists sev, In sev SEVERITY_LEVELS /\ (rankOf sev <= 0)%Z
                           /\ severityLineClass line = levelClass sev
                           /\ levelClass sev <> EmptyString).
  { intros H. exists "CRITICAL". unfold severityLineClass. rewrite H.
    split; [left; reflexivity|]. split; [vm_compute; discriminate|].
    split; [reflexivity|discriminate]. }
  assert (Hh : includes line "[HIGH]" = true ->
               exists sev, In sev SEVERITY_LEVELS /\ (rankOf sev <= 1)%Z
                           /\ severityLineClass line = levelClass sev
                           /\ levelClass sev <> EmptyString).
  { intros H. destruct (includes line "[CRITICAL]") eqn:E1.
    - destruct (Hc eq_refl) as (s & ? & ? & ? & ?). exists s. repeat split; auto. lia.
    - exists "HIGH". unfold severityLineClass. rewrite E1, H.
      split; [right; left; reflexivity|]. split; [vm_compute; discriminate|].
      split; [reflexivity|discriminate]. }
  assert (Hm : includes line "[MEDIUM]" = true ->
               exists sev, In sev SEVERITY_LEVELS /\ (rankOf sev <= 2)%Z
                           /\ severityLineClass line = levelClass sev
                           /\ levelClass sev <> EmptyString).
  { intros H. destruct (includes line "[HIGH]") eqn:E2.
    - destruct (Hh eq_refl) as (s & ? & ? & ? & ?). exists s. repeat split; auto. lia.
    - destruct (includes line "[CRITICAL]") eqn:E1.
      + destruct (Hc eq_refl) as (s & ? & ? & ? & ?). exists s. repeat split; auto. lia.
      + exists "MEDIUM". unfold severityLineClass. rewrite E1, E2, H.
        split; [right; right; left; reflexivity|]. split; [vm_compute; discriminate|].
        split; [reflexivity|discriminate]. }
  assert (Hl : includes line "[LOW]" = true ->
               exists sev, In sev SEVERITY_LEVELS /\ (rankOf sev <= 3)%Z
                           /\ severityLineClass line = levelClass sev
                           /\ levelClass sev <> EmptyString).
  { intros H. destruct (includes line "[MEDIUM]") eqn:E3.
    - destruct (Hm eq_refl) as (s & ? & ? & ? & ?). exists s. repeat split; auto. lia.
    - destruct (includes line "[HIGH]") eqn:E2.
      + destruct (Hh eq_refl) as (s & ? & ? & ? & ?). exists s. repeat split; auto. lia.
      + destruct (includes line "[CRITICAL]") eqn:E1.
        * destruct (Hc eq_refl) as (s & ? & ? & ? & ?). exists s. repeat split; auto. lia.
        * exists "LOW". unfold severityLineClass. rewrite E1, E2, E3, H.
          split; [right; right; right; left; reflexivity|].
          split; [vm_compute; discriminate|].
          split; [reflexivity|discriminate]. }
  assert (Hi : includes line "[INFO]" = true ->
               exists sev, In sev SEVERITY_LEVELS /\ (rankOf sev <= 4)%Z
                           /\ severityLineClass line = levelClass sev
                           /\ levelClass sev <> EmptyString).
  { intros H. destruct (includes line "[LOW]") eqn:E4.
    - destruct (Hl eq_refl) as (s & ? & ? & ? & ?). exists s. repeat split; auto. lia.
    - destruct (includes line "[MEDIUM]") eqn:E3.
      + destruct (Hm eq_refl) as (s & ? & ? & ? & ?). exists s. repeat split; auto. lia.
      + destruct (includes line "[HIGH]") eqn:E2.
        * destruct (Hh eq_refl) as (s & ? & ? & ? & ?). exists s. repeat split; auto. lia.
        * destruct (includes line "[CRITICAL]") eqn:E1.
          -- destruct (Hc eq_refl) as (s & ? & ? & ? & ?). exists s. repeat split; auto. lia.
          -- exists "INFO". unfold severityLineClass. rewrite E1, E2, E3, E4, H.
             split; [do 4 right; left; reflexivity|].
             split; [vm_compute; discriminate|].
             split; [reflexivity|discriminate]. }
  destruct Hsev as [Hs|[Hs|[Hs|[Hs|[Hs|[]]]]]]; rewrite <- Hs in Hb |- *.
  - apply Hc, Hb.
  - apply Hh, Hb.
  - apply Hm, Hb.
  - apply Hl, Hb.
  - apply Hi, Hb.
Qed.

Lemma finding_line_class_witness :
  exists sev,
    In sev SEVERITY_LEVELS
    /\ (rankOf sev <= rankOf "MEDIUM")%Z
    /\ severityLineClass "VULNERABILITY: [MEDIUM] Missing header" = levelClass sev
    /\ levelClass sev <> EmptyString.
Proof.
  apply (finding_line_class
           {| severity := "MEDIUM"; title := "Missing header";
              description := None; evidence := None; remediation := None;
              owasp_id := None; cwe_id := None; confidence := None |}).
  right. right. left. reflexivity.
Defined.

(** ** The probe result block *)

Section Block.

Lemma includes_empty (s : string) : includes s EmptyString = true.
Proof. rewrite includes_unfold. reflexivity. Qed.

Lemma plainLabel_includes_title p : includes (plainLabel p) (title p) = true.
Proof.
  unfold plainLabel. rewrite <- !append_assoc. apply includes_prefixed.
Qed.

Lemma renderedLine_includes_title p : includes (renderedLine p) (title p) = true.
Proof.
  unfold renderedLine. destruct (isVulnSeverity (severity p));
    [apply vulnLabel_includes_title|apply plainLabel_includes_title].
Qed.




End Block.



(** X9.  No info line of the block mentions the title of a finding of the
    result, so the line the normaliser rendered for a finding is never
    among them; and when a finding has an empty title, there is no info
    line at all. *)
Theorem info_lines_skip_findings (result : JsVal) (f : ParsedFinding) :
  In f (findings (normalizeProbeResult result)) ->
  (forall line, In line (infoLines (normalizeProbeResult result)) ->
                includes line (title f) = false)
  /\ ~ In (renderedLine f) (infoLines (normalizeProbeResult result))
  /\ (title f = EmptyString -> infoLines (normalizeProbeResult result) = []).
Proof.
  intros Hin.
  assert (Hskip : forall line, In line (infoLines (normalizeProbeResult result)) ->
                               includes line (title f) = false).
  { intros line Hl. unfold infoLines in Hl. apply filter_In in Hl.
    destruct Hl as [_ Hl]. apply negb_true_iff in Hl.
    destruct (includes line (title f)) eqn:E; [|reflexivity].
    assert (Ht : existsb (fun t => includes line t)
                         (findingTitles (normalizeProbeResult result)) = true).
    { apply existsb_exists. exists (title f). split; [|exact E].
      unfold findingTitles. apply in_map, Hin. }
    congruence. }
  split; [exact Hskip|]. split.
  - intros Hl. apply Hskip in Hl. rewrite renderedLine_includes_title in Hl.
    discriminate.
  - intros Ht. destruct (infoLines (normalizeProbeResult result)) as [|l ls] eqn:E;
      [reflexivity|].
    specialize (Hskip l (or_introl eq_refl)).
    rewrite Ht, includes_empty in Hskip. discriminate.
Qed.

Lemma info_lines_skip_findings_witness :
  lines (normalizeProbeResult
           (JObj [ ("banner", JStr "OpenSSH 9.0p1");
                   ("findings", JArr [JObj [("severity", JStr "info")]]) ]))
  = ["[INFO] "; "Banner: OpenSSH 9.0p1"]
  /\ infoLines (normalizeProbeResult
                  (JObj [ ("banner", JStr "OpenSSH 9.0p1");
                          ("findings", JArr [JObj [("severity", JStr "info")]]) ]))
     = [].
Proof.
  split; [vm_compute; reflexivity|].
  refine (proj2 (proj2 (info_lines_skip_findings
            (JObj [ ("banner", JStr "OpenSSH 9.0p1");
                    ("findings", JArr [JObj [("severity", JStr "info")]]) ])
            {| severity := "INFO"; title := EmptyString;
               description := None; evidence := None; remediation := None;
               owasp_id := None; cwe_id := None; confidence := None |}
            _)) _).
  - vm_compute. left. reflexivity.
  - reflexivity.
Defined.


(** ** The summary of a port *)

Section PortSummary.

Variable ap : AggregatedPortsData.

(** A map of the analysis that each step of the loop sets at its port to
    [F port], when there is such a value, is at every listed port what [F]
    gives, or what it was before. *)
Lemma portSteps_lookup {V : Type} (proj : PortAnalysisResult -> gmap Z V)
    (F : Z -> option V) :
  (forall res x p,
      proj (portStep ap res x) !! p =
      if decide (x = p)
      then match F p with Some v => Some v | None => proj res !! p end
      else proj res !! p) ->
  forall l res p,
    proj (fold_left (portStep ap) l res) !! p =
    if in_dec Z.eq_dec p l
    then match F p with Some v => Some v | None => proj res !! p end
    else proj res !! p.
Proof.
  intros Hstep. induction l as [|x l IH]; intros res p; [reflexivity|].
  cbn [fold_left]. rewrite IH, Hstep.
  destruct (in_dec Z.eq_dec p (x :: l)) as [Hin|Hout];
    destruct (in_dec Z.eq_dec p l) as [Hin'|Hout'];
    destruct (decide (x = p)) as [->|Hne]; try reflexivity.
  - destruct (F p); reflexivity.
  - destruct Hin as [->|Hin]; [congruence|contradiction].
  - exfalso. apply Hout. right. exact Hin'.
  - exfalso. apply Hout. right. exact Hin'.
  - exfalso. apply Hout. left. reflexivity.
Qed.

Lemma findingUpdate_total st f :
  totalFindings (findingUpdate st f) = totalFindings st.
Proof.
  unfold findingUpdate.
  destruct (owasp_id f) as [id|]; [destruct (nonEmpty id)|]; reflexivity.
Qed.

Lemma findingUpdates_total fs st :
  totalFindings (fold_left findingUpdate fs st) = totalFindings st.
Proof.
  revert st. induction fs as [|f fs IH]; intros st; [reflexivity|].
  cbn [fold_left]. rewrite IH. apply findingUpdate_total.
Qed.

Lemma resultStep_total st result :
  totalFindings (resultStep st result) =
  (totalFindings st + Z.of_nat (length (findings (normalizeProbeResult result))))%Z.
Proof.
  unfold resultStep.
  destruct (findings (normalizeProbeResult result)) as [|f fs];
    [cbn [withBest totalFindings]|]; rewrite findingUpdates_total; reflexivity.
Qed.

Lemma serviceStep_total st entry :
  totalFindings (serviceStep st entry) = totalFindings (resultStep st (snd entry)).
Proof.
  unfold serviceStep. destruct (protocolOfProbe (fst entry)); [|reflexivity].
  destruct (detected (resultStep st (snd entry))); reflexivity.
Qed.

Lemma steps_total (step : PortState -> string * JsVal -> PortState) :
  (forall st e, totalFindings (step st e) = totalFindings (resultStep st (snd e))) ->
  forall entries st,
    totalFindings (fold_left step entries st) =
    (totalFindings st + Z.of_nat (length (findingsOf (map snd entries))))%Z.
Proof.
  intros Hstep entries. induction entries as [|e entries IH]; intros st.
  - cbn. lia.
  - cbn [fold_left map]. rewrite IH, Hstep, resultStep_total.
    unfold findingsOf. cbn [map concat]. rewrite length_app. lia.
Qed.

Lemma scanPort_total cnt port :
  totalFindings (scanPort ap cnt port) = Z.of_nat (length (allFindings ap port)).
Proof.
  unfold scanPort, allFindings, probeResults.
  rewrite (steps_total webStep) by reflexivity.
  rewrite (steps_total serviceStep serviceStep_total).
  cbn [totalFindings]. rewrite findingsOf_app, length_app. lia.
Qed.

Lemma findingCount_portAnalysis port :
  findingCount (portAnalysis ap) !! port =
  if in_dec Z.eq_dec port (ports ap)
  then Some (Z.of_nat (length (allFindings ap port))) else None.
Proof.
  unfold portAnalysis.
  rewrite (portSteps_lookup findingCount
             (fun p => Some (Z.of_nat (length (allFindings ap p))))).
  - destruct (in_dec Z.eq_dec port (ports ap)); [reflexivity|apply lookup_empty].
  - intros res x p. unfold portStep. cbn [findingCount]. rewrite scanPort_total.
    destruct (decide (x = p)) as [->|Hne];
      [apply lookup_insert_eq|apply lookup_insert_ne, Hne].
Qed.

Lemma detectedProtocol_portAnalysis port :
  detectedProtocol (portAnalysis ap) !! port =
  if in_dec Z.eq_dec port (ports ap) then inferredProtocol ap port else None.
Proof.
  unfold portAnalysis.
  rewrite (portSteps_lookup detectedProtocol (inferredProtocol ap)).
  - cbn [emptyAnalysis detectedProtocol]. rewrite lookup_empty.
    destruct (in_dec Z.eq_dec port (ports ap)); [|reflexivity].
    destruct (inferredProtocol ap port); reflexivity.
  - intros res x p. unfold portStep. cbn [detectedProtocol].
    rewrite scanPort_detected.
    destruct (decide (x = p)) as [->|Hne].
    + destruct (inferredProtocol ap p); [apply lookup_insert_eq|reflexivity].
    + destruct (inferredProtocol ap x); [apply lookup_insert_ne, Hne|reflexivity].
Qed.

Lemma serviceLabel_portAnalysis port :
  serviceLabel (portAnalysis ap) !! port =
  if in_dec Z.eq_dec port (ports ap)
  then match WELL_KNOWN_PORTS !! port with
       | Some wk => Some (Named wk)
       | None => inferredProtocol ap port
       end
  else None.
Proof.
  unfold portAnalysis.
  rewrite (portSteps_lookup serviceLabel
             (fun p => match WELL_KNOWN_PORTS !! p with
                       | Some wk => Some (Named wk)
                       | None => inferredProtocol ap p
                       end)).
  - cbn [emptyAnalysis serviceLabel]. rewrite lookup_empty.
    destruct (in_dec Z.eq_dec port (ports ap)); [|reflexivity].
    destruct (WELL_KNOWN_PORTS !! port); [reflexivity|].
    destruct (inferredProtocol ap port); reflexivity.
  - intros res x p. unfold portStep. cbn [serviceLabel].
    rewrite scanPort_detected.
    destruct (decide (x = p)) as [->|Hne].
    + destruct (WELL_KNOWN_PORTS !! p) as [wk|] eqn:E.
      * rewrite (wellKnown_nonEmpty p wk E). apply lookup_insert_eq.
      * destruct (inferredProtocol ap p); [apply lookup_insert_eq|reflexivity].
    + destruct (WELL_KNOWN_PORTS !! x) as [wk|] eqn:E.
      * rewrite (wellKnown_nonEmpty x wk E). apply lookup_insert_ne, Hne.
      * destruct (inferredProtocol ap x); [apply lookup_insert_ne, Hne|reflexivity].
Qed.

Lemma sevLabelOf_level (fs : list ParsedFinding) :
  In (sevLabelOf (minRank fs)) SEVERITY_LEVELS.
Proof.
  destruct (minRank_cases fs) as [H|[H|[H|[H|H]]]]; rewrite H;
    unfold SEVERITY_LEVELS; cbn; tauto.
Qed.

(** An inferred protocol is what the read of the table gives for one of
    the names. *)
Lemma firstProtocol_read (names : list string) (proto : Protocol) :
  firstProtocol names = Some proto ->
  exists name, In name names /\ probeToProtocol name = Some proto.
Proof.
  induction names as [|n names IH]; [discriminate|].
  cbn [firstProtocol]. destruct (canonicalProtocol n) as [p|] eqn:E.
  - intros [= <-]. exists n. split; [left; reflexivity|].
    unfold canonicalProtocol in E. destruct (probeToProtocol n) as [r|]; [|discriminate].
    destruct (decide _); [discriminate|congruence].
  - intros H. destruct (IH H) as (name & Hn & Hr).
    exists name. split; [right; exact Hn|exact Hr].
Qed.

(** When no name is a member of [Object.prototype], an inferred protocol is
    a string of the table other than GENERIC and TLS. *)
Lemma firstProtocol_of_table (names : list string) (proto : Protocol) :
  firstProtocol names = Some proto ->
  (forall name, In name names -> ~ In name OBJECT_PROTOTYPE_MEMBERS) ->
  exists name p,
    In name names /\ PROBE_TO_PROTOCOL !! name = Some p /\ proto = Named p
    /\ p <> "GENERIC" /\ p <> "TLS".
Proof.
  induction names as [|n names IH]; [discriminate|].
  cbn [firstProtocol]. intros H Hn. destruct (canonicalProtocol n) as [r|] eqn:E.
  - injection H as <-. unfold canonicalProtocol, probeToProtocol in E.
    destruct (PROBE_TO_PROTOCOL !! n) as [p|] eqn:Et.
    + destruct (decide _) as [|Hnd]; [discriminate|]. injection E as <-.
      exists n, p. split; [left; reflexivity|]. split; [exact Et|].
      split; [reflexivity|].
      split; intros ->; apply Hnd; [left|right]; reflexivity.
    + destruct (existsb (String.eqb n) OBJECT_PROTOTYPE_MEMBERS) eqn:Ex;
        [|discriminate].
      apply existsb_exists in Ex. destruct Ex as (x & Hx & Heq).
      apply String.eqb_eq in Heq. subst x.
      exfalso. apply (Hn n (or_introl eq_refl) Hx).
  - destruct (IH H (fun name Hin => Hn name (or_intror Hin)))
      as (name & p & Hin & Ht & Hp & Hg & Htls).
    exists name, p. split; [right; exact Hin|]. repeat split; assumption.
Qed.

Lemma wellKnown_not_elastic port name :
  WELL_KNOWN_PORTS !! port = Some name -> name <> "ELASTICSEARCH".
Proof.
  intros H. apply table_lookup_in in H. cbn [In] in H.
  repeat (destruct H as [H|H]; [injection H as _ <-; discriminate|]).
  destruct H.
Qed.

End PortSummary.

(** X11.  For every port of the pass the finding count is the number of
    structured findings of all its probe results; a port that is not in
    the pass has no count. *)
Theorem finding_count_is_total (ap : AggregatedPortsData) (port : Z) :
  (In port (ports ap) ->
   findingCount (portAnalysis ap) !! port
   = Some (Z.of_nat (length (allFindings ap port))))
  /\ (~ In port (ports ap) -> findingCount (portAnalysis ap) !! port = None).
Proof.
  rewrite findingCount_portAnalysis.
  destruct (in_dec Z.eq_dec port (ports ap)); split; intros; tauto.
Qed.

Lemma finding_count_is_total_witness :
  findingCount (portAnalysis threePorts) !! 8080%Z
  = Some (Z.of_nat (length (allFindings threePorts 8080%Z)))
  /\ findingCount (portAnalysis threePorts) !! 22%Z = None.
Proof.
  split.
  - apply (proj1 (finding_count_is_total threePorts 8080%Z)).
    right; right; left; reflexivity.
  - apply (proj2 (finding_count_is_total threePorts 22%Z)).
    intros [H|[H|[H|[]]]]; discriminate H.
Defined.

(** X12.  For every port of the pass the detected protocol is what the
    read of the probe-to-protocol table gave for the first service probe
    name that passed the test, be it a string of the table or a member the
    table inherits; the service label is the entry of the well-known-port
    table when there is one, the detected protocol otherwise. *)
Theorem service_label_precedence (ap : AggregatedPortsData) (port : Z) :
  In port (ports ap) ->
  detectedProtocol (portAnalysis ap) !! port = inferredProtocol ap port
  /\ serviceLabel (portAnalysis ap) !! port
     = match WELL_KNOWN_PORTS !! port with
       | Some wk => Some (Named wk)
       | None => inferredProtocol ap port
       end.
Proof.
  intros Hin. rewrite detectedProtocol_portAnalysis, serviceLabel_portAnalysis.
  destruct (in_dec Z.eq_dec port (ports ap)); [split; reflexivity|contradiction].
Qed.

Lemma service_label_precedence_witness :
  serviceLabel (portAnalysis sshPorts) !! 22%Z = Some (Named "SSH")
  /\ serviceLabel (portAnalysis sshPorts) !! 2222%Z = Some (Named "SSH")
  /\ serviceLabel (portAnalysis elasticPort) !! 9200%Z = Some (Named "HTTP")
  /\ detectedProtocol (portAnalysis elasticPort) !! 9200%Z
     = Some (Named "ELASTICSEARCH")
  /\ detectedProtocol (portAnalysis inheritedNamePort) !! 2222%Z
     = Some (Inherited "constructor")
  /\ serviceLabel (portAnalysis inheritedNamePort) !! 2222%Z
     = Some (Inherited "constructor").
Proof.
  assert (H22 : In 22%Z (ports sshPorts)) by (left; reflexivity).
  assert (H2222 : In 2222%Z (ports sshPorts)) by (right; left; reflexivity).
  assert (H9200 : In 9200%Z (ports elasticPort)) by (left; reflexivity).
  assert (Hinh : In 2222%Z (ports inheritedNamePort)) by (left; reflexivity).
  rewrite (proj2 (service_label_precedence sshPorts 22%Z H22)).
  rewrite (proj2 (service_label_precedence sshPorts 2222%Z H2222)).
  rewrite (proj2 (service_label_precedence elasticPort 9200%Z H9200)).
  rewrite (proj1 (service_label_precedence elasticPort 9200%Z H9200)).
  rewrite (proj2 (service_label_precedence inheritedNamePort 2222%Z Hinh)).
  rewrite (proj1 (service_label_precedence inheritedNamePort 2222%Z Hinh)).
  repeat split; vm_compute; reflexivity.
Defined.

(** X13.  A port flagged as non-standard always has a detected protocol
    and a service label, and the well-known-port table does not name that
    protocol for it.  The detected protocol is a string of the
    probe-to-protocol table or, for a probe name that is a member of
    [Object.prototype], that member. *)
Theorem nonStandard_has_protocol (ap : AggregatedPortsData) (port : Z) :
  port ∈ nonStandard (portAnalysis ap) ->
  exists proto,
    detectedProtocol (portAnalysis ap) !! port = Some proto
    /\ is_Some (serviceLabel (portAnalysis ap) !! port)
    /\ (Named <$> (WELL_KNOWN_PORTS !! port)) <> Some proto
    /\ (exists name, In name (map fst (entriesAt (services ap) port))
                     /\ probeToProtocol name = Some proto).
Proof.
  intros H. apply nonStandard_portAnalysis in H. destruct H as [Hin Hns].
  apply isNonStandardPort_iff in Hns. destruct Hns as (proto & Hp & Hwk).
  exists proto.
  rewrite detectedProtocol_portAnalysis, serviceLabel_portAnalysis.
  destruct (in_dec Z.eq_dec port (ports ap)); [|contradiction].
  split; [exact Hp|]. split; [|split].
  - destruct (WELL_KNOWN_PORTS !! port); [eexists; reflexivity|].
    rewrite Hp. eexists. reflexivity.
  - destruct Hwk as [->|(expected & -> & Hne)]; [discriminate|].
    cbn [fmap option_fmap option_map]. congruence.
  - apply firstProtocol_read, Hp.
Qed.

Lemma nonStandard_has_protocol_witness :
  (exists proto,
      detectedProtocol (portAnalysis sshPorts) !! 2222%Z = Some proto
      /\ is_Some (serviceLabel (portAnalysis sshPorts) !! 2222%Z)
      /\ (Named <$> (WELL_KNOWN_PORTS !! 2222%Z)) <> Some proto
      /\ (exists name, In name (map fst (entriesAt (services sshPorts) 2222%Z))
                       /\ probeToProtocol name = Some proto))
  /\ 2222%Z ∈ nonStandard (portAnalysis inheritedNamePort).
Proof.
  split.
  - apply (nonStandard_has_protocol sshPorts 2222%Z).
    apply nonStandard_portAnalysis. split; [right; left; reflexivity|].
    vm_compute. reflexivity.
  - apply nonStandard_portAnalysis. split; [left; reflexivity|].
    vm_compute. reflexivity.
Defined.

(** X14.  The severity map has an entry exactly for the ports of the pass,
    and every entry is one of the five levels, whatever severities the
    findings carry. *)
Theorem severity_map_levels (ap : AggregatedPortsData) (port : Z) :
  (is_Some (severityMap (portAnalysis ap) !! port) <-> In port (ports ap))
  /\ (forall sev, severityMap (portAnalysis ap) !! port = Some sev ->
                  In sev SEVERITY_LEVELS)
  /\ In (dominantSeverity ap port) SEVERITY_LEVELS.
Proof.
  unfold dominantSeverity.
  destruct (in_dec Z.eq_dec port (ports ap)) as [Hin|Hout].
  - rewrite (severityMap_portAnalysis ap port Hin). cbn [default]. split.
    + split; [intros _; exact Hin|intros _; eexists; reflexivity].
    + split; [intros sev [= <-]|]; apply sevLabelOf_level.
  - rewrite (severityMap_portAnalysis_out ap port Hout). cbn [default]. split.
    + split; [intros [x Hx]; discriminate|contradiction].
    + split; [discriminate|]. unfold SEVERITY_LEVELS. cbn. tauto.
Qed.

Lemma severity_map_levels_witness :
  severityMap (portAnalysis mixedPort) !! 8443%Z = Some "CRITICAL"
  /\ In "CRITICAL" SEVERITY_LEVELS.
Proof.
  assert (H : severityMap (portAnalysis mixedPort) !! 8443%Z = Some "CRITICAL")
    by (vm_compute; reflexivity).
  split; [exact H|].
  apply (proj1 (proj2 (severity_map_levels mixedPort 8443%Z)) "CRITICAL" H).
Defined.

(** X15.  A port whose inferred protocol is ELASTICSEARCH is always
    flagged as non-standard, port 9200 included: the well-known-port table
    names no port for that protocol. *)
Theorem elasticsearch_always_flagged (ap : AggregatedPortsData) (port : Z) :
  In port (ports ap) ->
  inferredProtocol ap port = Some (Named "ELASTICSEARCH") ->
  port ∈ nonStandard (portAnalysis ap).
Proof.
  intros Hin Hp. apply nonStandard_portAnalysis. split; [exact Hin|].
  apply isNonStandardPort_iff. exists (Named "ELASTICSEARCH"). split; [exact Hp|].
  destruct (WELL_KNOWN_PORTS !! port) as [expected|] eqn:E; [|left; reflexivity].
  right. exists expected. split; [reflexivity|].
  intros [= H]. exact (wellKnown_not_elastic port expected E H).
Qed.

Lemma elasticsearch_always_flagged_witness :
  WELL_KNOWN_PORTS !! 9200%Z = Some "HTTP"
  /\ 9200%Z ∈ nonStandard (portAnalysis elasticPort).
Proof.
  split; [vm_compute; reflexivity|].
  apply (elasticsearch_always_flagged elasticPort 9200%Z).
  - left. reflexivity.
  - vm_compute. reflexivity.
Defined.

(** ** The tally of compliance identifiers *)

Section Tally.

Lemma carriers_app id fs gs :
  carriers id (fs ++ gs) = (carriers id fs + carriers id gs)%Z.
Proof. unfold carriers. rewrite List.filter_app, length_app. lia. Qed.

Lemma carriers_cons id f fs :
  carriers id (f :: fs) = ((if carries id f then 1 else 0) + carriers id fs)%Z.
Proof.
  unfold carriers. cbn [List.filter]. destruct (carries id f); cbn [length]; lia.
Qed.

Lemma default_nonneg (counts : gmap string Z) id :
  countsPositive counts -> (0 <= default 0 (counts !! id))%Z.
Proof.
  intros P. destruct (counts !! id) as [n|] eqn:E; simpl; [|lia].
  specialize (P id n E). lia.
Qed.

Lemma findingUpdate_counts st f id :
  countsPositive (counts st) ->
  default 0%Z (counts (findingUpdate st f) !! id)
  = (default 0 (counts st !! id) + (if carries id f then 1 else 0))%Z
  /\ countsPositive (counts (findingUpdate st f)).
Proof.
  intros P. unfold findingUpdate, carries, carriedId.
  destruct (owasp_id f) as [x|]; [destruct (nonEmpty x)|]; cbn [counts];
    [|split; [lia|exact P]|split; [lia|exact P]].
  split.
  - destruct (String.eqb_spec x id) as [->|Hne].
    + rewrite lookup_insert_eq. reflexivity.
    + rewrite lookup_insert_ne by exact Hne. lia.
  - intros i n. destruct (decide (x = i)) as [->|Hne].
    + rewrite lookup_insert_eq. intros [= <-].
      pose proof (default_nonneg (counts st) i P). lia.
    + rewrite lookup_insert_ne by exact Hne. apply P.
Qed.

Lemma findingUpdates_counts fs st id :
  countsPositive (counts st) ->
  default 0%Z (counts (fold_left findingUpdate fs st) !! id)
  = (default 0 (counts st !! id) + carriers id fs)%Z
  /\ countsPositive (counts (fold_left findingUpdate fs st)).
Proof.
  revert st. induction fs as [|f fs IH]; intros st P.
  - cbn [fold_left]. unfold carriers. cbn. split; [lia|exact P].
  - cbn [fold_left]. destruct (findingUpdate_counts st f id P) as [H1 P1].
    destruct (IH _ P1) as [H2 P2]. split; [|exact P2].
    rewrite H2, H1, carriers_cons. lia.
Qed.

Lemma resultStep_counts st result id :
  countsPositive (counts st) ->
  default 0%Z (counts (resultStep st result) !! id)
  = (default 0 (counts st !! id)
     + carriers id (findings (normalizeProbeResult result)))%Z
  /\ countsPositive (counts (resultStep st result)).
Proof.
  intros P. unfold resultStep.
  destruct (findings (normalizeProbeResult result)) as [|f fs].
  - cbn [fold_left withBest counts]. unfold carriers. cbn. split; [lia|exact P].
  - apply (findingUpdates_counts (f :: fs)
             {| bestSev := bestSev st;
                totalFindings := (totalFindings st + Z.of_nat (length (f :: fs)))%Z;
                detected := detected st; portOwaspIds := portOwaspIds st;
                counts := counts st |} id P).
Qed.

Lemma serviceStep_counts st entry :
  counts (serviceStep st entry) = counts (resultStep st (snd entry)).
Proof.
  unfold serviceStep. destruct (protocolOfProbe (fst entry)); [|reflexivity].
  destruct (detected (resultStep st (snd entry))); reflexivity.
Qed.

Lemma steps_counts (step : PortState -> string * JsVal -> PortState) id :
  (forall st e, counts (step st e) = counts (resultStep st (snd e))) ->
  forall entries st,
    countsPositive (counts st) ->
    default 0%Z (counts (fold_left step entries st) !! id)
    = (default 0 (counts st !! id) + carriers id (findingsOf (map snd entries)))%Z
    /\ countsPositive (counts (fold_left step entries st)).
Proof.
  intros Hstep entries. induction entries as [|e entries IH]; intros st P.
  - cbn [fold_left]. unfold carriers. cbn. split; [lia|exact P].
  - cbn [fold_left map].
    destruct (resultStep_counts st (snd e) id P) as [H1 P1].
    rewrite <- Hstep in H1, P1.
    destruct (IH _ P1) as [H2 P2]. split; [|exact P2].
    rewrite H2, H1. unfold findingsOf. cbn [map concat].
    rewrite carriers_app. lia.
Qed.

Lemma scanPort_counts ap cnt port id :
  countsPositive cnt ->
  default 0%Z (counts (scanPort ap cnt port) !! id)
  = (default 0 (cnt !! id) + carriers id (allFindings ap port))%Z
  /\ countsPositive (counts (scanPort ap cnt port)).
Proof.
  intros P. unfold scanPort, allFindings, probeResults.
  set (st0 := {| bestSev := RANK_INFO; totalFindings := 0%Z; detected := None;
                 portOwaspIds := ∅; counts := cnt |}).
  destruct (steps_counts serviceStep id serviceStep_counts
              (entriesAt (services ap) port) st0 P) as [H1 P1].
  destruct (steps_counts webStep id (fun _ _ => eq_refl)
              (entriesAt (webTests ap) port) _ P1) as [H2 P2].
  split; [|exact P2].
  rewrite H2, H1, findingsOf_app, carriers_app. cbn [st0 counts]. lia.
Qed.

Lemma portSteps_counts ap l res id :
  countsPositive (owaspCounts res) ->
  default 0%Z (owaspCounts (fold_left (portStep ap) l res) !! id)
  = (default 0 (owaspCounts res !! id)
     + carriers id (concat (map (allFindings ap) l)))%Z
  /\ countsPositive (owaspCounts (fold_left (portStep ap) l res)).
Proof.
  revert res. induction l as [|x l IH]; intros res P.
  - cbn [fold_left]. unfold carriers. cbn. split; [lia|exact P].
  - cbn [fold_left map concat].
    destruct (scanPort_counts ap (owaspCounts res) x id P) as [H1 P1].
    destruct (IH (portStep ap res x) P1) as [H2 P2]. split; [|exact P2].
    assert (Hoc : owaspCounts (portStep ap res x)
                  = counts (scanPort ap (owaspCounts res) x)) by reflexivity.
    rewrite H2, Hoc, H1, carriers_app. lia.
Qed.

End Tally.

(** X16.  The tally of a compliance identifier over the pass is the number
    of findings that carry it, counted over the ports in the order of the
    port list; an identifier no finding carries has no entry. *)
Theorem owasp_counts_tally (ap : AggregatedPortsData) (id : string) :
  owaspCounts (portAnalysis ap) !! id
  = if (0 <? carriers id (passFindings ap))%Z
    then Some (carriers id (passFindings ap)) else None.
Proof.
  unfold portAnalysis, passFindings.
  destruct (portSteps_counts ap (ports ap) emptyAnalysis id) as [H P].
  { intros i n. cbn [emptyAnalysis owaspCounts]. rewrite lookup_empty. discriminate. }
  cbn [emptyAnalysis owaspCounts] in H. rewrite lookup_empty in H. simpl in H.
  rewrite Z.add_0_l in H.
  destruct (owaspCounts (fold_left (portStep ap) (ports ap) emptyAnalysis) !! id)
    as [n|] eqn:E; simpl in H.
  - specialize (P id n E). rewrite <- H.
    destruct (Z.ltb_spec 0 n); [reflexivity|lia].
  - rewrite <- H. reflexivity.
Qed.

(** X17.  For every port of the pass the compliance identifiers the
    analysis records are exactly the non-empty identifiers carried by the
    structured findings of the port. *)
Theorem compliance_ids_of_port (ap : AggregatedPortsData) (port : Z) (id : string) :
  In port (ports ap) ->
  (id ∈ complianceIds ap port <->
   exists f, In f (allFindings ap port) /\ carriedId f = Some id).
Proof. apply complianceIds_portAnalysis. Qed.

Lemma compliance_ids_of_port_witness :
  "A03" ∈ complianceIds
            {| ports := [443%Z];
               services := ∅;
               webTests :=
                 {[ 443%Z := [("_web_test_sql_injection",
                               JObj [("findings",
                                      JArr [JObj [("severity", JStr "critical");
                                                  ("title", JStr "SQL injection");
                                                  ("owasp_id", JStr "A03")]])])] ]} |}
            443%Z.
Proof.
  apply compliance_ids_of_port; [left; reflexivity|].
  eexists. split; [vm_compute; left; reflexivity|]. reflexivity.
Defined.

(** ** The counts on the filter buttons *)

Section Badges.

Lemma init_counts sev :
  In sev SEVERITY_LEVELS ->
  (list_to_map [ ("CRITICAL", Count 0); ("HIGH", Count 0); ("MEDIUM", Count 0);
                 ("LOW", Count 0); ("INFO", Count 0) ] : gmap string JsCount) !! sev
  = Some (Count 0).
Proof.
  unfold SEVERITY_LEVELS. cbn [In].
  intros [<-|[<-|[<-|[<-|[<-|[]]]]]]; vm_compute; reflexivity.
Qed.

Lemma size_filter_insert (m : gmap Z string) (i : Z) (x sev : string) :
  m !! i = None ->
  size (filter (fun kv : Z * string => kv.2 = sev) (<[i:=x]> m))
  = ((if decide (x = sev) then 1 else 0)
     + size (filter (fun kv : Z * string => kv.2 = sev) m))%nat.
Proof.
  intros Hi. destruct (decide (x = sev)) as [Hx|Hx].
  - rewrite map_filter_insert_True by exact Hx.
    rewrite map_size_insert_None; [reflexivity|].
    apply map_lookup_filter_None. left. exact Hi.
  - rewrite map_filter_insert_not'; [reflexivity|exact Hx|].
    intros y Hy. congruence.
Qed.

(** The loop of [severityCounts] counts, for each level, the ports of the
    map with that severity. *)
Lemma severityCounts_spec (pa : PortAnalysisResult) (sev : string) :
  (forall k v, severityMap pa !! k = Some v -> In v SEVERITY_LEVELS) ->
  In sev SEVERITY_LEVELS ->
  severityCounts pa !! sev = Some (Count (Z.of_nat (portsOfSeverity pa sev))).
Proof.
  unfold severityCounts, portsOfSeverity.
  generalize (severityMap pa). intros m Hvals Hsev. revert Hvals.
  apply (map_fold_weak_ind
           (fun counts m =>
              (forall k v, m !! k = Some v -> In v SEVERITY_LEVELS) ->
              counts !! sev
              = Some (Count (Z.of_nat
                               (size (filter (fun kv : Z * string => kv.2 = sev) m)))))).
  - intros _. rewrite map_filter_empty, map_size_empty. apply init_counts, Hsev.
  - clear m. intros i x m r Hi IH Hvals.
    assert (Hm : forall k v, m !! k = Some v -> In v SEVERITY_LEVELS).
    { intros k v Hk. apply (Hvals k v). rewrite lookup_insert_ne; [exact Hk|].
      intros ->. congruence. }
    specialize (IH Hm). rewrite (size_filter_insert m i x sev Hi).
    unfold bump. destruct (decide (x = sev)) as [->|Hx].
    + rewrite lookup_insert_eq, IH. do 2 f_equal. lia.
    + rewrite lookup_insert_ne by exact Hx. exact IH.
Qed.

Lemma level_indicator (x : string) :
  In x SEVERITY_LEVELS ->
  ((if decide (x = "CRITICAL") then 1 else 0)
   + (if decide (x = "HIGH") then 1 else 0)
   + (if decide (x = "MEDIUM") then 1 else 0)
   + (if decide (x = "LOW") then 1 else 0)
   + (if decide (x = "INFO") then 1 else 0) = 1)%nat.
Proof.
  unfold SEVERITY_LEVELS. cbn [In].
  intros [<-|[<-|[<-|[<-|[<-|[]]]]]]; reflexivity.
Qed.

Lemma level_sizes_sum (m : gmap Z string) :
  (forall k v, m !! k = Some v -> In v SEVERITY_LEVELS) ->
  (size (filter (fun kv : Z * string => kv.2 = "CRITICAL") m)
   + size (filter (fun kv : Z * string => kv.2 = "HIGH") m)
   + size (filter (fun kv : Z * string => kv.2 = "MEDIUM") m)
   + size (filter (fun kv : Z * string => kv.2 = "LOW") m)
   + size (filter (fun kv : Z * string => kv.2 = "INFO") m) = size m)%nat.
Proof.
  induction m as [|i x m Hi IH] using map_ind; intros Hvals.
  - rewrite !map_filter_empty, !map_size_empty. reflexivity.
  - assert (Hm : forall k v, m !! k = Some v -> In v SEVERITY_LEVELS).
    { intros k v Hk. apply (Hvals k v). rewrite lookup_insert_ne; [exact Hk|].
      intros ->. congruence. }
    assert (Hx : In x SEVERITY_LEVELS) by (apply (Hvals i x), lookup_insert_eq).
    rewrite !(size_filter_insert m i x _ Hi), (map_size_insert_None i x m Hi).
    pose proof (level_indicator x Hx). specialize (IH Hm). lia.
Qed.

Lemma severityMap_values ap k v :
  severityMap (portAnalysis ap) !! k = Some v -> In v SEVERITY_LEVELS.
Proof.
  destruct (in_dec Z.eq_dec k (ports ap)) as [Hin|Hout].
  - rewrite (severityMap_portAnalysis ap k Hin). intros [= <-]. apply sevLabelOf_level.
  - rewrite (severityMap_portAnalysis_out ap k Hout). discriminate.
Qed.

Lemma severityMap_dom ap :
  dom (severityMap (portAnalysis ap)) = list_to_set (ports ap).
Proof.
  apply set_eq. intros p. rewrite elem_of_dom, elem_of_list_to_set, list_elem_of_In.
  destruct (in_dec Z.eq_dec p (ports ap)) as [Hin|Hout].
  - rewrite (severityMap_portAnalysis ap p Hin).
    split; [intros _; exact Hin|intros _; eexists; reflexivity].
  - rewrite (severityMap_portAnalysis_out ap p Hout).
    split; [intros [x Hx]; discriminate|contradiction].
Qed.

(** Over a list without repeats that holds the keys of the map, the
    entries of a given value are as many as the keys that have it. *)
Lemma size_filter_keys (sev : string) (l : list Z) :
  NoDup l ->
  forall m : gmap Z string,
    (forall k, In k l <-> is_Some (m !! k)) ->
    size (filter (fun kv : Z * string => kv.2 = sev) m)
    = length (List.filter (fun k => bool_decide (m !! k = Some sev)) l).
Proof.
  induction 1 as [|k l Hk Hnd IH]; intros m Hkeys.
  - assert (Hm : m = ∅).
    { apply map_empty. intros i. destruct (m !! i) eqn:E; [|reflexivity].
      exfalso. apply (proj2 (Hkeys i)). eexists. exact E. }
    rewrite Hm, map_filter_empty, map_size_empty. reflexivity.
  - destruct (proj1 (Hkeys k) (or_introl eq_refl)) as [v Hv].
    assert (Hkl : ~ In k l) by (intros H; apply Hk, list_elem_of_In, H).
    assert (Hkeys' : forall j, In j l <-> is_Some (delete k m !! j)).
    { intros j. destruct (decide (k = j)) as [<-|Hne].
      - rewrite lookup_delete_eq. split; [contradiction|intros [x Hx]; discriminate].
      - rewrite lookup_delete_ne by exact Hne. rewrite <- Hkeys. cbn [In].
        split; [tauto|]. intros [?|?]; [congruence|assumption]. }
    specialize (IH (delete k m) Hkeys').
    rewrite <- (insert_delete_id m k v Hv) at 1.
    rewrite size_filter_insert by apply lookup_delete_eq.
    rewrite IH. cbn [List.filter]. rewrite Hv.
    assert (Hext : List.filter (fun j => bool_decide (delete k m !! j = Some sev)) l
                   = List.filter (fun j => bool_decide (m !! j = Some sev)) l).
    { apply filter_ext_in. intros j Hj. rewrite lookup_delete_ne; [reflexivity|].
      intros ->. contradiction. }
    rewrite Hext.
    destruct (decide (v = sev)) as [->|Hne].
    + rewrite bool_decide_eq_true_2 by reflexivity. reflexivity.
    + rewrite bool_decide_eq_false_2 by congruence. reflexivity.
Qed.

Lemma keepPort_only_severity ap sev mode port :
  In port (ports ap) ->
  keepPort ap (portAnalysis ap) (onlySeverity sev mode) port
  = bool_decide (severityMap (portAnalysis ap) !! port = Some sev).
Proof.
  intros Hin. apply eq_true_iff_eq. rewrite keepPort_iff, bool_decide_eq_true.
  unfold textPredicate, severityPredicate, categoryPredicate, compliancePredicate,
    dominantSeverity, onlySeverity.
  cbn [searchQuery severityFilter categoryFilter owaspFilter].
  rewrite (severityMap_portAnalysis ap port Hin). cbn [default].
  unfold Datatypes.id. rewrite elem_of_singleton. split.
  - intros (_ & [He|Hs] & _); [|congruence].
    exfalso. revert He. apply non_empty_singleton_L.
  - intros [= Hs]. repeat split; try (left; reflexivity). right. exact Hs.
Qed.

Lemma categoryStep_counts ap l c :
  cc_services (fold_left (categoryStep ap) l c)
  = (cc_services c
     + Z.of_nat (length (List.filter
                           (fun p => bool_decide (is_Some (services ap !! p))) l)))%Z
  /\ cc_web (fold_left (categoryStep ap) l c)
     = (cc_web c
        + Z.of_nat (length (List.filter
                              (fun p => bool_decide (is_Some (webTests ap !! p))) l)))%Z
  /\ cc_nodata (fold_left (categoryStep ap) l c)
     = (cc_nodata c
        + Z.of_nat (length (List.filter
                              (fun p => negb (bool_decide (is_Some (services ap !! p)))
                                        && negb (bool_decide (is_Some (webTests ap !! p))))
                              l)))%Z.
Proof.
  revert c. induction l as [|p l IH]; intros c.
  - cbn. repeat split; lia.
  - cbn [fold_left List.filter]. destruct (IH (categoryStep ap c p)) as (H1 & H2 & H3).
    rewrite H1, H2, H3. unfold categoryStep. cbn [cc_services cc_web cc_nodata].
    destruct (bool_decide (is_Some (services ap !! p)));
      destruct (bool_decide (is_Some (webTests ap !! p)));
      cbn [negb andb length]; repeat split; lia.
Qed.

Lemma keepPort_only_category ap cat mode port :
  keepPort ap (portAnalysis ap) (onlyCategory cat mode) port
  = (bool_decide (cat = "services") && bool_decide (is_Some (services ap !! port))
     || bool_decide (cat = "web") && bool_decide (is_Some (webTests ap !! port))
     || bool_decide (cat = "nodata")
        && (negb (bool_decide (is_Some (services ap !! port)))
            && negb (bool_decide (is_Some (webTests ap !! port))))).
Proof.
  apply eq_true_iff_eq. rewrite keepPort_iff.
  rewrite !orb_true_iff, !andb_true_iff, !negb_true_iff, !bool_decide_eq_true,
    !bool_decide_eq_false.
  unfold textPredicate, severityPredicate, categoryPredicate, compliancePredicate,
    hasServiceData, hasWebTestData, onlyCategory.
  cbn [searchQuery severityFilter categoryFilter owaspFilter].
  rewrite !elem_of_singleton. split.
  - intros (_ & _ & [He|H] & _).
    + exfalso. revert He. apply non_empty_singleton_L.
    + destruct H as [[<- H]|[[<- H]|[<- H]]]; tauto.
  - intros H. repeat split; try (left; reflexivity). right.
    destruct H as [[[-> H]|[-> H]]|[-> H]]; tauto.
Qed.

End Badges.

(** X18.  None of the five severity counts is NaN: each is the number of
    ports of the severity map with that dominant severity, and together
    they add up to the number of distinct ports of the pass. *)
Theorem severity_counts_cover_ports (ap : AggregatedPortsData) :
  let pa := portAnalysis ap in
  severityCounts pa !! "CRITICAL" = Some (Count (Z.of_nat (portsOfSeverity pa "CRITICAL")))
  /\ severityCounts pa !! "HIGH" = Some (Count (Z.of_nat (portsOfSeverity pa "HIGH")))
  /\ severityCounts pa !! "MEDIUM" = Some (Count (Z.of_nat (portsOfSeverity pa "MEDIUM")))
  /\ severityCounts pa !! "LOW" = Some (Count (Z.of_nat (portsOfSeverity pa "LOW")))
  /\ severityCounts pa !! "INFO" = Some (Count (Z.of_nat (portsOfSeverity pa "INFO")))
  /\ (portsOfSeverity pa "CRITICAL" + portsOfSeverity pa "HIGH"
      + portsOfSeverity pa "MEDIUM" + portsOfSeverity pa "LOW"
      + portsOfSeverity pa "INFO"
      = size (list_to_set (ports ap) : gset Z))%nat.
Proof.
  cbv zeta.
  assert (Hc : forall sev, In sev SEVERITY_LEVELS ->
                 severityCounts (portAnalysis ap) !! sev
                 = Some (Count (Z.of_nat (portsOfSeverity (portAnalysis ap) sev)))).
  { intros sev. apply severityCounts_spec. apply severityMap_values. }
  repeat (split; [apply Hc; unfold SEVERITY_LEVELS; cbn; tauto|]).
  unfold portsOfSeverity.
  rewrite (level_sizes_sum _ (severityMap_values ap)).
  rewrite <- severityMap_dom. symmetry. apply size_dom.
Qed.

(** X19.  Each category count is the number of ports the filter returns
    when that category alone is requested. *)
Theorem category_counts_match_filter (ap : AggregatedPortsData) (mode : SortMode) :
  cc_services (categoryCounts ap)
  = Z.of_nat (length (filteredPorts ap (onlyCategory "services" mode)))
  /\ cc_web (categoryCounts ap)
     = Z.of_nat (length (filteredPorts ap (onlyCategory "web" mode)))
  /\ cc_nodata (categoryCounts ap)
     = Z.of_nat (length (filteredPorts ap (onlyCategory "nodata" mode))).
Proof.
  unfold categoryCounts, filteredPorts.
  destruct (categoryStep_counts ap (ports ap)
              {| cc_services := 0; cc_web := 0; cc_nodata := 0 |}) as (H1 & H2 & H3).
  rewrite H1, H2, H3. cbn [cc_services cc_web cc_nodata].
  repeat split; rewrite Z.add_0_l; do 2 f_equal;
    apply filter_ext; intros p; rewrite keepPort_only_category;
    repeat match goal with
           | |- context [bool_decide (?a = ?b)] =>
               first [ rewrite (bool_decide_eq_true_2 (a = b)) by reflexivity
                     | rewrite (bool_decide_eq_false_2 (a = b)) by discriminate ]
           end;
    destruct (bool_decide (is_Some (services ap !! p)));
    destruct (bool_decide (is_Some (webTests ap !! p))); reflexivity.
Qed.

(** X20.  When the port list has no repeats, the count shown for a
    severity is the number of ports the filter returns when that severity
    alone is requested. *)
Theorem severity_count_matches_filter
    (ap : AggregatedPortsData) (sev : string) (mode : SortMode) :
  NoDup (ports ap) ->
  In sev SEVERITY_LEVELS ->
  severityCounts (portAnalysis ap) !! sev
  = Some (Count (Z.of_nat (length (filteredPorts ap (onlySeverity sev mode))))).
Proof.
  intros Hnd Hsev.
  rewrite (severityCounts_spec _ sev (severityMap_values ap) Hsev).
  do 3 f_equal. unfold portsOfSeverity, filteredPorts.
  rewrite (size_filter_keys sev (ports ap) Hnd (severityMap (portAnalysis ap))).
  - f_equal. apply filter_ext_in. intros p Hp.
    symmetry. apply keepPort_only_severity, Hp.
  - intros k. destruct (in_dec Z.eq_dec k (ports ap)) as [Hin|Hout].
    + rewrite (severityMap_portAnalysis ap k Hin).
      split; [intros _; eexists; reflexivity|intros _; exact Hin].
    + rewrite (severityMap_portAnalysis_out ap k Hout).
      split; [contradiction|intros [x Hx]; discriminate].
Qed.

Lemma severity_count_matches_filter_witness :
  severityCounts (portAnalysis smallPass) !! "MEDIUM" = Some (Count 1)
  /\ filteredPorts smallPass (onlySeverity "MEDIUM" Numeric) = [80%Z].
Proof.
  split; [|vm_compute; reflexivity].
  rewrite (severity_count_matches_filter smallPass "MEDIUM" Numeric).
  - vm_compute. reflexivity.
  - apply (bool_decide_unpack _). vm_compute. exact I.
  - right. right. left. reflexivity.
Defined.

(** ** Sorting by a key *)

Section KeySort.

Context {A : Type} (key : A -> Z).

Lemma byKey_total (a b : A) : cmpLe (byKey key) a b \/ cmpLe (byKey key) b a.
Proof. unfold cmpLe, byKey. lia. Qed.

Lemma byKey_trans (a b c : A) :
  cmpLe (byKey key) a b -> cmpLe (byKey key) b c -> cmpLe (byKey key) a c.
Proof. unfold cmpLe, byKey. lia. Qed.

Lemma withKey_none (z : Z) (l : list A) :
  (forall a, In a l -> key a <> z) -> withKey key z l = [].
Proof.
  intros H. induction l as [|a l IH]; [reflexivity|].
  unfold withKey. cbn [List.filter].
  destruct (Z.eqb_spec (key a) z) as [E|_].
  - exfalso. apply (H a); [left; reflexivity|exact E].
  - apply IH. intros b Hb. apply H. right. exact Hb.
Qed.

Lemma withKey_cons (z : Z) (a : A) (l : list A) :
  withKey key z (a :: l)
  = (if (key a =? z)%Z then [a] else []) ++ withKey key z l.
Proof.
  unfold withKey. cbn [List.filter]. destruct (key a =? z)%Z; reflexivity.
Qed.

(** Insertion puts an element behind those of the same key. *)
Lemma sortInsert_stable (x : A) (l : list A) (z : Z) :
  StronglySorted (cmpLe (byKey key)) l ->
  withKey key z (sortInsert (byKey key) x l)
  = withKey key z l ++ (if (key x =? z)%Z then [x] else []).
Proof.
  induction l as [|y l IH]; intros Hs.
  - cbn [sortInsert]. rewrite withKey_cons. unfold withKey. cbn [List.filter app].
    rewrite app_nil_r. reflexivity.
  - apply StronglySorted_inv in Hs. destruct Hs as [Hl Hy].
    cbn [sortInsert]. destruct (Z.ltb_spec 0 (byKey key y x)) as [Hgt|Hle].
    + unfold byKey in Hgt. rewrite (withKey_cons z x (y :: l)).
      destruct (Z.eqb_spec (key x) z) as [Hx|Hx].
      * assert (Hnone : withKey key z (y :: l) = []).
        { apply withKey_none. intros a [<-|Ha]; [lia|].
          rewrite List.Forall_forall in Hy. specialize (Hy a Ha).
          unfold cmpLe, byKey in Hy. lia. }
        rewrite Hnone. reflexivity.
      * rewrite app_nil_r. reflexivity.
    + rewrite (withKey_cons z y (sortInsert (byKey key) x l)), (IH Hl).
      rewrite (withKey_cons z y l), <- app_assoc. reflexivity.
Qed.

Lemma jsSort_stable_from (l acc : list A) (z : Z) :
  StronglySorted (cmpLe (byKey key)) acc ->
  withKey key z (fold_left (fun sorted x => sortInsert (byKey key) x sorted) l acc)
  = withKey key z acc ++ withKey key z l.
Proof.
  revert acc. induction l as [|x l IH]; intros acc Hs; cbn [fold_left].
  - unfold withKey at 3. cbn [List.filter]. rewrite app_nil_r. reflexivity.
  - rewrite IH by (apply sortInsert_sorted;
                   [apply byKey_total|apply byKey_trans|exact Hs]).
    rewrite (sortInsert_stable x acc z Hs), <- app_assoc, (withKey_cons z x l).
    reflexivity.
Qed.

(** A sort by a key keeps the elements of equal key in their order. *)
Lemma jsSort_stable (l : list A) (z : Z) :
  withKey key z (jsSort (byKey key) l) = withKey key z l.
Proof.
  unfold jsSort. rewrite (jsSort_stable_from l [] z (SSorted_nil _)). reflexivity.
Qed.

End KeySort.

(** X21.  [sortByTopSeverity] returns the entries rearranged so that the
    top severity rank never decreases along the list; entries of equal top
    severity keep the order they had. *)
Theorem sort_by_top_severity (entries : list (string * JsVal)) (z : Z) :
  StronglySorted (fun a b => (entryRank a <= entryRank b)%Z) (sortByTopSeverity entries)
  /\ Permutation entries (sortByTopSeverity entries)
  /\ withKey entryRank z (sortByTopSeverity entries) = withKey entryRank z entries.
Proof.
  unfold sortByTopSeverity. change (fun a b : string * JsVal =>
    (topSeverityFromResult (snd a) - topSeverityFromResult (snd b))%Z)
    with (byKey entryRank).
  destruct (jsSort_sorted_perm (byKey entryRank) (byKey_total entryRank)
              (byKey_trans entryRank) entries) as [Hs Hp].
  split; [|split; [exact Hp|apply jsSort_stable]].
  revert Hs. apply sorted_weaken. intros a b. unfold cmpLe, byKey. lia.
Qed.






(** X24.  When no filter is active every port of the pass is listed, in
    the order of the port list; this is the state [clearAllFilters]
    leaves. *)
Theorem unfiltered_lists_every_port (ap : AggregatedPortsData) (q q0 : Query) :
  isFiltered q = false ->
  filteredPorts ap q = ports ap
  /\ isFiltered (clearAllFilters q0) = false
  /\ filteredPorts ap (clearAllFilters q0) = ports ap.
Proof.
  assert (Hall : forall q', isFiltered q' = false -> filteredPorts ap q' = ports ap).
  { intros q' H. unfold isFiltered in H.
    rewrite !orb_false_iff, nonEmpty_false, !nonEmptySet_false in H.
    destruct H as [[[Hs Hv] Hc] Ho].
    unfold filteredPorts. apply forallb_filter_id, forallb_forall.
    intros port _. apply keepPort_iff.
    unfold textPredicate, severityPredicate, categoryPredicate, compliancePredicate.
    repeat split; left; assumption. }
  intros H. split; [apply Hall, H|].
  assert (Hclear : isFiltered (clearAllFilters q0) = false) by reflexivity.
  split; [exact Hclear|apply Hall, Hclear].
Qed.

Lemma unfiltered_lists_every_port_witness :
  filteredPorts threePorts (emptyQuery Risk) = [21%Z; 80%Z; 8080%Z].
Proof.
  apply (proj1 (unfiltered_lists_every_port threePorts (emptyQuery Risk)
                  (criticalOnly Risk) eq_refl)).
Defined.

(** X25.  Toggling a filter value twice gives the set back; one toggle
    changes the membership of that value and of no other. *)
Theorem toggle_twice (x : string) (s : gset string) :
  toggle x (toggle x s) = s
  /\ (x ∈ toggle x s <-> x ∉ s)
  /\ (forall y, y <> x -> (y ∈ toggle x s <-> y ∈ s)).
Proof.
  unfold toggle. destruct (bool_decide (x ∈ s)) eqn:E.
  - apply bool_decide_eq_true in E.
    rewrite bool_decide_eq_false_2 by set_solver.
    split; [|split].
    + apply set_eq. intros y. destruct (decide (y = x)) as [->|Hne]; set_solver.
    + set_solver.
    + intros y Hne. set_solver.
  - apply bool_decide_eq_false in E.
    rewrite bool_decide_eq_true_2 by set_solver.
    split; [|split].
    + apply set_eq. intros y. destruct (decide (y = x)) as [->|Hne]; set_solver.
    + set_solver.
    + intros y Hne. set_solver.
Qed.

(** ** The risk badge *)

Lemma Qle_bool_mono (s1 s2 c : Q) :
  (s1 <= s2)%Q -> Qle_bool s2 c = true -> Qle_bool s1 c = true.
Proof.
  intros H12 H2. apply Qle_bool_iff. apply Qle_bool_iff in H2.
  apply (Qle_trans _ _ _ H12 H2).
Qed.

(** X26.  A higher score never gives a lower risk band; the band of a
    score is one of the bands of the table of the tooltip, and exactly one
    line of that table is shown as the current one. *)
Theorem risk_band_monotone (s1 s2 : Q) :
  (s1 <= s2)%Q ->
  bandIndex (RiskScoreBadge.label (RiskScoreBadge.getRiskLevel s1))
  <= bandIndex (RiskScoreBadge.label (RiskScoreBadge.getRiskLevel s2))
  /\ In (RiskScoreBadge.label (RiskScoreBadge.getRiskLevel s2)) RiskScoreBadge.RISK_BANDS
  /\ count_occ bool_dec
       (RiskScoreBadge.highlighted
          (RiskScoreBadge.label (RiskScoreBadge.getRiskLevel s2))) true = 1.
Proof.
  intros H12.
  pose proof (Qle_bool_mono s1 s2 (inject_Z 20) H12) as M20.
  pose proof (Qle_bool_mono s1 s2 (inject_Z 40) H12) as M40.
  pose proof (Qle_bool_mono s1 s2 (inject_Z 60) H12) as M60.
  pose proof (Qle_bool_mono s1 s2 (inject_Z 80) H12) as M80.
  unfold RiskScoreBadge.getRiskLevel.
  destruct (Qle_bool s2 (inject_Z 20));
    [rewrite (M20 eq_refl); repeat split; vm_compute; auto|].
  destruct (Qle_bool s2 (inject_Z 40));
    [rewrite (M40 eq_refl); destruct (Qle_bool s1 (inject_Z 20));
     repeat split; vm_compute; auto|].
  destruct (Qle_bool s2 (inject_Z 60));
    [rewrite (M60 eq_refl); destruct (Qle_bool s1 (inject_Z 20));
     destruct (Qle_bool s1 (inject_Z 40)); repeat split; vm_compute; auto 6|].
  destruct (Qle_bool s2 (inject_Z 80));
    [rewrite (M80 eq_refl); destruct (Qle_bool s1 (inject_Z 20));
     destruct (Qle_bool s1 (inject_Z 40)); destruct (Qle_bool s1 (inject_Z 60));
     repeat split; vm_compute; auto 8|].
  destruct (Qle_bool s1 (inject_Z 20)); destruct (Qle_bool s1 (inject_Z 40));
    destruct (Qle_bool s1 (inject_Z 60)); destruct (Qle_bool s1 (inject_Z 80));
    repeat split; vm_compute; auto 8.
Qed.

Lemma risk_band_monotone_witness :
  RiskScoreBadge.label (RiskScoreBadge.getRiskLevel (inject_Z 20)) = "Low Risk"
  /\ RiskScoreBadge.label (RiskScoreBadge.getRiskLevel (41 # 2)) = "Moderate Risk"
  /\ bandIndex (RiskScoreBadge.label (RiskScoreBadge.getRiskLevel (inject_Z 20)))
     <= bandIndex (RiskScoreBadge.label (RiskScoreBadge.getRiskLevel (41 # 2))).
Proof.
  split; [reflexivity|split; [reflexivity|]].
  apply (risk_band_monotone (inject_Z 20) (41 # 2)).
  unfold Qle. simpl. lia.
Defined.

(** ** Short texts *)

Section Shortening.

Lemma length_append (s t : string) :
  String.length (s ++ t) = String.length s + String.length t.
Proof.
  induction s as [|c s IH]; [rewrite append_nil; reflexivity|].
  rewrite append_cons. cbn [String.length]. rewrite IH. reflexivity.
Qed.

Lemma length_takeStr (n : nat) (s : string) :
  String.length (takeStr n s) = Nat.min n (String.length s).
Proof.
  revert s. induction n as [|n IH]; intros [|c s]; cbn [takeStr String.length];
    try reflexivity.
  rewrite IH. reflexivity.
Qed.

Lemma length_dropStr (n : nat) (s : string) :
  String.length (dropStr n s) = String.length s - n.
Proof.
  revert s. induction n as [|n IH]; intros [|c s]; cbn [dropStr String.length];
    try reflexivity; try lia.
  apply IH.
Qed.

Lemma takeStr_app (s t : string) : takeStr (String.length s) (s ++ t) = s.
Proof.
  induction s as [|c s IH].
  - rewrite append_nil. destruct t; reflexivity.
  - rewrite append_cons. cbn [String.length takeStr]. rewrite IH. reflexivity.
Qed.

Lemma dropStr_app (s t : string) : dropStr (String.length s) (s ++ t) = t.
Proof.
  induction s as [|c s IH].
  - rewrite append_nil. destruct t; reflexivity.
  - rewrite append_cons. cbn [String.length dropStr]. exact IH.
Qed.

(** The shape [head...tail] keeps the head and the tail. *)
Lemma shortened_shape (h k : nat) (s : string) :
  h <= String.length s -> k <= String.length s ->
  let t := (takeStr h s ++ "..." ++ lastStr k s)%string in
  String.length t = h + 3 + k /\ takeStr h t = takeStr h s /\ lastStr k t = lastStr k s.
Proof.
  intros Hh Hk t.
  assert (Lh : String.length (takeStr h s) = h) by (rewrite length_takeStr; lia).
  assert (Lk : String.length (lastStr k s) = k)
    by (unfold lastStr; rewrite length_dropStr; lia).
  assert (Lt : String.length t = h + 3 + k).
  { unfold t. rewrite !length_append, Lh, Lk. cbn [String.length]. lia. }
  split; [exact Lt|split].
  - unfold t. rewrite <- Lh at 1. apply takeStr_app.
  - unfold lastStr at 1. rewrite Lt.
    replace (h + 3 + k - k) with (String.length (takeStr h s ++ "...")%string)
      by (rewrite length_append, Lh; cbn [String.length]; lia).
    unfold t. rewrite <- append_assoc. apply dropStr_app.
Qed.

Lemma underscoresToSpaces_clean (s : string) :
  includes (underscoresToSpaces s) "_" = false.
Proof.
  induction s as [|c s IH]; [reflexivity|].
  cbn [underscoresToSpaces]. rewrite includes_unfold, IH, startsWith_cons.
  destruct (Ascii.eqb c UNDERSCORE) eqn:E; [reflexivity|].
  change (Ascii.eqb c "_"%char) with (Ascii.eqb c UNDERSCORE). rewrite E. reflexivity.
Qed.

Lemma underscoresToSpaces_id (s : string) :
  includes s "_" = false -> underscoresToSpaces s = s.
Proof.
  induction s as [|c s IH]; [reflexivity|].
  rewrite includes_unfold, startsWith_cons. intros H.
  apply orb_false_iff in H. destruct H as [Hc Hs].
  change (Ascii.eqb c "_"%char) with (Ascii.eqb c UNDERSCORE) in Hc.
  cbn [underscoresToSpaces]. rewrite (IH Hs).
  destruct (Ascii.eqb c UNDERSCORE); [discriminate Hc|reflexivity].
Qed.

End Shortening.

(** X27.  A shortened node address has at most 20 characters and a
    shortened actor at most 24; both keep the beginning and the last eight
    characters of the original, and a text within the limit is shown
    unchanged. *)
Theorem shortened_texts_keep_ends (s : string) :
  String.length (truncateAddress s) <= 20
  /\ takeStr 8 (truncateAddress s) = takeStr 8 s
  /\ lastStr 8 (truncateAddress s) = lastStr 8 s
  /\ String.length (shortenActor s) <= 24
  /\ takeStr 12 (shortenActor s) = takeStr 12 s
  /\ lastStr 8 (shortenActor s) = lastStr 8 s
  /\ (truncateAddress s = s <-> String.length s <= 20)
  /\ (shortenActor s = s <-> String.length s <= 24).
Proof.
  unfold truncateAddress, shortenActor.
  destruct (Nat.ltb_spec 20 (String.length s)) as [H20|H20];
    destruct (Nat.leb_spec (String.length s) 24) as [H24|H24];
    try (destruct (shortened_shape 8 8 s ltac:(lia) ltac:(lia)) as (L1 & T1 & E1));
    try (destruct (shortened_shape 12 8 s ltac:(lia) ltac:(lia)) as (L2 & T2 & E2));
    cbv zeta in *;
    repeat split; try assumption; try reflexivity; try lia; intros Heq;
    try (rewrite Heq in L1; lia); try (rewrite Heq in L2; lia).
Qed.

(** X28.  The text of a feature pill holds no underscore; making it is
    idempotent, and a name without underscores is shown as it is. *)
Theorem feature_text_has_no_underscore (feature : string) :
  includes (featureText feature) "_" = false
  /\ featureText (featureText feature) = featureText feature
  /\ (includes feature "_" = false <-> featureText feature = feature).
Proof.
  assert (Hclean : includes (featureText feature) "_" = false)
    by apply underscoresToSpaces_clean.
  assert (Hid : forall f, includes f "_" = false -> featureText f = f).
  { intros f Hf. unfold featureText.
    assert (Hd : dropLeadingUnderscore f = f).
    { destruct f as [|c f]; [reflexivity|].
      rewrite includes_unfold, startsWith_cons in Hf.
      apply orb_false_iff in Hf. destruct Hf as [Hc _].
      change (Ascii.eqb c "_"%char) with (Ascii.eqb c UNDERSCORE) in Hc.
      cbn [dropLeadingUnderscore]. destruct (Ascii.eqb c UNDERSCORE);
        [discriminate Hc|reflexivity]. }
    rewrite Hd. apply underscoresToSpaces_id, Hf. }
  split; [exact Hclean|split; [apply Hid, Hclean|split; [apply Hid|]]].
  intros Heq. rewrite <- Heq. exact Hclean.
Qed.

(** ** The block of an error and of a vulnerable result *)

(** X29.  A structured result whose error field is set is always shown,
    whatever the accent and whether expanded or not: the block and the
    name in the muted style of an error, no card, no button, and one
    line, the error text.  That line has the class of the severity marker
    it carries, and the muted class of an error when it carries none. *)
Theorem error_block_view (obj : list (string * JsVal)) (isExpanded : bool)
    (accent : Accent) :
  truthy (get obj "error") = true ->
  probeResultBlock (JObj obj) isExpanded accent
  = Some {| view_cards := [];
            view_lines :=
              [ (toString (get obj "error"),
                 if nonEmpty (severityLineClass (toString (get obj "error")))
                 then severityLineClass (toString (get obj "error"))
                 else "text-slate-500"%string) ];
            view_toggle := None;
            view_container := "bg-slate-800/50 border border-white/5";
            view_name := "text-slate-500" |}
  /\ ((forall m, In m LINE_MARKERS ->
                 includes (toString (get obj "error")) m = false) ->
      map snd (default [] (view_lines <$> probeResultBlock (JObj obj) isExpanded accent))
      = [ "text-slate-500"%string ]).
Proof.
  intros H.
  assert (Hview : probeResultBlock (JObj obj) isExpanded accent
                  = Some {| view_cards := [];
                            view_lines :=
                              [ (toString (get obj "error"),
                                 if nonEmpty (severityLineClass (toString (get obj "error")))
                                 then severityLineClass (toString (get obj "error"))
                                 else "text-slate-500"%string) ];
                            view_toggle := None;
                            view_container := "bg-slate-800/50 border border-white/5";
                            view_name := "text-slate-500" |}).
  { unfold probeResultBlock, normalizeProbeResult, normalizeObject.
    rewrite H. destruct isExpanded; reflexivity. }
  split; [exact Hview|].
  intros Hm. rewrite Hview. cbn [fmap option_fmap option_map default view_lines map snd].
  assert (Hnone : severityLineClass (toString (get obj "error")) = EmptyString).
  { unfold severityLineClass.
    rewrite (Hm "[CRITICAL]"), (Hm "[HIGH]"), (Hm "[MEDIUM]"), (Hm "[LOW]"),
      (Hm "[INFO]"), (Hm "VULNERABILITY")
      by (unfold LINE_MARKERS; cbn [In]; tauto).
    reflexivity. }
  rewrite Hnone. reflexivity.
Qed.

Lemma error_block_view_witness :
  (exists v, probeResultBlock (JObj [("error", JStr "connection refused");
                                     ("vulnerabilities", JArr [JStr "weak cipher"])])
                              false Amber = Some v
             /\ view_lines v = [("connection refused"%string, "text-slate-500"%string)]
             /\ view_name v = "text-slate-500"%string)
  /\ (exists v, probeResultBlock (JObj [("error", JStr "[CRITICAL] probe crashed")])
                                 false Amber = Some v
                /\ view_lines v = [("[CRITICAL] probe crashed"%string,
                                    "text-red-500 font-bold"%string)]).
Proof.
  split.
  - eexists. split; [|split].
    + apply (proj1 (error_block_view [("error", JStr "connection refused");
                                      ("vulnerabilities", JArr [JStr "weak cipher"])]
                      false Amber eq_refl)).
    + vm_compute. reflexivity.
    + reflexivity.
  - eexists. split.
    + apply (proj1 (error_block_view [("error", JStr "[CRITICAL] probe crashed")]
                      false Amber eq_refl)).
    + vm_compute. reflexivity.
Defined.

(** X30.  A result flagged as vulnerable is always shown, and its block
    and its name carry the classes of the accent colour, also when the
    error flag is set as well. *)
Theorem vulnerable_block_accented (result : JsVal) (isExpanded : bool)
    (accent : Accent) :
  hasVulnerability (normalizeProbeResult result) = true ->
  exists v,
    probeResultBlock result isExpanded accent = Some v
    /\ view_container v
       = match accent with
         | Amber => "bg-amber-900/30 border border-amber-500/30"%string
         | Rose => "bg-rose-900/30 border border-rose-500/30"%string
         end
    /\ view_name v
       = match accent with
         | Amber => "text-amber-300"%string
         | Rose => "text-rose-300"%string
         end.
Proof.
  intros Hv. pose proof (vulnerable_has_line result Hv) as Hl.
  unfold probeResultBlock. cbv zeta.
  destruct (lines (normalizeProbeResult result)) as [|l ls] eqn:E;
    [contradiction Hl; reflexivity|].
  eexists. split; [reflexivity|].
  cbn [view_container view_name]. unfold containerClass, nameClass.
  rewrite Hv. split; reflexivity.
Qed.

Lemma vulnerable_block_accented_witness :
  hasError (normalizeProbeResult (JStr "VULNERABILITY: login failed open")) = true
  /\ exists v,
       probeResultBlock (JStr "VULNERABILITY: login failed open") false Rose = Some v
       /\ view_name v = "text-rose-300"%string.
Proof.
  split; [vm_compute; reflexivity|].
  destruct (vulnerable_block_accented (JStr "VULNERABILITY: login failed open")
              false Rose) as (v & Hv & _ & Hn).
  - vm_compute. reflexivity.
  - exists v. split; [exact Hv|exact Hn].
Defined.
